(** * Story routes and story mutations: a shallow embedding

    The HTTP handlers of [storyRoutes] and the GraphQL mutation resolvers
    for stories, embedded as Rocq functions.

    - A handler is a function from the request (and the story that
      [StoryCtx] placed in the request context) to the list of things it
      does to the [http.ResponseWriter] and to its collaborators, in
      program order.  Log calls are left out: they touch neither the
      response nor a collaborator.
    - A mutation resolver is a computation over the repository store that
      returns a result, the new store and the trace of the service and
      transaction events it caused.
    - Packages that the handlers call ([manager], [utils], [ffmpeg], the
      finders, the repository) are records of functions, one field per
      method used. *)

From Stdlib Require Import ZArith String Ascii List Bool Lia DecimalString.
From Stdlib Require Import Floats.PrimFloat Floats.FloatOps Floats.SpecFloat Numbers.Cyclic.Int63.Uint63.
From stdpp Require Import base strings list gmap.

Local Open Scope string_scope.
Local Open Scope list_scope.
Local Open Scope Z_scope.

(** ** Go values *)

(** [float64] is IEEE 754 binary64. *)
Definition float64 : Type := PrimFloat.float.

(** An [error] value.  [Wrap] is [fmt.Errorf("msg: %w", cause)];
    [errors.Is(err, context.Canceled)] is [is_canceled] and looks through
    the wrapping.  Error texts are abridged. *)
Inductive error : Type :=
| Canceled
| Failure (msg : string)
| Wrap (msg : string) (cause : error).

Fixpoint is_canceled (e : error) : bool :=
  match e with
  | Canceled => true
  | Failure _ => false
  | Wrap _ cause => is_canceled cause
  end.

(** [err.Error()] *)
Fixpoint error_msg (e : error) : string :=
  match e with
  | Canceled => "context canceled"
  | Failure m => m
  | Wrap m cause => m +:+ ": " +:+ error_msg cause
  end.

(** A Go pair [(value, err)] where the value is only read when [err] is nil. *)
Inductive result (A : Type) : Type :=
| Ok (a : A)
| Err (e : error).
Arguments Ok {A} a.
Arguments Err {A} e.

(** ** The parts of the Go standard library that the handlers use *)
Module strconv.

Definition is_digit (c : ascii) : bool :=
  (48 <=? Z.of_nat (nat_of_ascii c)) && (Z.of_nat (nat_of_ascii c) <=? 57).

Definition digit_val (c : ascii) : Z := Z.of_nat (nat_of_ascii c) - 48.

(** The digit loop of [Atoi]: [n = n*10 + int(ch)], a syntax error at
    the first byte that is not a digit. *)
Fixpoint digits (n : Z) (s : string) : option Z :=
  match s with
  | EmptyString => Some n
  | String ch rest =>
      if is_digit ch then digits (n * 10 + digit_val ch) rest else None
  end.

Definition minInt : Z := - 2 ^ 63.
Definition maxInt : Z := 2 ^ 63 - 1.

(** [strconv.Atoi] on a 64-bit platform: an optional sign, at least one
    digit, only digits, and a value that fits [int]; [None] is a non-nil
    error (syntax or range). *)
Definition Atoi (s : string) : option Z :=
  match s with
  | EmptyString => None
  | String c rest =>
      let neg := Ascii.eqb c "-"%char in
      let body := if neg || Ascii.eqb c "+"%char then rest else s in
      match body with
      | EmptyString => None
      | _ =>
          match digits 0 body with
          | None => None
          | Some n =>
              let v := if neg then - n else n in
              if (minInt <=? v) && (v <=? maxInt) then Some v else None
          end
      end
  end.

(** The error [Atoi] returns where it returns one. *)
Definition AtoiError (s : string) : error :=
  Failure ("strconv.Atoi: parsing " +:+ s).

(** [strconv.Itoa] *)
Definition Itoa (n : Z) : string := NilZero.string_of_int (Z.to_int n).

(** The two errors of [strconv.ParseFloat] and [strconv.ParseInt]. *)
Inductive NumError : Type := ErrSyntax | ErrRange.

Definition maxUint64 : Z := 2 ^ 64 - 1.

(** The digit loop of [ParseUint(s, 10, 64)], from [n]: a syntax error,
    with 0, at the first byte that is not a digit; a range error, with the
    largest value, as soon as the digits read no longer fit 64 bits, and
    the bytes after that digit are not looked at. *)
Fixpoint parseUintLoop (n : Z) (s : string) : Z * option NumError :=
  match s with
  | EmptyString => (n, None)
  | String ch rest =>
      if is_digit ch then
        if maxUint64 / 10 + 1 <=? n then (maxUint64, Some ErrRange)
        else
          let n1 := n * 10 + digit_val ch in
          if maxUint64 <? n1 then (maxUint64, Some ErrRange)
          else parseUintLoop n1 rest
      else (0, Some ErrSyntax)
  end.

Definition ParseUint (s : string) : Z * option NumError :=
  match s with
  | EmptyString => (0, Some ErrSyntax)
  | _ => parseUintLoop 0 s
  end.

(** [strconv.ParseInt(s, 10, 0)] on a 64-bit platform: the value and the
    error, both returned.  A syntax error comes with 0, a range error with
    the largest [int], or the smallest after a minus sign. *)
Definition ParseInt (s : string) : Z * option NumError :=
  match s with
  | EmptyString => (0, Some ErrSyntax)
  | String c rest =>
      let neg := Ascii.eqb c "-"%char in
      let body := if neg || Ascii.eqb c "+"%char then rest else s in
      match ParseUint body with
      | (_, Some ErrSyntax) => (0, Some ErrSyntax)
      | (un, _) =>
          let cutoff := 2 ^ 63 in
          if negb neg && (cutoff <=? un) then (cutoff - 1, Some ErrRange)
          else if neg && (cutoff <? un) then (- cutoff, Some ErrRange)
          else (if neg then - un else un, None)
      end
  end.

(** The [int] that [strconv.Atoi] returns, also where it returns an error
    with it: [Atoi] is [ParseInt(s, 10, 0)], and its fast path for short
    strings gives the same value and error. *)
Definition AtoiValue (s : string) : Z := fst (ParseInt s).

End strconv.

Module strings.

(** [strings.Join(elems, sep)] *)
Fixpoint Join (elems : list string) (sep : string) : string :=
  match elems with
  | [] => ""
  | [e] => e
  | e :: rest => e +:+ sep +:+ Join rest sep
  end.

End strings.

(** ** The response writer and the collaborators, as effects *)

Inductive StreamFormat : Type := StreamTypeMP4 | StreamTypeWEBM | StreamTypeMKV.
Inductive StreamType : Type := StreamTypeHLS | StreamTypeDASHVideo | StreamTypeDASHAudio.

(** [ffmpeg.Container] is a string type. *)
Definition Container : Type := string.

Record VideoFile : Type := {
  vf_ID : Z;
  vf_Path : string;
  vf_Format : string
}.

Record Story : Type := {
  ID : Z;
  Title : string;
  Path : string;
  Checksum : string;
  OSHash : string;
  PrimaryFileID : option Z;
  (** [Files.Primary()], nil when the story has no primary file *)
  Files_Primary : option VideoFile
}.

Record StoryMarker : Type := {
  sm_ID : Z;
  sm_Title : string;
  sm_Seconds : float64;
  sm_PrimaryTagID : Z;
  sm_StoryID : Z
}.

Record Tag : Type := {
  tag_ID : Z;
  tag_Name : string
}.

Record VideoCaption : Type := {
  LanguageCode : string;
  Filename : string;
  CaptionType : string
}.

Record TranscodeOptions : Type := {
  to_StreamType : StreamFormat;
  to_VideoFile : VideoFile;
  to_Resolution : string;
  to_StartTime : float64
}.

Record StreamOptions : Type := {
  so_StreamType : StreamType;
  so_VideoFile : VideoFile;
  so_Resolution : string;
  so_Hash : string;
  so_Segment : string
}.

Inductive effect : Type :=
| SetHeader (key value : string)          (* w.Header().Set *)
| WriteHeader (code : Z)                  (* w.WriteHeader *)
| Write (body : string)                   (* w.Write *)
| ServeStaticFile (filepath : string)     (* utils.ServeStaticFile *)
| ServeStaticContent (content : string)   (* utils.ServeStaticContent *)
| ServeTranscode (options : TranscodeOptions)
| ServeManifest (streamType : StreamType) (f : VideoFile) (resolution : string)
| ServeSegment (options : StreamOptions)
| StreamStoryDirect (story : Story)
| ServeScreenshot (story : Story)
| Panic.                                  (* nil pointer dereference *)

(** The line feed byte. *)
Definition LF : string := String (ascii_of_nat 10) EmptyString.

Module http.

Definition StatusBadRequest : Z := 400.
Definition StatusNotFound : Z := 404.
Definition StatusInternalServerError : Z := 500.
Definition StatusServiceUnavailable : Z := 503.

(** [http.StatusText] for the codes used here. *)
Definition StatusText (code : Z) : string :=
  if code =? 400 then "Bad Request"
  else if code =? 404 then "Not Found"
  else if code =? 500 then "Internal Server Error"
  else if code =? 503 then "Service Unavailable"
  else "".

(** [http.Error(w, msg, code)]: plain-text headers, the status line, then
    the message and a newline. *)
Definition Error (msg : string) (code : Z) : list effect :=
  [ SetHeader "Content-Type" "text/plain; charset=utf-8";
    SetHeader "X-Content-Type-Options" "nosniff";
    WriteHeader code;
    Write (msg +:+ LF) ].

End http.

(** The status the handler itself put on the wire: the first
    [WriteHeader], unless a body write or a delegated serve came first. *)
Fixpoint written_status (es : list effect) : option Z :=
  match es with
  | [] => None
  | SetHeader _ _ :: rest => written_status rest
  | WriteHeader code :: _ => Some code
  | _ :: _ => None
  end.

(** The response carries nothing from the handler: no status, no header,
    no body and no delegated serve. *)
Definition empty_response (es : list effect) : Prop := es = [].

(** A call into the stream manager (and so a possible encoder process). *)
Definition is_stream_manager_call (e : effect) : bool :=
  match e with
  | ServeTranscode _ | ServeManifest _ _ _ | ServeSegment _ => true
  | _ => false
  end.

(** ** The request *)

Record Request : Type := {
  (** [chi.URLParam]: the path parameters of the matched route *)
  URLParams : gmap string string;
  (** [r.Form] after [r.ParseForm()] *)
  Form : gmap string (list string)
}.

(** [chi.URLParam(r, key)]: the empty string when the route has no such
    parameter. *)
Definition URLParam (r : Request) (key : string) : string :=
  default "" (URLParams r !! key).

(** [url.Values.Get]: the first value of the key, or the empty string. *)
Definition Form_Get (r : Request) (key : string) : string :=
  match Form r !! key with
  | Some (v :: _) => v
  | _ => ""
  end.

(** ** Collaborators of the routes *)

(** The finders held by [storyRoutes].  A finder called inside
    [withReadTxn] returns the outcome of the whole read transaction. *)
Record storyRoutes : Type := {
  (** [storyFinder.Find]; [StoryCtx] drops its error and keeps the pointer *)
  storyFinder_Find : Z -> option Story;
  (** [story.LoadPrimaryFile(ctx, rs.fileGetter)] *)
  LoadPrimaryFile : Story -> result Story;
  (** [captionFinder.GetCaptions] *)
  captionFinder_GetCaptions : Z -> result (list VideoCaption);
  (** [storyMarkerFinder.Find]: a nil marker and a nil error is [Ok None] *)
  storyMarkerFinder_Find : Z -> result (option StoryMarker);
  storyMarkerFinder_FindByStoryID : Z -> result (list StoryMarker);
  (** [tagFinder.Find] *)
  tagFinder_Find : Z -> result (option Tag);
  tagFinder_FindByStoryMarkerID : Z -> result (list Tag)
}.

(** What is on the stream manager is not looked at here: a call on it is
    an effect. *)
Inductive StreamManagerT : Type := TheStreamManager.

(** The packages [manager], [config], [ffmpeg], [utils], [fsutil] and
    [video], and [strconv.ParseFloat]. *)
Record Env : Type := {
  (** [manager.GetInstance().StreamManager], nil when live transcoding is
      disabled *)
  StreamManager : option StreamManagerT;
  (** [manager.GetVideoFileContainer] returns a container and an error *)
  GetVideoFileContainer : VideoFile -> Container * option error;
  (** [ffmpeg.Matroska] *)
  Matroska : Container;
  (** [story.GetHash(config.GetInstance().GetVideoFileNamingAlgorithm())] *)
  GetHash : Story -> string;
  (** [manager.GetInstance().Paths.Story] *)
  Story_GetVideoPreviewPath : string -> string;
  Story_GetWebpPreviewPath : string -> string;
  Story_GetSpriteVttFilePath : string -> string;
  Story_GetSpriteImageFilePath : string -> string;
  Story_GetInteractiveHeatmapPath : string -> string;
  (** [manager.GetInstance().Paths.StoryMarkers] *)
  StoryMarkers_GetVideoPreviewPath : string -> Z -> string;
  StoryMarkers_GetWebpPreviewPath : string -> Z -> string;
  StoryMarkers_GetScreenshotPath : string -> Z -> string;
  (** [video.GetFunscriptPath], [manager.ConvertFunscriptToCSV] *)
  GetFunscriptPath : string -> string;
  ConvertFunscriptToCSV : string -> result string;
  (** [fsutil.FileExists], its error dropped as the handlers do *)
  FileExists : string -> bool;
  (** [utils.PendingGenerateResource], the placeholder image *)
  PendingGenerateResource : string;
  (** [utils.GetVTTTime] *)
  GetVTTTime : float64 -> string;
  (** [caption.Path(storyPath)] *)
  caption_Path : VideoCaption -> string -> string;
  (** [video.ReadSubs] and [sub.WriteToWebVTT] *)
  Subtitles : Type;
  ReadSubs : string -> result Subtitles;
  WriteToWebVTT : Subtitles -> result string;
  (** [strconv.ParseFloat(s, 64)]: the value and the error, both returned *)
  ParseFloat : string -> float64 * option strconv.NumError
}.

(** Go's [int(f)] for a [float64]: truncation toward zero; the smallest
    [int] where the value is not finite or does not fit (amd64). *)
Definition int_of_float64 (f : float64) : Z :=
  match FloatOps.Prim2SF f with
  | SpecFloat.S754_zero _ => 0
  | SpecFloat.S754_finite sign m e =>
      let v := if 0 <=? e then Z.pos m * 2 ^ e else Z.pos m / 2 ^ (- e) in
      let v := if sign then - v else v in
      if (strconv.minInt <=? v) && (v <=? strconv.maxInt) then v
      else strconv.minInt
  | _ => strconv.minInt
  end.


(** ** The handlers of [storyRoutes] *)
Section Handlers.

Variable rs : storyRoutes.
Variable env : Env.

Definition StreamDirect (story : Story) (r : Request) : list effect :=
  [StreamStoryDirect story].

Definition streamTranscode (streamType : StreamFormat)
    (story : Story) (r : Request) : list effect :=
  match StreamManager env with
  | None =>
      http.Error "Live transcoding disabled" http.StatusServiceUnavailable
  | Some streamManager =>
      match Files_Primary story with
      | None => []
      | Some f =>
          let startTime := Form_Get r "start" in
          let ss := fst (ParseFloat env startTime) in
          let resolution := Form_Get r "resolution" in
          let options :=
            {| to_StreamType := streamType;
               to_VideoFile := f;
               to_Resolution := resolution;
               to_StartTime := ss |} in
          [ServeTranscode options]
      end
  end.

Definition StreamMp4 := streamTranscode StreamTypeMP4.
Definition StreamWebM := streamTranscode StreamTypeWEBM.

Definition StreamMKV (story : Story) (r : Request) : list effect :=
  match Files_Primary story with
  | None => []
  | Some pf =>
      let container := fst (GetVideoFileContainer env pf) in
      if negb (String.eqb container (Matroska env)) then
        [WriteHeader http.StatusBadRequest; Write "not an mkv file"]
      else streamTranscode StreamTypeMKV story r
  end.

Definition streamManifest (streamType : StreamType) (logName : string)
    (story : Story) (r : Request) : list effect :=
  match StreamManager env with
  | None =>
      http.Error "Live transcoding disabled" http.StatusServiceUnavailable
  | Some streamManager =>
      match Files_Primary story with
      | None => []
      | Some f =>
          let resolution := Form_Get r "resolution" in
          [ServeManifest streamType f resolution]
      end
  end.

Definition StreamHLS := streamManifest StreamTypeHLS "HLS".
Definition StreamDASH := streamManifest StreamTypeDASHVideo "DASH".

Definition streamSegment (streamType : StreamType)
    (story : Story) (r : Request) : list effect :=
  match StreamManager env with
  | None =>
      http.Error "Live transcoding disabled" http.StatusServiceUnavailable
  | Some streamManager =>
      match Files_Primary story with
      | None => []
      | Some f =>
          let storyHash := GetHash env story in
          let segment := URLParam r "segment" in
          let resolution := Form_Get r "resolution" in
          let options :=
            {| so_StreamType := streamType;
               so_VideoFile := f;
               so_Resolution := resolution;
               so_Hash := storyHash;
               so_Segment := segment |} in
          [ServeSegment options]
      end
  end.

Definition StreamHLSSegment := streamSegment StreamTypeHLS.
Definition StreamDASHVideoSegment := streamSegment StreamTypeDASHVideo.
Definition StreamDASHAudioSegment := streamSegment StreamTypeDASHAudio.

Definition Screenshot (story : Story) (r : Request) : list effect :=
  [ServeScreenshot story].

Definition Preview (story : Story) (r : Request) : list effect :=
  let storyHash := GetHash env story in
  let filepath := Story_GetVideoPreviewPath env storyHash in
  [ServeStaticFile filepath].

Definition Webp (story : Story) (r : Request) : list effect :=
  let storyHash := GetHash env story in
  let filepath := Story_GetWebpPreviewPath env storyHash in
  [ServeStaticFile filepath].

(** What [getChapterVttTitle] comes back with: a title, an error, or a
    panic on the nil primary tag. *)
Inductive title_outcome : Type :=
| TitleOk (title : string)
| TitleErr (e : error)
| TitlePanic.

(** [for _, t := range tags { title += ", " + t.Name }] *)
Fixpoint append_tag_names (title : string) (tags : list Tag) : string :=
  match tags with
  | [] => title
  | t :: rest => append_tag_names (title +:+ ", " +:+ tag_Name t) rest
  end.

Definition getChapterVttTitle (marker : StoryMarker) : title_outcome :=
  if negb (String.eqb (sm_Title marker) "") then TitleOk (sm_Title marker)
  else
    match tagFinder_Find rs (sm_PrimaryTagID marker) with
    | Err e => TitleErr e
    | Ok None => TitlePanic
    | Ok (Some primaryTag) =>
        let title := tag_Name primaryTag in
        match tagFinder_FindByStoryMarkerID rs (sm_ID marker) with
        | Err e => TitleErr e
        | Ok tags => TitleOk (append_tag_names title tags)
        end
    end.

(** The marker loop of [VttChapter], from index [i] with the lines
    gathered so far; it stops at the first title that fails. *)
Fixpoint chapterLoop (i : Z) (storyMarkers : list StoryMarker)
    (vttLines : list string) : list effect + list string :=
  match storyMarkers with
  | [] => inr vttLines
  | marker :: rest =>
      let vttLines := vttLines ++ [strconv.Itoa (i + 1)] in
      let time := GetVTTTime env (sm_Seconds marker) in
      let vttLines := vttLines ++ [time +:+ " --> " +:+ time] in
      match getChapterVttTitle marker with
      | TitlePanic => inl [Panic]
      | TitleErr err =>
          if is_canceled err then inl []
          else inl (http.Error (error_msg err) http.StatusInternalServerError)
      | TitleOk vttTitle =>
          let vttLines := vttLines ++ [vttTitle] in
          let vttLines := vttLines ++ [""] in
          chapterLoop (i + 1) rest vttLines
      end
  end.

Definition VttChapter (story : Story) (r : Request) : list effect :=
  match storyMarkerFinder_FindByStoryID rs (ID story) with
  | Err readTxnErr =>
      if is_canceled readTxnErr then []
      else http.Error (error_msg readTxnErr) http.StatusInternalServerError
  | Ok storyMarkers =>
      match chapterLoop 0 storyMarkers ["WEBVTT"; ""] with
      | inl response => response
      | inr vttLines =>
          let vtt := strings.Join vttLines LF in
          [SetHeader "Content-Type" "text/vtt"; ServeStaticContent vtt]
      end
  end.

(** [VttThumbs] and [VttSprite] are mounted under [/{storyId}] and, by
    hash, at the top: the story is nil on the second mount. *)
Definition VttThumbs (story : option Story) (r : Request) : list effect :=
  let storyHash :=
    match story with
    | Some story => GetHash env story
    | None => URLParam r "storyHash"
    end in
  let filepath := Story_GetSpriteVttFilePath env storyHash in
  [SetHeader "Content-Type" "text/vtt"; ServeStaticFile filepath].

Definition VttSprite (story : option Story) (r : Request) : list effect :=
  let storyHash :=
    match story with
    | Some story => GetHash env story
    | None => URLParam r "storyHash"
    end in
  let filepath := Story_GetSpriteImageFilePath env storyHash in
  [ServeStaticFile filepath].

Definition Funscript (s : Story) (r : Request) : list effect :=
  let filepath := GetFunscriptPath env (Path s) in
  [ServeStaticFile filepath].

Definition InteractiveCSV (s : Story) (r : Request) : list effect :=
  let filepath := GetFunscriptPath env (Path s) in
  match ConvertFunscriptToCSV env filepath with
  | Err err => http.Error (error_msg err) http.StatusInternalServerError
  | Ok csvBytes => [ServeStaticContent csvBytes]
  end.

Definition InteractiveHeatmap (story : Story) (r : Request) : list effect :=
  let storyHash := GetHash env story in
  let filepath := Story_GetInteractiveHeatmapPath env storyHash in
  [ServeStaticFile filepath].

(** The caption loop: the first caption with this language and type is
    read and served; a caption that does not match is skipped. *)
Fixpoint captionLoop (s : Story) (lang ext : string)
    (captions : list VideoCaption) : list effect :=
  match captions with
  | [] => []
  | caption :: rest =>
      if negb (String.eqb lang (LanguageCode caption))
         || negb (String.eqb ext (CaptionType caption))
      then captionLoop s lang ext rest
      else
        match ReadSubs env (caption_Path env caption (Path s)) with
        | Err err =>
            http.Error (error_msg err) http.StatusInternalServerError
        | Ok sub =>
            match WriteToWebVTT env sub with
            | Err err =>
                http.Error (error_msg err) http.StatusInternalServerError
            | Ok buf =>
                [SetHeader "Content-Type" "text/vtt"; ServeStaticContent buf]
            end
        end
  end.

(** The captions the read transaction of [Caption] leaves in [captions]:
    none when the story has no primary file. *)
Definition storedCaptions (s : Story) : result (list VideoCaption) :=
  match Files_Primary s with
  | None => Ok []
  | Some primaryFile => captionFinder_GetCaptions rs (vf_ID primaryFile)
  end.

Definition Caption (lang ext : string) (s : Story) (r : Request)
    : list effect :=
  match storedCaptions s with
  | Err readTxnErr =>
      if is_canceled readTxnErr then []
      else http.Error (error_msg readTxnErr) http.StatusInternalServerError
  | Ok captions => captionLoop s lang ext captions
  end.

Definition CaptionLang (s : Story) (r : Request) : list effect :=
  let l := Form_Get r "lang" in
  let ext := Form_Get r "type" in
  Caption l ext s r.

(** [strconv.Atoi(chi.URLParam(r, "storyMarkerId"))] with the error
    dropped: the value [Atoi] returned is used as it is, 0 after a syntax
    error and the largest or smallest [int] after a range error. *)
Definition storyMarkerIdParam (r : Request) : Z :=
  strconv.AtoiValue (URLParam r "storyMarkerId").

(** The part the three marker handlers share: find the marker, answer
    500 on a read error and 404 on no marker, else go on with [serve]. *)
Definition withStoryMarker (r : Request)
    (serve : StoryMarker -> list effect) : list effect :=
  let storyMarkerID := storyMarkerIdParam r in
  match storyMarkerFinder_Find rs storyMarkerID with
  | Err readTxnErr =>
      if is_canceled readTxnErr then []
      else http.Error (error_msg readTxnErr) http.StatusInternalServerError
  | Ok None => http.Error (http.StatusText 404) 404
  | Ok (Some storyMarker) => serve storyMarker
  end.

Definition StoryMarkerStream (story : Story) (r : Request) : list effect :=
  let storyHash := GetHash env story in
  withStoryMarker r (fun storyMarker =>
    let filepath :=
      StoryMarkers_GetVideoPreviewPath env storyHash
        (int_of_float64 (sm_Seconds storyMarker)) in
    [ServeStaticFile filepath]).

(** The placeholder answer of the marker image handlers. *)
Definition servePlaceholder : list effect :=
  [SetHeader "Content-Type" "image/png";
   ServeStaticContent (PendingGenerateResource env)].

Definition StoryMarkerPreview (story : Story) (r : Request) : list effect :=
  let storyHash := GetHash env story in
  withStoryMarker r (fun storyMarker =>
    let filepath :=
      StoryMarkers_GetWebpPreviewPath env storyHash
        (int_of_float64 (sm_Seconds storyMarker)) in
    let exists_ := FileExists env filepath in
    if negb exists_ then servePlaceholder
    else [ServeStaticFile filepath]).

Definition StoryMarkerScreenshot (story : Story) (r : Request)
    : list effect :=
  let storyHash := GetHash env story in
  withStoryMarker r (fun storyMarker =>
    let filepath :=
      StoryMarkers_GetScreenshotPath env storyHash
        (int_of_float64 (sm_Seconds storyMarker)) in
    let exists_ := FileExists env filepath in
    if negb exists_ then servePlaceholder
    else [ServeStaticFile filepath]).

(** The middleware of every [/{storyId}] route. *)
Definition StoryCtx (next : Story -> Request -> list effect)
    (r : Request) : list effect :=
  match strconv.Atoi (URLParam r "storyId") with
  | None =>
      http.Error (http.StatusText http.StatusBadRequest) http.StatusBadRequest
  | Some storyID =>
      let story :=
        match storyFinder_Find rs storyID with
        | None => None
        | Some story =>
            match LoadPrimaryFile rs story with
            | Err _ => None
            | Ok loaded => Some loaded
            end
        end in
      match story with
      | None => http.Error (http.StatusText 404) 404
      | Some story => next story r
      end
  end.

(** The routes of [Routes()], already matched by the router. *)
Inductive route : Type :=
| stream | stream_mp4 | stream_webm | stream_mkv
| stream_m3u8 | stream_m3u8_segment_ts
| stream_mpd | stream_mpd_segment_v_webm | stream_mpd_segment_a_webm
| screenshot | preview | webp
| vtt_chapter | vtt_thumbs | vtt_sprite
| funscript | interactive_csv | interactive_heatmap | caption
| story_marker_stream | story_marker_preview | story_marker_screenshot
| storyHash_thumbs_vtt | storyHash_sprite_jpg.

Definition Routes (rt : route) (r : Request) : list effect :=
  match rt with
  | stream => StoryCtx StreamDirect r
  | stream_mp4 => StoryCtx StreamMp4 r
  | stream_webm => StoryCtx StreamWebM r
  | stream_mkv => StoryCtx StreamMKV r
  | stream_m3u8 => StoryCtx StreamHLS r
  | stream_m3u8_segment_ts => StoryCtx StreamHLSSegment r
  | stream_mpd => StoryCtx StreamDASH r
  | stream_mpd_segment_v_webm => StoryCtx StreamDASHVideoSegment r
  | stream_mpd_segment_a_webm => StoryCtx StreamDASHAudioSegment r
  | screenshot => StoryCtx Screenshot r
  | preview => StoryCtx Preview r
  | webp => StoryCtx Webp r
  | vtt_chapter => StoryCtx VttChapter r
  | vtt_thumbs => StoryCtx (fun story => VttThumbs (Some story)) r
  | vtt_sprite => StoryCtx (fun story => VttSprite (Some story)) r
  | funscript => StoryCtx Funscript r
  | interactive_csv => StoryCtx InteractiveCSV r
  | interactive_heatmap => StoryCtx InteractiveHeatmap r
  | caption => StoryCtx CaptionLang r
  | story_marker_stream => StoryCtx StoryMarkerStream r
  | story_marker_preview => StoryCtx StoryMarkerPreview r
  | story_marker_screenshot => StoryCtx StoryMarkerScreenshot r
  | storyHash_thumbs_vtt => VttThumbs None r
  | storyHash_sprite_jpg => VttSprite None r
  end.

End Handlers.

(** ** The story mutations of [mutationResolver] *)

(** [models.OptionalString] and its siblings. *)
Record Optional (A : Type) : Type := {
  Value : A;
  Null : bool;
  Set_ : bool
}.
Arguments Value {A} o.
Arguments Null {A} o.
Arguments Set_ {A} o.

Inductive RelationshipUpdateMode : Type :=
| RelationshipUpdateModeSet
| RelationshipUpdateModeAdd
| RelationshipUpdateModeRemove.

Record UpdateIDs : Type := {
  IDs : list Z;
  Mode : RelationshipUpdateMode
}.

Record UpdateStrings : Type := {
  Values : list string;
  us_Mode : RelationshipUpdateMode
}.

Record StoryPartial : Type := {
  sp_Title : Optional string;
  sp_Code : Optional string;
  sp_Details : Optional string;
  sp_Director : Optional string;
  sp_Rating : Optional Z;
  sp_PlayDuration : Optional float64;
  sp_Organized : Optional bool;
  sp_StashIDs : option UpdateStrings;
  sp_Date : Optional string;
  sp_StudioID : Optional Z;
  sp_URLs : option UpdateStrings;
  sp_PrimaryFileID : option Z;
  sp_PerformerIDs : option UpdateIDs;
  sp_TagIDs : option UpdateIDs;
  sp_GalleryIDs : option UpdateIDs;
  sp_MovieIDs : option UpdateIDs
}.

Definition unset {A : Type} (zero : A) : Optional A :=
  {| Value := zero; Null := false; Set_ := false |}.

(** [models.NewStoryPartial()], the update time left out. *)
Definition NewStoryPartial : StoryPartial :=
  {| sp_Title := unset ""; sp_Code := unset ""; sp_Details := unset "";
     sp_Director := unset ""; sp_Rating := unset 0;
     sp_PlayDuration := unset 0%float; sp_Organized := unset false;
     sp_StashIDs := None; sp_Date := unset ""; sp_StudioID := unset 0;
     sp_URLs := None; sp_PrimaryFileID := None; sp_PerformerIDs := None;
     sp_TagIDs := None; sp_GalleryIDs := None; sp_MovieIDs := None |}.

Record StoryUpdateInput : Type := {
  in_ID : string;
  in_Title : option string;
  in_Code : option string;
  in_Details : option string;
  in_Director : option string;
  in_Rating100 : option Z;
  in_PlayDuration : option float64;
  in_Organized : option bool;
  in_StashIds : list string;
  in_Date : option string;
  in_StudioID : option string;
  in_Urls : list string;
  in_URL : option string;
  in_PrimaryFileID : option string;
  in_PerformerIds : list string;
  in_TagIds : list string;
  in_GalleryIds : list string;
  in_Movies : list string;
  in_CoverImage : option string
}.

Record StoryDestroyInput : Type := {
  sd_ID : string;
  sd_DeleteFile : option bool;
  sd_DeleteGenerated : option bool
}.

Record StoriesDestroyInput : Type := {
  ssd_Ids : list string;
  ssd_DeleteFile : option bool;
  ssd_DeleteGenerated : option bool
}.

Record StoryMergeInput : Type := {
  mi_Source : list string;
  mi_Destination : string;
  mi_Values : option StoryUpdateInput;
  mi_PlayHistory : option bool;
  mi_OHistory : option bool
}.

Record MergeOptions : Type := {
  mo_StoryPartial : StoryPartial;
  IncludePlayHistory : bool;
  IncludeOHistory : bool
}.

(** The methods of [changesetTranslator] that [storyPartialFromInput]
    calls; the translator is built from the input map of the request. *)
Record changesetTranslator : Type := {
  optionalString : option string -> string -> Optional string;
  optionalInt : option Z -> string -> Optional Z;
  optionalFloat64 : option float64 -> string -> Optional float64;
  optionalBool : option bool -> string -> Optional bool;
  updateStashIDs : list string -> string -> option UpdateStrings;
  optionalDate : option string -> string -> result (Optional string);
  optionalIntFromString : option string -> string -> result (Optional Z);
  optionalURLs : list string -> option string -> option UpdateStrings;
  fileIDPtrFromString : option string -> result (option Z);
  updateIds : list string -> string -> result (option UpdateIDs);
  updateMovieIDs : list string -> string -> result (option UpdateIDs)
}.

(** What a mutation does outside the store, and where its transaction
    ends. *)
Inductive event : Type :=
| KillRunningStreams (storyID : Z)     (* manager.KillRunningStreams *)
| ServiceDestroy (storyID : Z)         (* storyService.Destroy is called *)
| ServiceMerge (srcIDs : list Z) (destID : Z)
| RepoUpdatePartial (storyID : Z)      (* qb.UpdatePartial is called *)
| RepoUpdateCover (storyID : Z)        (* qb.UpdateCover is called *)
| TxnCommit
| TxnRollback
| FileDeleterCommit
| FileDeleterRollback
| PostHook (storyID : Z).

Definition is_kill (e : event) : bool :=
  match e with KillRunningStreams _ => true | _ => false end.

Definition is_write (e : event) : bool :=
  match e with
  | ServiceDestroy _ | ServiceMerge _ _
  | RepoUpdatePartial _ | RepoUpdateCover _ => true
  | _ => false
  end.

(** [utils.IsTrue] *)
Definition IsTrue (b : option bool) : bool := default false b.

(** [stringslice.StringSliceToIntSlice]: [Atoi] on every element, the
    first error returned. *)
Fixpoint StringSliceToIntSlice (ss : list string) : result (list Z) :=
  match ss with
  | [] => Ok []
  | s :: rest =>
      match strconv.Atoi s with
      | None => Err (strconv.AtoiError s)
      | Some n =>
          match StringSliceToIntSlice rest with
          | Err e => Err e
          | Ok ns => Ok (n :: ns)
          end
      end
  end.

(** [storyPartialFromInput]: the conversions in source order, the first
    failing one returned wrapped. *)
Definition storyPartialFromInput (input : StoryUpdateInput)
    (translator : changesetTranslator) : result StoryPartial :=
  let title := optionalString translator (in_Title input) "title" in
  let code := optionalString translator (in_Code input) "code" in
  let details := optionalString translator (in_Details input) "details" in
  let director := optionalString translator (in_Director input) "director" in
  let rating := optionalInt translator (in_Rating100 input) "rating100" in
  let playDuration :=
    optionalFloat64 translator (in_PlayDuration input) "play_duration" in
  let organized := optionalBool translator (in_Organized input) "organized" in
  let stashIDs := updateStashIDs translator (in_StashIds input) "stash_ids" in
  match optionalDate translator (in_Date input) "date" with
  | Err err => Err (Wrap "converting date" err)
  | Ok date =>
  match optionalIntFromString translator (in_StudioID input) "studio_id" with
  | Err err => Err (Wrap "converting studio id" err)
  | Ok studioID =>
  let urls := optionalURLs translator (in_Urls input) (in_URL input) in
  match fileIDPtrFromString translator (in_PrimaryFileID input) with
  | Err err => Err (Wrap "converting primary file id" err)
  | Ok primaryFileID =>
  match updateIds translator (in_PerformerIds input) "performer_ids" with
  | Err err => Err (Wrap "converting performer ids" err)
  | Ok performerIDs =>
  match updateIds translator (in_TagIds input) "tag_ids" with
  | Err err => Err (Wrap "converting tag ids" err)
  | Ok tagIDs =>
  match updateIds translator (in_GalleryIds input) "gallery_ids" with
  | Err err => Err (Wrap "converting gallery ids" err)
  | Ok galleryIDs =>
  match updateMovieIDs translator (in_Movies input) "movies" with
  | Err err => Err (Wrap "converting movies" err)
  | Ok movieIDs =>
      Ok {| sp_Title := title; sp_Code := code; sp_Details := details;
            sp_Director := director; sp_Rating := rating;
            sp_PlayDuration := playDuration; sp_Organized := organized;
            sp_StashIDs := stashIDs; sp_Date := date;
            sp_StudioID := studioID; sp_URLs := urls;
            sp_PrimaryFileID := primaryFileID;
            sp_PerformerIDs := performerIDs; sp_TagIDs := tagIDs;
            sp_GalleryIDs := galleryIDs; sp_MovieIDs := movieIDs |}
  end end end end end end end.

Section Mutations.

(** The state of the database, as the repository sees it. *)
Variable Store : Type.

(** The repository, the story service and [utils.ProcessImageInput]
    behind the resolver.  Reads leave the store alone; a write returns
    the new store. *)
Record Resolver : Type := {
  (** [repository.Story.Find] *)
  Story_Find : Store -> Z -> result (option Story);
  (** [story.LoadFiles(ctx, repository.Story)] followed by
      [story.Files.List()] *)
  Story_LoadFiles : Store -> Story -> result (list VideoFile);
  (** [repository.Story.UpdatePartial] *)
  Story_UpdatePartial :
    Store -> Z -> StoryPartial -> result Story * Store;
  (** [repository.Story.UpdateCover] *)
  Story_UpdateCover : Store -> Z -> string -> result unit * Store;
  (** [storyService.Destroy] *)
  storyService_Destroy :
    Store -> Story -> bool -> bool -> result unit * Store;
  (** [storyService.Merge]; what it does to running streams is in the
      events it returns *)
  storyService_Merge :
    Store -> list Z -> Z -> MergeOptions -> result unit * Store * list event;
  (** [utils.ProcessImageInput] *)
  ProcessImageInput : string -> result string
}.

Variable r : Resolver.

(** A resolver step: a result, the store it leaves and the events it
    caused. *)
Definition M (A : Type) : Type := Store -> result A * Store * list event.

Definition ret {A : Type} (a : A) : M A := fun st => (Ok a, st, []).

Definition fail {A : Type} (e : error) : M A := fun st => (Err e, st, []).

(** Sequencing; an error ends the computation, as [return err] does. *)
Definition bind {A B : Type} (m : M A) (k : A -> M B) : M B :=
  fun st =>
    match m st with
    | (Ok a, st1, tr1) =>
        match k a st1 with
        | (res, st2, tr2) => (res, st2, tr1 ++ tr2)
        end
    | (Err e, st1, tr1) => (Err e, st1, tr1)
    end.

Definition emit (ev : event) : M unit := fun st => (Ok tt, st, [ev]).

(** A read of the store. *)
Definition read {A : Type} (f : Store -> result A) : M A :=
  fun st => (f st, st, []).

(** A write to the store, announced by [ev]. *)
Definition write {A : Type} (ev : event) (f : Store -> result A * Store)
    : M A :=
  fun st => match f st with (res, st1) => (res, st1, [ev]) end.

(** A value of the resolver, before any store access. *)
Definition lift {A : Type} (res : result A) : M A :=
  fun st => (res, st, []).

Notation "x <- m ;; k" := (bind m (fun x => k))
  (at level 100, m at next level, right associativity).
Notation "m ;;; k" := (bind m (fun _ => k))
  (at level 100, right associativity).

(** Modelled from the spec: [withTxn], the transaction wrapper of the
    resolver, is not among these sources.  The function runs inside the
    transaction boundary; the transaction commits when the function
    returns nil, and is rolled back, the store restored, when it returns
    an error.  Events are not undone by a rollback. *)
Definition withTxn {A : Type} (fn : M A) : M A :=
  fun st =>
    match fn st with
    | (Ok a, st1, tr) => (Ok a, st1, tr ++ [TxnCommit])
    | (Err e, _, tr) => (Err e, st, tr ++ [TxnRollback])
    end.

Definition notFound (what : string) (id : Z) : error :=
  Failure (what +:+ " with id " +:+ strconv.Itoa id +:+ " not found").

(** [getStory]: used to refetch the story after the hooks ran. *)
Definition getStory (id : Z) : M (option Story) :=
  withTxn (read (fun st => Story_Find r st id)).

Definition storyUpdateCoverImage (s : Story) (coverImageData : string)
    : M unit :=
  if 0 <? Z.of_nat (String.length coverImageData) then
    write (RepoUpdateCover (ID s))
      (fun st => Story_UpdateCover r st (ID s) coverImageData)
  else ret tt.

(** The loop that looks the new primary file up among the files of the
    story: the last file with that id, nil when there is none. *)
Fixpoint findFile (files : list VideoFile) (newPrimaryFileID : Z)
    (f : option VideoFile) : option VideoFile :=
  match files with
  | [] => f
  | ff :: rest =>
      if vf_ID ff =? newPrimaryFileID
      then findFile rest newPrimaryFileID (Some ff)
      else findFile rest newPrimaryFileID f
  end.

Definition storyUpdate (input : StoryUpdateInput)
    (translator : changesetTranslator) : M Story :=
  match strconv.Atoi (in_ID input) with
  | None => fail (Wrap "converting id" (strconv.AtoiError (in_ID input)))
  | Some storyID =>
      originalStory <- read (fun st => Story_Find r st storyID) ;;
      match originalStory with
      | None => fail (notFound "story" storyID)
      | Some originalStory =>
          updatedStory <- lift (storyPartialFromInput input translator) ;;
          (* ensure that title is set where story has no file *)
          (if Set_ (sp_Title updatedStory)
              && String.eqb (Value (sp_Title updatedStory)) ""
           then
             files <- read (fun st => Story_LoadFiles r st originalStory) ;;
             if (length files =? 0)%nat
             then fail (Failure "title must be set if story has no files")
             else ret tt
           else ret tt) ;;;
          (match sp_PrimaryFileID updatedStory with
           | Some newPrimaryFileID =>
               files <- read (fun st => Story_LoadFiles r st originalStory) ;;
               (* ensure that new primary file is associated with story *)
               match findFile files newPrimaryFileID None with
               | None =>
                   fail (Failure ("file with id "
                                  +:+ strconv.Itoa newPrimaryFileID
                                  +:+ " not associated with story"))
               | Some f => ret tt
               end
           | None => ret tt
           end) ;;;
          coverImageData <-
            match in_CoverImage input with
            | Some image =>
                match ProcessImageInput r image with
                | Err err => fail (Wrap "processing cover image" err)
                | Ok data => ret data
                end
            | None => ret ""
            end ;;
          story <- write (RepoUpdatePartial storyID)
                     (fun st => Story_UpdatePartial r st storyID updatedStory) ;;
          storyUpdateCoverImage story coverImageData ;;;
          ret story
      end
  end.

Definition StoryUpdate (input : StoryUpdateInput)
    (translator : changesetTranslator) : M (option Story) :=
  (* Start the transaction and save the story *)
  story <- withTxn (storyUpdate input translator) ;;
  emit (PostHook (ID story)) ;;;
  getStory (ID story).

(** The loop of [StoriesUpdate]; [inputMaps[i]] is the translator of the
    i-th input. *)
Fixpoint storiesUpdateLoop
    (input : list (StoryUpdateInput * changesetTranslator))
    (acc : list Story) : M (list Story) :=
  match input with
  | [] => ret acc
  | (story, translator) :: rest =>
      thisStory <- storyUpdate story translator ;;
      storiesUpdateLoop rest (acc ++ [thisStory])
  end.

(** The post-hook loop of [StoriesUpdate], outside of the transaction. *)
Fixpoint storiesRefetchLoop (stories : list Story)
    (newRet : list (option Story)) : M (list (option Story)) :=
  match stories with
  | [] => ret newRet
  | story :: rest =>
      emit (PostHook (ID story)) ;;;
      story <- getStory (ID story) ;;
      storiesRefetchLoop rest (newRet ++ [story])
  end.

Definition StoriesUpdate
    (input : list (StoryUpdateInput * changesetTranslator))
    : M (list (option Story)) :=
  (* Start the transaction and save the stories *)
  stories <- withTxn (storiesUpdateLoop input []) ;;
  storiesRefetchLoop stories [].

Definition StoryDestroy (input : StoryDestroyInput) : M bool :=
  match strconv.Atoi (sd_ID input) with
  | None => fail (Wrap "converting id" (strconv.AtoiError (sd_ID input)))
  | Some storyID =>
      let deleteGenerated := IsTrue (sd_DeleteGenerated input) in
      let deleteFile := IsTrue (sd_DeleteFile input) in
      fun st =>
        match
          withTxn
            (s <- read (fun st => Story_Find r st storyID) ;;
             match s with
             | None => fail (notFound "story" storyID)
             | Some s =>
                 (* kill any running encoders *)
                 emit (KillRunningStreams (ID s)) ;;;
                 write (ServiceDestroy (ID s))
                   (fun st =>
                      storyService_Destroy r st s deleteGenerated deleteFile) ;;;
                 ret s
             end) st
        with
        | (Err err, st1, tr) => (Err err, st1, tr ++ [FileDeleterRollback])
        | (Ok s, st1, tr) =>
            (* perform the post-commit actions *)
            (Ok true, st1, tr ++ [FileDeleterCommit; PostHook (ID s)])
        end
  end.

(** The loop of [StoriesDestroy] inside its transaction. *)
Fixpoint storiesDestroyLoop (storyIDs : list Z)
    (deleteGenerated deleteFile : bool) (stories : list Story)
    : M (list Story) :=
  match storyIDs with
  | [] => ret stories
  | id :: rest =>
      story <- read (fun st => Story_Find r st id) ;;
      match story with
      | None => fail (notFound "story" id)
      | Some story =>
          let stories := stories ++ [story] in
          (* kill any running encoders *)
          emit (KillRunningStreams (ID story)) ;;;
          write (ServiceDestroy (ID story))
            (fun st =>
               storyService_Destroy r st story deleteGenerated deleteFile) ;;;
          storiesDestroyLoop rest deleteGenerated deleteFile stories
      end
  end.

Definition StoriesDestroy (input : StoriesDestroyInput) : M bool :=
  match StringSliceToIntSlice (ssd_Ids input) with
  | Err err => fail (Wrap "converting ids" err)
  | Ok storyIDs =>
      let deleteGenerated := IsTrue (ssd_DeleteGenerated input) in
      let deleteFile := IsTrue (ssd_DeleteFile input) in
      fun st =>
        match
          withTxn (storiesDestroyLoop storyIDs deleteGenerated deleteFile [])
            st
        with
        | (Err err, st1, tr) => (Err err, st1, tr ++ [FileDeleterRollback])
        | (Ok stories, st1, tr) =>
            (Ok true, st1,
             tr ++ [FileDeleterCommit]
                ++ map (fun story => PostHook (ID story)) stories)
        end
  end.

(** The call of [storyService.Merge]: the call itself, then the events
    the service returned. *)
Definition serviceMerge (srcIDs : list Z) (destID : Z)
    (options : MergeOptions) : M unit :=
  fun st =>
    match storyService_Merge r st srcIDs destID options with
    | (res, st1, tr) => (res, st1, ServiceMerge srcIDs destID :: tr)
    end.

Definition StoryMerge (input : StoryMergeInput)
    (translator : changesetTranslator) : M Story :=
  match StringSliceToIntSlice (mi_Source input) with
  | Err err => fail (Wrap "converting source ids" err)
  | Ok srcIDs =>
  match strconv.Atoi (mi_Destination input) with
  | None =>
      fail (Wrap "converting destination id"
              (strconv.AtoiError (mi_Destination input)))
  | Some destID =>
      prepared <-
        match mi_Values input with
        | Some inputValues =>
            values <- lift (storyPartialFromInput inputValues translator) ;;
            match in_CoverImage inputValues with
            | Some image =>
                match ProcessImageInput r image with
                | Err err => fail (Wrap "processing cover image" err)
                | Ok data => ret (values, data)
                end
            | None => ret (values, "")
            end
        | None => ret (NewStoryPartial, "")
        end ;;
      let '(values, coverImageData) := prepared in
      withTxn
        (serviceMerge srcIDs destID
           {| mo_StoryPartial := values;
              IncludePlayHistory := IsTrue (mi_PlayHistory input);
              IncludeOHistory := IsTrue (mi_OHistory input) |} ;;;
         found <- read (fun st => Story_Find r st destID) ;;
         match found with
         | None => fail (notFound "story" destID)
         | Some found =>
             storyUpdateCoverImage found coverImageData ;;;
             ret found
         end)
  end end.

End Mutations.

Arguments Story_Find {Store} r st id : rename.
Arguments Story_LoadFiles {Store} r st s : rename.
Arguments Story_UpdatePartial {Store} r st id partial : rename.
Arguments Story_UpdateCover {Store} r st id data : rename.
Arguments storyService_Destroy {Store} r st s deleteGenerated deleteFile : rename.
Arguments storyService_Merge {Store} r st srcIDs destID options : rename.
Arguments ProcessImageInput {Store} r image : rename.
Arguments getStory {Store} r id.
Arguments storyUpdateCoverImage {Store} r s coverImageData.
Arguments storyUpdate {Store} r input translator.
Arguments StoryUpdate {Store} r input translator.
Arguments storiesUpdateLoop {Store} r input acc.
Arguments storiesRefetchLoop {Store} r stories newRet.
Arguments StoriesUpdate {Store} r input.
Arguments StoryDestroy {Store} r input.
Arguments storiesDestroyLoop {Store} r storyIDs deleteGenerated deleteFile stories.
Arguments StoriesDestroy {Store} r input.
Arguments serviceMerge {Store} r srcIDs destID options.
Arguments StoryMerge {Store} r input translator.
Arguments ret {Store A} a.
Arguments fail {Store A} e.
Arguments bind {Store A B} m k.
Arguments emit {Store} ev.
Arguments read {Store A} f.
Arguments write {Store A} ev f.
Arguments lift {Store A} res.
Arguments withTxn {Store A} fn.

(** ** In-memory collaborators

    Small stand-ins for the database, the file system and the manager,
    used to run the handlers and the resolvers on concrete requests. *)
Module InMemory.

Definition file_mp4 : VideoFile :=
  {| vf_ID := 10; vf_Path := "/media/a.mp4"; vf_Format := "mp4" |}.

Definition file_mkv : VideoFile :=
  {| vf_ID := 11; vf_Path := "/media/a.mkv"; vf_Format := "matroska" |}.

Definition story1 : Story :=
  {| ID := 1; Title := "first"; Path := "/media/a.mp4";
     Checksum := "c1"; OSHash := "o1";
     PrimaryFileID := Some 10; Files_Primary := Some file_mp4 |}.

Definition story_mkv : Story :=
  {| ID := 2; Title := "second"; Path := "/media/a.mkv";
     Checksum := "c2"; OSHash := "o2";
     PrimaryFileID := Some 11; Files_Primary := Some file_mkv |}.

Definition story_nofile : Story :=
  {| ID := 3; Title := "third"; Path := "";
     Checksum := ""; OSHash := "";
     PrimaryFileID := None; Files_Primary := None |}.

Definition marker1 : StoryMarker :=
  {| sm_ID := 7; sm_Title := "Intro"; sm_Seconds := 12.5%float;
     sm_PrimaryTagID := 100; sm_StoryID := 1 |}.

Definition marker2 : StoryMarker :=
  {| sm_ID := 8; sm_Title := ""; sm_Seconds := 60%float;
     sm_PrimaryTagID := 100; sm_StoryID := 1 |}.

Definition tag_a : Tag := {| tag_ID := 100; tag_Name := "alpha" |}.
Definition tag_b : Tag := {| tag_ID := 101; tag_Name := "beta" |}.
Definition tag_c : Tag := {| tag_ID := 102; tag_Name := "gamma" |}.

Definition caption_en : VideoCaption :=
  {| LanguageCode := "en"; Filename := "a.en.srt"; CaptionType := "srt" |}.

Definition caption_de : VideoCaption :=
  {| LanguageCode := "de"; Filename := "a.de.vtt"; CaptionType := "vtt" |}.

Definition stories : list Story := [story1; story_mkv; story_nofile].

Definition rs : storyRoutes :=
  {| storyFinder_Find := fun id =>
       List.find (fun s => ID s =? id) stories;
     LoadPrimaryFile := fun s => Ok s;
     captionFinder_GetCaptions := fun fileID =>
       if fileID =? 10 then Ok [caption_de; caption_en] else Ok [];
     storyMarkerFinder_Find := fun id =>
       Ok (List.find (fun m => sm_ID m =? id) [marker1; marker2]);
     storyMarkerFinder_FindByStoryID := fun storyID =>
       if storyID =? 1 then Ok [marker1; marker2] else Ok [];
     tagFinder_Find := fun id =>
       Ok (List.find (fun t => tag_ID t =? id) [tag_a; tag_b; tag_c]);
     tagFinder_FindByStoryMarkerID := fun markerID =>
       if markerID =? 8 then Ok [tag_b; tag_c] else Ok [] |}.

(** A [ParseFloat] that knows integer literals only. *)
Definition parseIntegerFloat (s : string)
    : float64 * option strconv.NumError :=
  match strconv.Atoi s with
  | None => (0%float, Some strconv.ErrSyntax)
  | Some n =>
      let f := PrimFloat.of_uint63 (Uint63.of_Z (Z.abs n)) in
      (if n <? 0 then PrimFloat.opp f else f, None)
  end.

(** Seconds only, enough to tell cues apart. *)
Definition vttTime (seconds : float64) : string :=
  strconv.Itoa (int_of_float64 seconds) +:+ "s".

(** The manager, with live transcoding on or off and [disk] the paths
    that exist. *)
Definition env (streamManager : option StreamManagerT)
    (disk : list string) : Env :=
  {| StreamManager := streamManager;
     GetVideoFileContainer := fun f => (vf_Format f, None);
     Matroska := "matroska";
     GetHash := fun s => OSHash s;
     Story_GetVideoPreviewPath := fun h => "/gen/" +:+ h +:+ ".mp4";
     Story_GetWebpPreviewPath := fun h => "/gen/" +:+ h +:+ ".webp";
     Story_GetSpriteVttFilePath := fun h => "/gen/" +:+ h +:+ "_thumbs.vtt";
     Story_GetSpriteImageFilePath := fun h => "/gen/" +:+ h +:+ "_sprite.jpg";
     Story_GetInteractiveHeatmapPath := fun h => "/gen/" +:+ h +:+ ".png";
     StoryMarkers_GetVideoPreviewPath := fun h sec =>
       "/gen/markers/" +:+ h +:+ "/" +:+ strconv.Itoa sec +:+ ".mp4";
     StoryMarkers_GetWebpPreviewPath := fun h sec =>
       "/gen/markers/" +:+ h +:+ "/" +:+ strconv.Itoa sec +:+ ".webp";
     StoryMarkers_GetScreenshotPath := fun h sec =>
       "/gen/markers/" +:+ h +:+ "/" +:+ strconv.Itoa sec +:+ ".jpg";
     GetFunscriptPath := fun p => p +:+ ".funscript";
     ConvertFunscriptToCSV := fun p => Ok "";
     FileExists := fun p => existsb (String.eqb p) disk;
     PendingGenerateResource := "PNG-pending";
     GetVTTTime := vttTime;
     caption_Path := fun c storyPath => storyPath +:+ "." +:+ Filename c;
     Subtitles := string;
     ReadSubs := fun p => Ok p;
     WriteToWebVTT := fun sub => Ok ("WEBVTT" +:+ LF +:+ LF +:+ sub);
     ParseFloat := parseIntegerFloat |}.

(** Another file of the first story, not its primary one. *)
Definition file_alt : VideoFile :=
  {| vf_ID := 12; vf_Path := "/media/a-alt.mp4"; vf_Format := "mp4" |}.

(** The database: every story with its files. *)
Definition store : gmap Z (Story * list VideoFile) :=
  list_to_map
    [(1, (story1, [file_mp4; file_alt]));
     (2, (story_mkv, [file_mkv]));
     (3, (story_nofile, []))].

Definition applyPartial (p : StoryPartial) (files : list VideoFile)
    (s : Story) : Story :=
  {| ID := ID s;
     Title := if Set_ (sp_Title p) then Value (sp_Title p) else Title s;
     Path := Path s; Checksum := Checksum s; OSHash := OSHash s;
     PrimaryFileID :=
       match sp_PrimaryFileID p with
       | Some fileID => Some fileID
       | None => PrimaryFileID s
       end;
     Files_Primary :=
       match sp_PrimaryFileID p with
       | Some fileID => List.find (fun f => vf_ID f =? fileID) files
       | None => Files_Primary s
       end |}.

Definition resolver : Resolver (gmap Z (Story * list VideoFile)) :=
  {| Story_Find := fun st id => Ok (fst <$> st !! id);
     Story_LoadFiles := fun st s => Ok (default [] (snd <$> st !! ID s));
     Story_UpdatePartial := fun st id p =>
       match st !! id with
       | None => (Err (Failure "sql: no rows in result set"), st)
       | Some (s, files) =>
           (Ok (applyPartial p files s),
            <[id := (applyPartial p files s, files)]> st)
       end;
     Story_UpdateCover := fun st id data => (Ok tt, st);
     storyService_Destroy := fun st s deleteGenerated deleteFile =>
       (Ok tt, delete (ID s) st);
     storyService_Merge := fun st srcIDs destID options =>
       (Ok tt, foldr delete st srcIDs, []);
     ProcessImageInput := fun image => Ok image |}.

Definition some {A : Type} (zero : A) (v : option A) : Optional A :=
  match v with
  | Some x => {| Value := x; Null := false; Set_ := true |}
  | None => unset zero
  end.

Definition translator : changesetTranslator :=
  {| optionalString := fun v field => some "" v;
     optionalInt := fun v field => some 0 v;
     optionalFloat64 := fun v field => some 0%float v;
     optionalBool := fun v field => some false v;
     updateStashIDs := fun v field => None;
     optionalDate := fun v field => Ok (some "" v);
     optionalIntFromString := fun v field =>
       match v with
       | None => Ok (unset 0)
       | Some text =>
           match strconv.Atoi text with
           | Some n => Ok (some 0 (Some n))
           | None => Err (strconv.AtoiError text)
           end
       end;
     optionalURLs := fun urls url => None;
     fileIDPtrFromString := fun v =>
       match v with
       | None => Ok None
       | Some text =>
           if String.eqb text "" then Ok None
           else match strconv.Atoi text with
                | Some n => Ok (Some n)
                | None => Err (strconv.AtoiError text)
                end
       end;
     updateIds := fun ids field => Ok None;
     updateMovieIDs := fun ids field => Ok None |}.

(** An update of story [id] that sets the primary file and nothing
    else. *)
Definition setPrimaryFile (id primaryFileID : string) : StoryUpdateInput :=
  {| in_ID := id; in_Title := None; in_Code := None; in_Details := None;
     in_Director := None; in_Rating100 := None; in_PlayDuration := None;
     in_Organized := None; in_StashIds := []; in_Date := None;
     in_StudioID := None; in_Urls := []; in_URL := None;
     in_PrimaryFileID := Some primaryFileID;
     in_PerformerIds := []; in_TagIds := []; in_GalleryIds := [];
     in_Movies := []; in_CoverImage := None |}.

Definition request (params : list (string * string))
    (form : list (string * list string)) : Request :=
  {| URLParams := list_to_map params; Form := list_to_map form |}.

End InMemory.

(** ** Vocabulary of the properties *)

(** A decimal integer, as written: an optional sign and then one or more
    decimal digits, nothing else. *)
Definition all_digits (s : string) : bool :=
  forallb strconv.is_digit (list_ascii_of_string s).

Definition decimal_integer (s : string) : bool :=
  match s with
  | EmptyString => false
  | String c rest =>
      if Ascii.eqb c "-"%char || Ascii.eqb c "+"%char
      then negb (String.eqb rest "") && all_digits rest
      else all_digits s
  end.

(** The 503 answer of a handler that found live transcoding disabled. *)
Definition serviceUnavailable : list effect :=
  http.Error "Live transcoding disabled" http.StatusServiceUnavailable.

(** The 400 answer of the MKV route. *)
Definition notAnMkvFile : list effect :=
  [WriteHeader http.StatusBadRequest; Write "not an mkv file"].

(** No effect of the response is a call on the stream manager. *)
Definition no_stream_manager_call (es : list effect) : Prop :=
  Forall (fun e => is_stream_manager_call e = false) es.

(** A caption is the one asked for. *)
Definition caption_matches (lang type : string) (c : VideoCaption) : Prop :=
  lang = LanguageCode c /\ type = CaptionType c.

(** One cue of a WebVTT file and the lines it is written as. *)
Record cue : Type := {
  cue_number : Z;
  cue_start : string;
  cue_end : string;
  cue_text : string
}.

Definition cue_lines (c : cue) : list string :=
  [strconv.Itoa (cue_number c);
   cue_start c +:+ " --> " +:+ cue_end c;
   cue_text c;
   ""].

(** A WebVTT file: the line WEBVTT, an empty line, then the cues. *)
Definition webvtt (cues : list cue) : string :=
  strings.Join ("WEBVTT" :: "" :: concat (map cue_lines cues)) LF.

(** The text of the cue of a marker, as the chapter file is described:
    the title when there is one, otherwise the name of the primary tag
    followed by the names of the other tags, joined with a comma and a
    space. *)
Definition chapter_text (rs : storyRoutes) (marker : StoryMarker)
    (text : string) : Prop :=
  (sm_Title marker <> "" /\ text = sm_Title marker) \/
  (sm_Title marker = "" /\
   exists primaryTag tags,
     tagFinder_Find rs (sm_PrimaryTagID marker) = Ok (Some primaryTag) /\
     tagFinder_FindByStoryMarkerID rs (sm_ID marker) = Ok tags /\
     text = strings.Join (tag_Name primaryTag :: map tag_Name tags) ", ").

(** What Go documents for [strconv.ParseFloat] on text that is not a
    number: the empty string is a syntax error, and with a syntax error
    the value returned is 0. *)
Definition ParseFloat_syntax_contract (env : Env) : Prop :=
  snd (ParseFloat env "") = Some strconv.ErrSyntax /\
  forall s, snd (ParseFloat env s) = Some strconv.ErrSyntax ->
            fst (ParseFloat env s) = 0%float.

(** What Go documents for [strconv.ParseFloat] on text that is a number
    but too large for a [float64]: with a range error the value returned
    is +Inf or -Inf. *)
Definition ParseFloat_range_contract (env : Env) : Prop :=
  forall s, snd (ParseFloat env s) = Some strconv.ErrRange ->
            fst (ParseFloat env s) = PrimFloat.infinity \/
            fst (ParseFloat env s) = PrimFloat.neg_infinity.

(** The single call [streamTranscode] makes when it serves. *)
Definition servesTranscode (streamType : StreamFormat) (f : VideoFile)
    (resolution : string) (startTime : float64) : list effect :=
  [ServeTranscode {| to_StreamType := streamType; to_VideoFile := f;
                     to_Resolution := resolution;
                     to_StartTime := startTime |}].

(** The cues of the markers, numbered from [first], each with the text
    given for it. *)
Fixpoint chapter_cues (env : Env) (first : Z) (markers : list StoryMarker)
    (texts : list string) : list cue :=
  match markers, texts with
  | marker :: markers, text :: texts =>
      {| cue_number := first;
         cue_start := GetVTTTime env (sm_Seconds marker);
         cue_end := GetVTTTime env (sm_Seconds marker);
         cue_text := text |} :: chapter_cues env (first + 1) markers texts
  | _, _ => []
  end.

(** The same manager over another file system. *)
Definition with_FileExists (fileExists : string -> bool) (env : Env) : Env :=
  {| StreamManager := StreamManager env;
     GetVideoFileContainer := GetVideoFileContainer env;
     Matroska := Matroska env;
     GetHash := GetHash env;
     Story_GetVideoPreviewPath := Story_GetVideoPreviewPath env;
     Story_GetWebpPreviewPath := Story_GetWebpPreviewPath env;
     Story_GetSpriteVttFilePath := Story_GetSpriteVttFilePath env;
     Story_GetSpriteImageFilePath := Story_GetSpriteImageFilePath env;
     Story_GetInteractiveHeatmapPath := Story_GetInteractiveHeatmapPath env;
     StoryMarkers_GetVideoPreviewPath := StoryMarkers_GetVideoPreviewPath env;
     StoryMarkers_GetWebpPreviewPath := StoryMarkers_GetWebpPreviewPath env;
     StoryMarkers_GetScreenshotPath := StoryMarkers_GetScreenshotPath env;
     GetFunscriptPath := GetFunscriptPath env;
     ConvertFunscriptToCSV := ConvertFunscriptToCSV env;
     FileExists := fileExists;
     PendingGenerateResource := PendingGenerateResource env;
     GetVTTTime := GetVTTTime env;
     caption_Path := caption_Path env;
     Subtitles := Subtitles env;
     ReadSubs := ReadSubs env;
     WriteToWebVTT := WriteToWebVTT env;
     ParseFloat := ParseFloat env |}.

(** The hash the sprite handlers name the artifact by. *)
Definition spriteHash (env : Env) (story : option Story) (r : Request)
    : string :=
  match story with
  | Some story => GetHash env story
  | None => URLParam r "storyHash"
  end.

(** The answer of a caption request that found its caption. *)
Definition servesVtt (vtt : string) : list effect :=
  [SetHeader "Content-Type" "text/vtt"; ServeStaticContent vtt].

(** The events of a resolver step from a given store. *)
Definition trace_of {Store A : Type} (m : M Store A) (st : Store)
    : list event :=
  snd (m st).

(** Every event the step can cause satisfies [Q]. *)
Definition traces_in {Store A : Type} (Q : event -> Prop) (m : M Store A)
    : Prop :=
  forall st, Forall Q (trace_of m st).

(** The event is no kill of running streams. *)
Definition not_kill (e : event) : Prop := is_kill e = false.

(** The event is no kill, or it is one of the events that the merge of
    the story service returned. *)
Definition kill_only_from_merge {Store : Type} (r : Resolver Store)
    (e : event) : Prop :=
  is_kill e = true ->
  exists st srcIDs destID options,
    In e (snd (storyService_Merge r st srcIDs destID options)).

(** The trace of a destroy loop: for each story in turn, the kill and
    then the call of the destroy service. *)
Definition kill_then_destroy (ids : list Z) : list event :=
  flat_map (fun id => [KillRunningStreams id; ServiceDestroy id]) ids.

(** A trace that is the kill and destroy pairs of some stories, followed
    by events that neither kill streams nor write. *)
Definition destroy_shaped (tr : list event) : Prop :=
  exists done tail,
    tr = kill_then_destroy done ++ tail /\
    Forall (fun e => is_kill e = false /\ is_write e = false) tail.

(** [a] occurs in the trace and [b] occurs later. *)
Definition precedes (a b : event) (tr : list event) : Prop :=
  exists l1 l2 l3, tr = l1 ++ a :: l2 ++ b :: l3.

(** Every call of the destroy service comes after a kill of the running
    streams of the same story. *)
Definition destroy_after_kill (tr : list event) : Prop :=
  forall l1 l2 id,
    tr = l1 ++ ServiceDestroy id :: l2 -> In (KillRunningStreams id) l1.

(** ** The story queries of [queryResolver] *)

(** [models.FindFilterType]: the text query and the paging and sorting
    that go with it. *)
Record FindFilterType : Type := {
  ff_Q : option string;
  ff_Page : option Z;
  ff_PerPage : option Z;
  ff_Sort : option string
}.

Inductive CriterionModifier : Type :=
| CriterionModifierEquals
| CriterionModifierMatchesRegex.

Record StringCriterionInput : Type := {
  sc_Modifier : CriterionModifier;
  sc_Value : string
}.

(** [models.StoryFilterType]; of its criteria the queries here set only
    the path. *)
Record StoryFilterType : Type := {
  sf_Path : option StringCriterionInput
}.

Record StoryQueryOptions : Type := {
  qo_FindFilter : option FindFilterType;
  qo_Count : bool;
  qo_StoryFilter : option StoryFilterType;
  qo_TotalDuration : bool;
  qo_TotalSize : bool
}.

(** The numbers of [models.StoryQueryResult]. *)
Record StoryQueryResult : Type := {
  qr_Count : Z;
  qr_TotalDuration : float64;
  qr_TotalSize : float64
}.

Record FindStoriesResultType : Type := {
  fs_Count : Z;
  fs_Stories : list Story;
  fs_Duration : float64;
  fs_Filesize : float64
}.

Record StoryHashInput : Type := {
  hi_Checksum : option string;
  hi_Oshash : option string
}.

(** What the queries read: the story repository, each call with the
    outcome of its read, the loaders of the primary file, and the two
    numbers of a video file that the totals add up. *)
Record queryResolver : Type := {
  q_Find : Z -> result (option Story);
  q_FindByChecksum : string -> result (list Story);
  q_FindByOSHash : string -> result (list Story);
  q_FindMany : list Z -> result (list Story);
  q_All : result (list Story);
  q_FindDuplicates : Z -> float64 -> result (list (list Story));
  (** [repository.Story.Query] and [result.Resolve] *)
  q_Query : StoryQueryOptions -> result StoryQueryResult;
  q_Resolve : StoryQueryResult -> result (list Story);
  (** [s.LoadPrimaryFile(ctx, repository.File)] *)
  q_LoadPrimaryFile : Story -> result Story;
  (** [f.Duration] and [float64(f.Size)] of a video file *)
  vf_Duration : VideoFile -> float64;
  vf_SizeFloat : VideoFile -> float64;
  (** [sliceutil.Contains] *)
  Contains : list string -> string -> bool
}.

Section Queries.

Variable q : queryResolver.

(** [stories[0]] where [len(stories) > 0], else the nil story. *)
Definition firstStory (stories : list Story) : option Story :=
  match stories with
  | story :: _ => Some story
  | [] => None
  end.

Definition FindStory (id checksum : option string) : result (option Story) :=
  match id with
  | Some id =>
      match strconv.Atoi id with
      | None => Err (strconv.AtoiError id)
      | Some idInt => q_Find q idInt
      end
  | None =>
      match checksum with
      | Some checksum =>
          match q_FindByChecksum q checksum with
          | Err err => Err err
          | Ok stories => Ok (firstStory stories)
          end
      | None => Ok None
      end
  end.

Definition FindStoryByHash (input : StoryHashInput) : result (option Story) :=
  let byChecksum :=
    match hi_Checksum input with
    | Some checksum =>
        match q_FindByChecksum q checksum with
        | Err err => Err err
        | Ok stories => Ok (firstStory stories)
        end
    | None => Ok None
    end in
  match byChecksum with
  | Err err => Err err
  | Ok (Some story) => Ok (Some story)
  | Ok None =>
      match hi_Oshash input with
      | Some oshash =>
          match q_FindByOSHash q oshash with
          | Err err => Err err
          | Ok stories => Ok (firstStory stories)
          end
      | None => Ok None
      end
  end.

(** The loop of [FindStories] over the stories found by id: the primary
    file of each is loaded, the first failure ends the query, and the
    stories that have a primary file add its duration and size to the
    totals. *)
Fixpoint totalsLoop (stories loaded : list Story)
    (totalDuration totalSize : float64)
    : result (list Story * float64 * float64) :=
  match stories with
  | [] => Ok (loaded, totalDuration, totalSize)
  | s :: rest =>
      match q_LoadPrimaryFile q s with
      | Err err => Err err
      | Ok s =>
          match Files_Primary s with
          | None => totalsLoop rest (loaded ++ [s]) totalDuration totalSize
          | Some f =>
              totalsLoop rest (loaded ++ [s])
                (totalDuration + vf_Duration q f)%float
                (totalSize + vf_SizeFloat q f)%float
          end
      end
  end.

(** [fields] is [graphql.CollectAllFields(ctx)]. *)
Definition FindStories (storyFilter : option StoryFilterType)
    (storyIDs : list Z) (ids : list string) (filter : option FindFilterType)
    (fields : list string) : result FindStoriesResultType :=
  match
    (if (0 <? length ids)%nat then StringSliceToIntSlice ids else Ok storyIDs)
  with
  | Err err => Err err
  | Ok storyIDs =>
      if (0 <? length storyIDs)%nat then
        match q_FindMany q storyIDs with
        | Err err => Err err
        | Ok stories =>
            match totalsLoop stories [] 0%float 0%float with
            | Err err => Err err
            | Ok (loaded, totalDuration, totalSize) =>
                Ok {| fs_Count := Z.of_nat (length stories);
                      fs_Stories := loaded;
                      fs_Duration := totalDuration;
                      fs_Filesize := totalSize |}
            end
        end
      else
        match
          q_Query q
            {| qo_FindFilter := filter;
               qo_Count := Contains q fields "count";
               qo_StoryFilter := storyFilter;
               qo_TotalDuration := Contains q fields "duration";
               qo_TotalSize := Contains q fields "filesize" |}
        with
        | Err err => Err err
        | Ok result =>
            match q_Resolve q result with
            | Err err => Err err
            | Ok stories =>
                Ok {| fs_Count := qr_Count result;
                      fs_Stories := stories;
                      fs_Duration := qr_TotalDuration result;
                      fs_Filesize := qr_TotalSize result |}
            end
        end
  end.

(** The options [FindStoriesByPathRegex] queries with: the text query of
    the filter becomes a path criterion, and a copy of the filter without
    its text query is passed on. *)
Definition pathRegexOptions (filter : option FindFilterType)
    (fields : list string) : StoryQueryOptions :=
  let storyFilter :=
    match filter with
    | Some {| ff_Q := Some text |} =>
        {| sf_Path :=
             Some {| sc_Modifier := CriterionModifierMatchesRegex;
                     sc_Value := "(?i)" +:+ text |} |}
    | _ => {| sf_Path := None |}
    end in
  let queryFilter :=
    match filter with
    | Some f =>
        Some {| ff_Q := None; ff_Page := ff_Page f;
                ff_PerPage := ff_PerPage f; ff_Sort := ff_Sort f |}
    | None => None
    end in
  {| qo_FindFilter := queryFilter;
     qo_Count := Contains q fields "count";
     qo_StoryFilter := Some storyFilter;
     qo_TotalDuration := Contains q fields "duration";
     qo_TotalSize := Contains q fields "filesize" |}.

Definition FindStoriesByPathRegex (filter : option FindFilterType)
    (fields : list string) : result FindStoriesResultType :=
  match q_Query q (pathRegexOptions filter fields) with
  | Err err => Err err
  | Ok result =>
      match q_Resolve q result with
      | Err err => Err err
      | Ok stories =>
          Ok {| fs_Count := qr_Count result;
                fs_Stories := stories;
                fs_Duration := qr_TotalDuration result;
                fs_Filesize := qr_TotalSize result |}
      end
  end.

Definition FindDuplicateStories (distance : option Z)
    (durationDiff : option float64) : result (list (list Story)) :=
  let dist := default 0 distance in
  let durDiff := default (-1)%float durationDiff in
  q_FindDuplicates q dist durDiff.

Definition AllStories : result (list Story) := q_All q.

End Queries.

(** ** The bulk update of stories *)

Record BulkStoryUpdateInput : Type := {
  bi_Ids : list string;
  bi_Title : option string;
  bi_Code : option string;
  bi_Details : option string;
  bi_Director : option string;
  bi_Rating100 : option Z;
  bi_Organized : option bool;
  bi_Date : option string;
  bi_StudioID : option string;
  bi_Urls : list string;
  bi_URL : option string;
  bi_PerformerIds : list string;
  bi_TagIds : list string;
  bi_GalleryIds : list string;
  bi_MovieIds : list string
}.

(** The bulk methods of [changesetTranslator]. *)
Record bulkTranslator : Type := {
  optionalURLsBulk : list string -> option string -> option UpdateStrings;
  updateIdsBulk : list string -> string -> result (option UpdateIDs);
  updateMovieIDsBulk : list string -> string -> result (option UpdateIDs)
}.

(** The partial that [BulkStoryUpdate] builds before its transaction. *)
Definition bulkStoryPartial (input : BulkStoryUpdateInput)
    (translator : changesetTranslator) (bulk : bulkTranslator)
    : result StoryPartial :=
  let title := optionalString translator (bi_Title input) "title" in
  let code := optionalString translator (bi_Code input) "code" in
  let details := optionalString translator (bi_Details input) "details" in
  let director := optionalString translator (bi_Director input) "director" in
  let rating := optionalInt translator (bi_Rating100 input) "rating100" in
  let organized := optionalBool translator (bi_Organized input) "organized" in
  match optionalDate translator (bi_Date input) "date" with
  | Err err => Err (Wrap "converting date" err)
  | Ok date =>
  match optionalIntFromString translator (bi_StudioID input) "studio_id" with
  | Err err => Err (Wrap "converting studio id" err)
  | Ok studioID =>
  let urls := optionalURLsBulk bulk (bi_Urls input) (bi_URL input) in
  match updateIdsBulk bulk (bi_PerformerIds input) "performer_ids" with
  | Err err => Err (Wrap "converting performer ids" err)
  | Ok performerIDs =>
  match updateIdsBulk bulk (bi_TagIds input) "tag_ids" with
  | Err err => Err (Wrap "converting tag ids" err)
  | Ok tagIDs =>
  match updateIdsBulk bulk (bi_GalleryIds input) "gallery_ids" with
  | Err err => Err (Wrap "converting gallery ids" err)
  | Ok galleryIDs =>
  match updateMovieIDsBulk bulk (bi_MovieIds input) "movie_ids" with
  | Err err => Err (Wrap "converting movie ids" err)
  | Ok movieIDs =>
      Ok {| sp_Title := title; sp_Code := code; sp_Details := details;
            sp_Director := director; sp_Rating := rating;
            sp_PlayDuration := sp_PlayDuration NewStoryPartial;
            sp_Organized := organized;
            sp_StashIDs := sp_StashIDs NewStoryPartial; sp_Date := date;
            sp_StudioID := studioID; sp_URLs := urls;
            sp_PrimaryFileID := sp_PrimaryFileID NewStoryPartial;
            sp_PerformerIDs := performerIDs; sp_TagIDs := tagIDs;
            sp_GalleryIDs := galleryIDs; sp_MovieIDs := movieIDs |}
  end end end end end end.

Section BulkUpdate.

Context {Store : Type}.
Variable r : Resolver Store.

(** The loop of [BulkStoryUpdate] inside its transaction: the same
    partial for every id, the first failure returned. *)
Fixpoint bulkUpdateLoop (storyIDs : list Z) (updatedStory : StoryPartial)
    (acc : list Story) : M Store (list Story) :=
  match storyIDs with
  | [] => ret acc
  | storyID :: rest =>
      bind
        (write (RepoUpdatePartial storyID)
           (fun st => Story_UpdatePartial r st storyID updatedStory))
        (fun story => bulkUpdateLoop rest updatedStory (acc ++ [story]))
  end.

Definition BulkStoryUpdate (input : BulkStoryUpdateInput)
    (translator : changesetTranslator) (bulk : bulkTranslator)
    : M Store (list (option Story)) :=
  match StringSliceToIntSlice (bi_Ids input) with
  | Err err => fail (Wrap "converting ids" err)
  | Ok storyIDs =>
      match bulkStoryPartial input translator bulk with
      | Err err => fail err
      | Ok updatedStory =>
          (* Start the transaction and save the stories *)
          bind (withTxn (bulkUpdateLoop storyIDs updatedStory []))
            (fun stories =>
               (* execute post hooks outside of txn *)
               storiesRefetchLoop r stories [])
      end
  end.

End BulkUpdate.

(** ** The marker mutations of [mutationResolver] *)

Record StoryMarkerPartial : Type := {
  mp_Title : Optional string;
  mp_Seconds : Optional float64;
  mp_StoryID : Optional Z;
  mp_PrimaryTagID : Optional Z
}.

Record StoryMarkerCreateInput : Type := {
  mc_Title : string;
  mc_Seconds : float64;
  mc_StoryID : string;
  mc_PrimaryTagID : string;
  mc_TagIds : list string
}.

Record StoryMarkerUpdateInput : Type := {
  mu_ID : string;
  mu_Title : option string;
  mu_Seconds : option float64;
  mu_StoryID : option string;
  mu_PrimaryTagID : option string;
  (** nil when the input carries no tag ids *)
  mu_TagIds : option (list string)
}.

(** What a marker mutation does outside the store, and where its
    transaction ends. *)
Inductive marker_event : Type :=
| MarkerCreate (storyID : Z)
| MarkerUpdatePartial (markerID : Z)
| MarkerUpdateTags (markerID : Z) (tagIDs : list Z)
| MarkMarkerFiles (storyID : Z) (seconds : Z)   (* fileDeleter.MarkMarkerFiles *)
| DestroyMarker (markerID : Z)                  (* story.DestroyMarker *)
| MarkerTxnCommit
| MarkerTxnRollback
| MarkerDeleterCommit
| MarkerDeleterRollback
| MarkerPostHook (markerID : Z).

Section MarkerMutations.

Variable Store : Type.

(** The marker repository, the story repository, the file deleter and
    [sliceutil.Exclude] behind the marker mutations. *)
Record MarkerResolver : Type := {
  StoryMarker_Find : Store -> Z -> result (option StoryMarker);
  (** [qb.Create(ctx, &newMarker)]: the marker with the id it was given *)
  StoryMarker_Create : Store -> StoryMarker -> result StoryMarker * Store;
  StoryMarker_UpdatePartial :
    Store -> Z -> StoryMarkerPartial -> result StoryMarker * Store;
  StoryMarker_UpdateTags : Store -> Z -> list Z -> result unit * Store;
  mr_Story_Find : Store -> Z -> result (option Story);
  (** [fileDeleter.MarkMarkerFiles(story, seconds)] *)
  fileDeleter_MarkMarkerFiles : Story -> Z -> result unit;
  (** [story.DestroyMarker(ctx, s, marker, qb, fileDeleter)] *)
  story_DestroyMarker : Store -> Story -> StoryMarker -> result unit * Store;
  (** [sliceutil.Exclude(values, toExclude)] *)
  Exclude : list Z -> list Z -> list Z
}.

Variable r : MarkerResolver.

(** A step of a marker mutation: a result, the store it leaves and the
    events it caused. *)
Definition MM (A : Type) : Type :=
  Store -> result A * Store * list marker_event.

Definition mret {A : Type} (a : A) : MM A := fun st => (Ok a, st, []).

Definition mfail {A : Type} (e : error) : MM A := fun st => (Err e, st, []).

Definition mbind {A B : Type} (m : MM A) (k : A -> MM B) : MM B :=
  fun st =>
    match m st with
    | (Ok a, st1, tr1) =>
        match k a st1 with
        | (res, st2, tr2) => (res, st2, tr1 ++ tr2)
        end
    | (Err e, st1, tr1) => (Err e, st1, tr1)
    end.

Definition memit (ev : marker_event) : MM unit :=
  fun st => (Ok tt, st, [ev]).

Definition mread {A : Type} (f : Store -> result A) : MM A :=
  fun st => (f st, st, []).

Definition mwrite {A : Type} (ev : marker_event)
    (f : Store -> result A * Store) : MM A :=
  fun st => match f st with (res, st1) => (res, st1, [ev]) end.

(** A call that has a result and touches no store, announced by [ev]. *)
Definition mcall {A : Type} (ev : marker_event) (res : result A) : MM A :=
  fun st => (res, st, [ev]).

Notation "x <- m ;; k" := (mbind m (fun x => k))
  (at level 100, m at next level, right associativity).
Notation "m ;;; k" := (mbind m (fun _ => k))
  (at level 100, right associativity).

(** Modelled from the spec: [withTxn] for the marker mutations, as for the
    story mutations: commit when the function returns nil, rollback and
    the store restored when it returns an error. *)
Definition markerTxn {A : Type} (fn : MM A) : MM A :=
  fun st =>
    match fn st with
    | (Ok a, st1, tr) => (Ok a, st1, tr ++ [MarkerTxnCommit])
    | (Err e, _, tr) => (Err e, st, tr ++ [MarkerTxnRollback])
    end.

Definition getStoryMarker (id : Z) : MM (option StoryMarker) :=
  markerTxn (mread (fun st => StoryMarker_Find r st id)).

Definition StoryMarkerCreate (input : StoryMarkerCreateInput)
    : MM (option StoryMarker) :=
  match strconv.Atoi (mc_StoryID input) with
  | None =>
      mfail (Wrap "converting story id" (strconv.AtoiError (mc_StoryID input)))
  | Some storyID =>
  match strconv.Atoi (mc_PrimaryTagID input) with
  | None =>
      mfail (Wrap "converting primary tag id"
               (strconv.AtoiError (mc_PrimaryTagID input)))
  | Some primaryTagID =>
      (* Populate a new story marker from the input *)
      let newMarker :=
        {| sm_ID := 0; sm_Title := mc_Title input;
           sm_Seconds := mc_Seconds input;
           sm_PrimaryTagID := primaryTagID; sm_StoryID := storyID |} in
      match StringSliceToIntSlice (mc_TagIds input) with
      | Err err => mfail (Wrap "converting tag ids" err)
      | Ok tagIDs =>
          newMarker <-
            markerTxn
              (newMarker <- mwrite (MarkerCreate storyID)
                              (fun st => StoryMarker_Create r st newMarker) ;;
               (* Save the marker tags
                  If this tag is the primary tag, then let's not add it. *)
               let tagIDs := Exclude r tagIDs [sm_PrimaryTagID newMarker] in
               mwrite (MarkerUpdateTags (sm_ID newMarker) tagIDs)
                 (fun st => StoryMarker_UpdateTags r st (sm_ID newMarker) tagIDs) ;;;
               mret newMarker) ;;
          memit (MarkerPostHook (sm_ID newMarker)) ;;;
          getStoryMarker (sm_ID newMarker)
      end
  end end.

(** The transaction of [StoryMarkerUpdate]. *)
Definition storyMarkerUpdateTxn (markerID : Z)
    (updatedMarker : StoryMarkerPartial) (tagIdsIncluded : bool)
    (tagIDs : list Z) : MM unit :=
  (* check to see if timestamp was changed *)
  existingMarker <- mread (fun st => StoryMarker_Find r st markerID) ;;
  match existingMarker with
  | None => mfail (notFound "story marker" markerID)
  | Some existingMarker =>
      newMarker <- mwrite (MarkerUpdatePartial markerID)
                     (fun st => StoryMarker_UpdatePartial r st markerID
                                  updatedMarker) ;;
      existingStory <-
        mread (fun st => mr_Story_Find r st (sm_StoryID existingMarker)) ;;
      match existingStory with
      | None => mfail (notFound "story" (sm_StoryID existingMarker))
      | Some existingStory =>
          (* remove the marker preview if the story changed or if the
             timestamp was changed *)
          (if negb (sm_StoryID existingMarker =? sm_StoryID newMarker)
              || negb (PrimFloat.eqb (sm_Seconds existingMarker)
                         (sm_Seconds newMarker))
           then
             let seconds := int_of_float64 (sm_Seconds existingMarker) in
             mcall (MarkMarkerFiles (ID existingStory) seconds)
               (fileDeleter_MarkMarkerFiles r existingStory seconds)
           else mret tt) ;;;
          if tagIdsIncluded then
            (* Save the marker tags
               If this tag is the primary tag, then let's not add it. *)
            let tagIDs := Exclude r tagIDs [sm_PrimaryTagID newMarker] in
            mwrite (MarkerUpdateTags markerID tagIDs)
              (fun st => StoryMarker_UpdateTags r st markerID tagIDs)
          else mret tt
      end
  end.

(** [translator] gives the optional fields; [hasField] is
    [translator.hasField]. *)
Definition StoryMarkerUpdate (input : StoryMarkerUpdateInput)
    (translator : changesetTranslator) (hasField : string -> bool)
    : MM (option StoryMarker) :=
  match strconv.Atoi (mu_ID input) with
  | None => mfail (Wrap "converting id" (strconv.AtoiError (mu_ID input)))
  | Some markerID =>
      let title := optionalString translator (mu_Title input) "title" in
      let seconds := optionalFloat64 translator (mu_Seconds input) "seconds" in
      match optionalIntFromString translator (mu_StoryID input) "story_id" with
      | Err err => mfail (Wrap "converting story id" err)
      | Ok storyID =>
      match
        optionalIntFromString translator (mu_PrimaryTagID input)
          "primary_tag_id"
      with
      | Err err => mfail (Wrap "converting primary tag id" err)
      | Ok primaryTagID =>
          let updatedMarker :=
            {| mp_Title := title; mp_Seconds := seconds;
               mp_StoryID := storyID; mp_PrimaryTagID := primaryTagID |} in
          let tagIdsIncluded := hasField "tag_ids" in
          match
            match mu_TagIds input with
            | Some tagIds => StringSliceToIntSlice tagIds
            | None => Ok []
            end
          with
          | Err err => mfail (Wrap "converting tag ids" err)
          | Ok tagIDs =>
              fun st =>
                match
                  markerTxn
                    (storyMarkerUpdateTxn markerID updatedMarker
                       tagIdsIncluded tagIDs) st
                with
                | (Err err, st1, tr) =>
                    (Err err, st1, tr ++ [MarkerDeleterRollback])
                | (Ok _, st1, tr) =>
                    (* perform the post-commit actions *)
                    match getStoryMarker markerID st1 with
                    | (res, st2, tr2) =>
                        (res, st2,
                         tr ++ [MarkerDeleterCommit; MarkerPostHook markerID]
                            ++ tr2)
                    end
                end
          end
      end end
  end.

Definition StoryMarkerDestroy (id : string) : MM bool :=
  match strconv.Atoi id with
  | None => mfail (Wrap "converting id" (strconv.AtoiError id))
  | Some markerID =>
      fun st =>
        match
          markerTxn
            (marker <- mread (fun st => StoryMarker_Find r st markerID) ;;
             match marker with
             | None => mfail (notFound "story marker" markerID)
             | Some marker =>
                 s <- mread (fun st => mr_Story_Find r st (sm_StoryID marker)) ;;
                 match s with
                 | None => mfail (notFound "story" (sm_StoryID marker))
                 | Some s =>
                     mwrite (DestroyMarker (sm_ID marker))
                       (fun st => story_DestroyMarker r st s marker)
                 end
             end) st
        with
        | (Err err, st1, tr) => (Err err, st1, tr ++ [MarkerDeleterRollback])
        | (Ok _, st1, tr) =>
            (Ok true, st1,
             tr ++ [MarkerDeleterCommit; MarkerPostHook markerID])
        end
  end.

End MarkerMutations.

Arguments StoryMarker_Find {Store} r st id : rename.
Arguments StoryMarker_Create {Store} r st marker : rename.
Arguments StoryMarker_UpdatePartial {Store} r st id partial : rename.
Arguments StoryMarker_UpdateTags {Store} r st id tagIDs : rename.
Arguments mr_Story_Find {Store} r st id : rename.
Arguments fileDeleter_MarkMarkerFiles {Store} r story seconds : rename.
Arguments story_DestroyMarker {Store} r st story marker : rename.
Arguments Exclude {Store} r values toExclude : rename.
Arguments mret {Store A} a.
Arguments mfail {Store A} e.
Arguments mbind {Store A B} m k.
Arguments memit {Store} ev.
Arguments mread {Store A} f.
Arguments mwrite {Store A} ev f.
Arguments mcall {Store A} ev res.
Arguments markerTxn {Store A} fn.
Arguments getStoryMarker {Store} r id.
Arguments StoryMarkerCreate {Store} r input.
Arguments storyMarkerUpdateTxn {Store} r markerID updatedMarker tagIdsIncluded tagIDs.
Arguments StoryMarkerUpdate {Store} r input translator hasField.
Arguments StoryMarkerDestroy {Store} r id.

(** ** In-memory collaborators of the queries and of the marker mutations *)
Module InMemoryMore.

Definition queries : queryResolver :=
  {| q_Find := fun id => Ok (List.find (fun s => ID s =? id) InMemory.stories);
     q_FindByChecksum := fun checksum =>
       Ok (List.filter (fun s => String.eqb (Checksum s) checksum)
             InMemory.stories);
     q_FindByOSHash := fun oshash =>
       Ok (List.filter (fun s => String.eqb (OSHash s) oshash)
             InMemory.stories);
     q_FindMany := fun ids =>
       Ok (List.filter (fun s => existsb (Z.eqb (ID s)) ids) InMemory.stories);
     q_All := Ok InMemory.stories;
     q_FindDuplicates := fun distance durationDiff => Ok [];
     q_Query := fun options =>
       Ok {| qr_Count := 3; qr_TotalDuration := 0%float;
             qr_TotalSize := 0%float |};
     q_Resolve := fun result => Ok InMemory.stories;
     q_LoadPrimaryFile := fun s => Ok s;
     vf_Duration := fun f => if vf_ID f =? 10 then 90%float else 30%float;
     vf_SizeFloat := fun f => 1024%float;
     Contains := fun fields field => existsb (String.eqb field) fields |}.

(** The markers by id, each with its tags. *)
Definition markers : gmap Z (StoryMarker * list Z) :=
  list_to_map [(7, (InMemory.marker1, [])); (8, (InMemory.marker2, [101; 102]))].

Definition applyMarkerPartial (p : StoryMarkerPartial) (m : StoryMarker)
    : StoryMarker :=
  {| sm_ID := sm_ID m;
     sm_Title := if Set_ (mp_Title p) then Value (mp_Title p) else sm_Title m;
     sm_Seconds :=
       if Set_ (mp_Seconds p) then Value (mp_Seconds p) else sm_Seconds m;
     sm_PrimaryTagID :=
       if Set_ (mp_PrimaryTagID p) then Value (mp_PrimaryTagID p)
       else sm_PrimaryTagID m;
     sm_StoryID :=
       if Set_ (mp_StoryID p) then Value (mp_StoryID p) else sm_StoryID m |}.

Definition withID (id : Z) (m : StoryMarker) : StoryMarker :=
  {| sm_ID := id; sm_Title := sm_Title m; sm_Seconds := sm_Seconds m;
     sm_PrimaryTagID := sm_PrimaryTagID m; sm_StoryID := sm_StoryID m |}.

Definition markerResolver : MarkerResolver (gmap Z (StoryMarker * list Z)) :=
  {| StoryMarker_Find := fun st id => Ok (fst <$> st !! id);
     StoryMarker_Create := fun st m =>
       (Ok (withID 9 m), <[9 := (withID 9 m, [])]> st);
     StoryMarker_UpdatePartial := fun st id p =>
       match st !! id with
       | None => (Err (Failure "sql: no rows in result set"), st)
       | Some (m, tags) =>
           (Ok (applyMarkerPartial p m),
            <[id := (applyMarkerPartial p m, tags)]> st)
       end;
     StoryMarker_UpdateTags := fun st id tagIDs =>
       match st !! id with
       | None => (Err (Failure "sql: no rows in result set"), st)
       | Some (m, _) => (Ok tt, <[id := (m, tagIDs)]> st)
       end;
     mr_Story_Find := fun st id =>
       Ok (List.find (fun s => ID s =? id) InMemory.stories);
     fileDeleter_MarkMarkerFiles := fun story seconds => Ok tt;
     story_DestroyMarker := fun st s m => (Ok tt, delete (sm_ID m) st);
     Exclude := fun values toExclude =>
       List.filter (fun v => negb (existsb (Z.eqb v) toExclude)) values |}.

Definition bulk : bulkTranslator :=
  {| optionalURLsBulk := fun urls url => None;
     updateIdsBulk := fun ids field => Ok None;
     updateMovieIDsBulk := fun ids field => Ok None |}.

(** A marker update that sets the seconds and, when given, the tags. *)
Definition setSeconds (id : string) (seconds : float64)
    (tagIds : option (list string)) : StoryMarkerUpdateInput :=
  {| mu_ID := id; mu_Title := None; mu_Seconds := Some seconds;
     mu_StoryID := None; mu_PrimaryTagID := None; mu_TagIds := tagIds |}.

(** An update of story [id] that sets the title and nothing else. *)
Definition setTitle (id title : string) : StoryUpdateInput :=
  {| in_ID := id; in_Title := Some title; in_Code := None;
     in_Details := None; in_Director := None; in_Rating100 := None;
     in_PlayDuration := None; in_Organized := None; in_StashIds := [];
     in_Date := None; in_StudioID := None; in_Urls := []; in_URL := None;
     in_PrimaryFileID := None;
     in_PerformerIds := []; in_TagIds := []; in_GalleryIds := [];
     in_Movies := []; in_CoverImage := None |}.

(** A bulk update of the stories [ids] that sets the rating and nothing
    else. *)
Definition rate (ids : list string) (rating : Z) : BulkStoryUpdateInput :=
  {| bi_Ids := ids; bi_Title := None; bi_Code := None;
     bi_Details := None; bi_Director := None;
     bi_Rating100 := Some rating; bi_Organized := None;
     bi_Date := None; bi_StudioID := None; bi_Urls := [];
     bi_URL := None; bi_PerformerIds := []; bi_TagIds := [];
     bi_GalleryIds := []; bi_MovieIds := [] |}.

(** The routes over a file store that cannot load primary files. *)
Definition rsUnloadable : storyRoutes :=
  {| storyFinder_Find := storyFinder_Find InMemory.rs;
     LoadPrimaryFile := fun s => Err (Failure "file missing");
     captionFinder_GetCaptions := captionFinder_GetCaptions InMemory.rs;
     storyMarkerFinder_Find := storyMarkerFinder_Find InMemory.rs;
     storyMarkerFinder_FindByStoryID :=
       storyMarkerFinder_FindByStoryID InMemory.rs;
     tagFinder_Find := tagFinder_Find InMemory.rs;
     tagFinder_FindByStoryMarkerID :=
       tagFinder_FindByStoryMarkerID InMemory.rs |}.

(** The routes over a tag store that fails, and over one that has lost
    the tags. *)
Definition rsTags (find : Z -> result (option Tag)) : storyRoutes :=
  {| storyFinder_Find := storyFinder_Find InMemory.rs;
     LoadPrimaryFile := LoadPrimaryFile InMemory.rs;
     captionFinder_GetCaptions := captionFinder_GetCaptions InMemory.rs;
     storyMarkerFinder_Find := storyMarkerFinder_Find InMemory.rs;
     storyMarkerFinder_FindByStoryID :=
       storyMarkerFinder_FindByStoryID InMemory.rs;
     tagFinder_Find := find;
     tagFinder_FindByStoryMarkerID :=
       tagFinder_FindByStoryMarkerID InMemory.rs |}.

(** The manager over subtitle files that cannot be read. *)
Definition envNoSubs : Env :=
  {| StreamManager := None;
     GetVideoFileContainer := GetVideoFileContainer (InMemory.env None []);
     Matroska := Matroska (InMemory.env None []);
     GetHash := GetHash (InMemory.env None []);
     Story_GetVideoPreviewPath :=
       Story_GetVideoPreviewPath (InMemory.env None []);
     Story_GetWebpPreviewPath :=
       Story_GetWebpPreviewPath (InMemory.env None []);
     Story_GetSpriteVttFilePath :=
       Story_GetSpriteVttFilePath (InMemory.env None []);
     Story_GetSpriteImageFilePath :=
       Story_GetSpriteImageFilePath (InMemory.env None []);
     Story_GetInteractiveHeatmapPath :=
       Story_GetInteractiveHeatmapPath (InMemory.env None []);
     StoryMarkers_GetVideoPreviewPath :=
       StoryMarkers_GetVideoPreviewPath (InMemory.env None []);
     StoryMarkers_GetWebpPreviewPath :=
       StoryMarkers_GetWebpPreviewPath (InMemory.env None []);
     StoryMarkers_GetScreenshotPath :=
       StoryMarkers_GetScreenshotPath (InMemory.env None []);
     GetFunscriptPath := GetFunscriptPath (InMemory.env None []);
     ConvertFunscriptToCSV := ConvertFunscriptToCSV (InMemory.env None []);
     FileExists := FileExists (InMemory.env None []);
     PendingGenerateResource :=
       PendingGenerateResource (InMemory.env None []);
     GetVTTTime := GetVTTTime (InMemory.env None []);
     caption_Path := caption_Path (InMemory.env None []);
     Subtitles := string;
     ReadSubs := fun p => Err (Failure "open: no such file");
     WriteToWebVTT := fun sub => Ok sub;
     ParseFloat := ParseFloat (InMemory.env None []) |}.

(** The routes over a marker store and a caption store that fail. *)
Definition rsLocked : storyRoutes :=
  {| storyFinder_Find := storyFinder_Find InMemory.rs;
     LoadPrimaryFile := LoadPrimaryFile InMemory.rs;
     captionFinder_GetCaptions := fun id => Err (Failure "database is locked");
     storyMarkerFinder_Find := fun id => Err (Failure "database is locked");
     storyMarkerFinder_FindByStoryID :=
       fun id => Err (Failure "database is locked");
     tagFinder_Find := tagFinder_Find InMemory.rs;
     tagFinder_FindByStoryMarkerID :=
       tagFinder_FindByStoryMarkerID InMemory.rs |}.

(** A [ParseFloat] that knows integer literals and one literal that is
    too large for a [float64]: for text that is well formed but out of
    range Go documents the result +Inf or -Inf with a range error. *)
Definition parseFloatRange (s : string)
    : float64 * option strconv.NumError :=
  if String.eqb s "1e999" then (PrimFloat.infinity, Some strconv.ErrRange)
  else InMemory.parseIntegerFloat s.

(** The manager with live transcoding on and that [ParseFloat]. *)
Definition envRange : Env :=
  {| StreamManager := Some TheStreamManager;
     GetVideoFileContainer :=
       GetVideoFileContainer (InMemory.env (Some TheStreamManager) []);
     Matroska :=
       Matroska (InMemory.env (Some TheStreamManager) []);
     GetHash :=
       GetHash (InMemory.env (Some TheStreamManager) []);
     Story_GetVideoPreviewPath :=
       Story_GetVideoPreviewPath (InMemory.env (Some TheStreamManager) []);
     Story_GetWebpPreviewPath :=
       Story_GetWebpPreviewPath (InMemory.env (Some TheStreamManager) []);
     Story_GetSpriteVttFilePath :=
       Story_GetSpriteVttFilePath (InMemory.env (Some TheStreamManager) []);
     Story_GetSpriteImageFilePath :=
       Story_GetSpriteImageFilePath (InMemory.env (Some TheStreamManager) []);
     Story_GetInteractiveHeatmapPath :=
       Story_GetInteractiveHeatmapPath (InMemory.env (Some TheStreamManager) []);
     StoryMarkers_GetVideoPreviewPath :=
       StoryMarkers_GetVideoPreviewPath (InMemory.env (Some TheStreamManager) []);
     StoryMarkers_GetWebpPreviewPath :=
       StoryMarkers_GetWebpPreviewPath (InMemory.env (Some TheStreamManager) []);
     StoryMarkers_GetScreenshotPath :=
       StoryMarkers_GetScreenshotPath (InMemory.env (Some TheStreamManager) []);
     GetFunscriptPath :=
       GetFunscriptPath (InMemory.env (Some TheStreamManager) []);
     ConvertFunscriptToCSV :=
       ConvertFunscriptToCSV (InMemory.env (Some TheStreamManager) []);
     FileExists :=
       FileExists (InMemory.env (Some TheStreamManager) []);
     PendingGenerateResource :=
       PendingGenerateResource (InMemory.env (Some TheStreamManager) []);
     GetVTTTime :=
       GetVTTTime (InMemory.env (Some TheStreamManager) []);
     caption_Path :=
       caption_Path (InMemory.env (Some TheStreamManager) []);
     Subtitles := string;
     ReadSubs := fun p => Ok p;
     WriteToWebVTT := fun sub => Ok sub;
     ParseFloat := parseFloatRange |}.

End InMemoryMore.

(** ** Vocabulary of the further properties *)

(** An effect that hands the response over to a collaborator. *)
Definition is_serve (e : effect) : bool :=
  match e with
  | ServeStaticFile _ | ServeStaticContent _ | ServeTranscode _
  | ServeManifest _ _ _ | ServeSegment _ | StreamStoryDirect _
  | ServeScreenshot _ => true
  | _ => false
  end.

(** The status codes the handlers write themselves. *)
Definition error_status (code : Z) : Prop :=
  code = 400 \/ code = 404 \/ code = 500 \/ code = 503.

(** A call on the stream manager needs a stream manager. *)
Definition allowed (env : Env) (e : effect) : Prop :=
  is_stream_manager_call e = true -> StreamManager env <> None.

(** The forms a response of the routes takes. *)
Inductive reply (env : Env) : list effect -> Prop :=
| reply_error msg code : error_status code -> reply env (http.Error msg code)
| reply_not_mkv : reply env notAnMkvFile
| reply_nothing : reply env []
| reply_panic : reply env [Panic]
| reply_serve e : is_serve e = true -> allowed env e -> reply env [e]
| reply_serve_typed contentType e :
    is_serve e = true -> allowed env e ->
    reply env [SetHeader "Content-Type" contentType; e].

(** The answer to a failed read: nothing when the request was canceled,
    500 with the error text otherwise. *)
Definition readFailed (err : error) : list effect :=
  if is_canceled err then []
  else http.Error (error_msg err) http.StatusInternalServerError.

(** The request with one path parameter set. *)
Definition withURLParam (key value : string) (r : Request) : Request :=
  {| URLParams := <[key := value]> (URLParams r); Form := Form r |}.

(** The three marker handlers answer the request as they answer the same
    request for the marker id [id]. *)
Definition answers_as_marker (rs : storyRoutes) (env : Env) (story : Story)
    (r : Request) (id : string) : Prop :=
  StoryMarkerStream rs env story r
  = StoryMarkerStream rs env story (withURLParam "storyMarkerId" id r) /\
  StoryMarkerPreview rs env story r
  = StoryMarkerPreview rs env story (withURLParam "storyMarkerId" id r) /\
  StoryMarkerScreenshot rs env story r
  = StoryMarkerScreenshot rs env story (withURLParam "storyMarkerId" id r).

(** Every post hook in the trace comes after a commit. *)
Definition hooks_after_commit (tr : list event) : Prop :=
  forall l1 l2 id, tr = l1 ++ PostHook id :: l2 -> In TxnCommit l1.

Definition is_hook (e : event) : bool :=
  match e with PostHook _ => true | _ => false end.

Definition is_cover (e : event) : bool :=
  match e with RepoUpdateCover _ => true | _ => false end.

(** The step can return [a]. *)
Definition returns {Store A : Type} (m : M Store A) (a : A) : Prop :=
  exists st st1 tr, m st = (Ok a, st1, tr).

(** The primary files of the stories, in order. *)
Definition primaryFiles (stories : list Story) : list VideoFile :=
  omap Files_Primary stories.

(** The sum the totals loop computes: left to right, from zero. *)
Definition sumFloat (xs : list float64) : float64 :=
  fold_left PrimFloat.add xs 0%float.

(** [sliceutil.Exclude] removes the excluded values and nothing else. *)
Definition Exclude_contract {Store : Type} (r : MarkerResolver Store)
    : Prop :=
  forall values toExclude v,
    In v (Exclude r values toExclude) <-> In v values /\ ~ In v toExclude.

Definition is_mark_files (e : marker_event) : bool :=
  match e with MarkMarkerFiles _ _ => true | _ => false end.

Definition is_update_tags (e : marker_event) : bool :=
  match e with MarkerUpdateTags _ _ => true | _ => false end.

(** How a destroy mutation ends: an error before the transaction, an
    error inside it (rolled back, after the kills and destroys of [done]),
    or success. *)
Definition destroy_outcome (res : result bool) (tr : list event) : Prop :=
  (exists e, res = Err e /\ tr = []) \/
  (exists e done,
     res = Err e /\
     tr = kill_then_destroy done ++ [TxnRollback; FileDeleterRollback]) \/
  (exists done,
     res = Ok true /\
     tr = kill_then_destroy done ++ [TxnCommit; FileDeleterCommit]
          ++ map PostHook done).

Definition not_hook (e : event) : Prop := is_hook e = false.

(** The text [ids] are the numbers [storyIDs], one for one and in order. *)
Definition parsed_ids (ids : list string) (storyIDs : list Z) : Prop :=
  Forall2 (fun id storyID => strconv.Atoi id = Some storyID) ids storyIDs.

(** The stories of [storyIDs] found and destroyed one after the other,
    from the store [st] to the store [st2]: each story is the one Find
    gives for its id in the store that the destroys before it have left,
    and its destroy succeeds. *)
Fixpoint destroyed_in_turn {Store : Type} (r : Resolver Store)
    (deleteGenerated deleteFile : bool) (st : Store) (storyIDs : list Z)
    (stories : list Story) (st2 : Store) : Prop :=
  match storyIDs, stories with
  | [], [] => st2 = st
  | id :: storyIDs, story :: stories =>
      Story_Find r st id = Ok (Some story) /\
      exists st1,
        storyService_Destroy r st story deleteGenerated deleteFile
        = (Ok tt, st1) /\
        destroyed_in_turn r deleteGenerated deleteFile st1 storyIDs stories
          st2
  | _, _ => False
  end.

(** The stories of [storyIDs] updated one after the other with the one
    partial [updatedStory], from the store [st] to the store [st2]:
    [stories] are the stories UpdatePartial returned. *)
Fixpoint updated_in_turn {Store : Type} (r : Resolver Store)
    (updatedStory : StoryPartial) (st : Store) (storyIDs : list Z)
    (stories : list Story) (st2 : Store) : Prop :=
  match storyIDs, stories with
  | [], [] => st2 = st
  | storyID :: storyIDs, story :: stories =>
      exists st1,
        Story_UpdatePartial r st storyID updatedStory = (Ok story, st1) /\
        updated_in_turn r updatedStory st1 storyIDs stories st2
  | _, _ => False
  end.

(** The step reads at most: from every store it leaves the store as it
    was and causes no event. *)
Definition pure_step {Store A : Type} (m : M Store A) : Prop :=
  forall st, exists res, m st = (res, st, []).

(** How a run of [storyUpdate] ends: either it fails before any write,
    with the store as it was, or it reaches the one call of UpdatePartial,
    for the parsed id and the partial of the input, with a primary file id
    that names a file of the story; the cover is written next when, and
    only when, there is cover image data. *)
Definition storyUpdate_outcome {Store : Type} (r : Resolver Store)
    (input : StoryUpdateInput) (translator : changesetTranslator)
    (st : Store) (res : result Story) (st1 : Store) (tr : list event)
    : Prop :=
  (exists e, res = Err e /\ st1 = st /\ tr = []) \/
  (exists storyID originalStory updatedStory coverImageData,
     strconv.Atoi (in_ID input) = Some storyID /\
     Story_Find r st storyID = Ok (Some originalStory) /\
     storyPartialFromInput input translator = Ok updatedStory /\
     (forall newPrimaryFileID,
        sp_PrimaryFileID updatedStory = Some newPrimaryFileID ->
        exists files f,
          Story_LoadFiles r st originalStory = Ok files /\
          In f files /\ vf_ID f = newPrimaryFileID) /\
     (coverImageData <> "" ->
      exists image,
        in_CoverImage input = Some image /\
        ProcessImageInput r image = Ok coverImageData) /\
     match Story_UpdatePartial r st storyID updatedStory with
     | (Err e, ust) =>
         res = Err e /\ st1 = ust /\ tr = [RepoUpdatePartial storyID]
     | (Ok story, ust) =>
         if String.eqb coverImageData "" then
           res = Ok story /\ st1 = ust /\ tr = [RepoUpdatePartial storyID]
         else
           tr = [RepoUpdatePartial storyID; RepoUpdateCover (ID story)] /\
           match Story_UpdateCover r ust (ID story) coverImageData with
           | (Ok _, cst) => res = Ok story /\ st1 = cst
           | (Err e, cst) => res = Err e /\ st1 = cst
           end
     end).

(** The events of a marker mutation from a given store. *)
Definition marker_trace {Store A : Type} (m : MM Store A) (st : Store)
    : list marker_event :=
  snd (m st).

(** The marker changed its story or its seconds, as [StoryMarkerUpdate]
    compares them. *)
Definition marker_moved (existingMarker newMarker : StoryMarker) : Prop :=
  sm_StoryID existingMarker <> sm_StoryID newMarker \/
  PrimFloat.eqb (sm_Seconds existingMarker) (sm_Seconds newMarker) = false.

(** What the transaction of [StoryMarkerUpdate] does after it has found
    the marker and updated it to [newMarker]: it marks the files of the
    old position when the marker moved, and it saves the tags when they
    were included. *)
Definition marker_update_events {Store : Type} (r : MarkerResolver Store)
    (markerID : Z) (tagIdsIncluded : bool) (tagIDs : list Z)
    (existingMarker newMarker : StoryMarker) (tr : list marker_event)
    : Prop :=
  exists marks tags,
    tr = MarkerUpdatePartial markerID :: marks ++ tags /\
    (marks = [] \/
     exists storyID,
       marks = [MarkMarkerFiles storyID
                  (int_of_float64 (sm_Seconds existingMarker))] /\
       marker_moved existingMarker newMarker) /\
    (tags = [] \/
     tagIdsIncluded = true /\
     tags = [MarkerUpdateTags markerID
               (Exclude r tagIDs [sm_PrimaryTagID newMarker])]).

(** ** Properties of the routes *)

Lemma written_status_Error msg code :
  written_status (http.Error msg code) = Some code.
Proof. reflexivity. Qed.

Lemma Error_no_stream_manager_call msg code :
  no_stream_manager_call (http.Error msg code).
Proof. repeat constructor. Qed.

Lemma digits_all_digits s : forall n v,
  strconv.digits n s = Some v -> all_digits s = true.
Proof.
  induction s as [|c s IH]; intros n v H; [reflexivity|].
  simpl in H. unfold all_digits. simpl.
  destruct (strconv.is_digit c); [|discriminate].
  simpl. exact (IH _ _ H).
Qed.

Lemma Atoi_decimal_integer s n :
  strconv.Atoi s = Some n -> decimal_integer s = true.
Proof.
  destruct s as [|c rest]; [discriminate|].
  unfold strconv.Atoi, decimal_integer. cbv zeta.
  destruct (Ascii.eqb c "-" || Ascii.eqb c "+") eqn:Hsign.
  - destruct rest as [|d rest']; [discriminate|].
    destruct (strconv.digits 0 (String d rest')) as [v|] eqn:Hd; [|discriminate].
    intros _. simpl. exact (digits_all_digits _ _ _ Hd).
  - destruct (strconv.digits 0 (String c rest)) as [v|] eqn:Hd; [|discriminate].
    intros _. exact (digits_all_digits _ _ _ Hd).
Qed.

Lemma Atoi_not_decimal s :
  decimal_integer s = false -> strconv.Atoi s = None.
Proof.
  intros H. destruct (strconv.Atoi s) as [n|] eqn:E; [|reflexivity].
  apply Atoi_decimal_integer in E. congruence.
Qed.

(** *** The value of Atoi and its error *)

Lemma digit_val_range c :
  strconv.is_digit c = true -> 0 <= strconv.digit_val c <= 9.
Proof.
  unfold strconv.is_digit, strconv.digit_val.
  rewrite andb_true_iff, !Z.leb_le. lia.
Qed.

Lemma digits_ge s : forall n v,
  0 <= n -> strconv.digits n s = Some v -> n <= v.
Proof.
  induction s as [|c s IH]; simpl; intros n v Hn H.
  - injection H as <-. lia.
  - destruct (strconv.is_digit c) eqn:Hd; [|discriminate].
    pose proof (digit_val_range _ Hd). apply IH in H; lia.
Qed.

Lemma parseUintLoop_digits s : forall n v,
  0 <= n -> strconv.digits n s = Some v -> v <= strconv.maxUint64 ->
  strconv.parseUintLoop n s = (v, None).
Proof.
  induction s as [|c s IH]; simpl; intros n v Hn H Hv.
  - injection H as <-. reflexivity.
  - destruct (strconv.is_digit c) eqn:Hd; [|discriminate].
    pose proof (digit_val_range _ Hd) as Hc.
    assert (Hge : n * 10 + strconv.digit_val c <= v).
    { apply (digits_ge s); [lia|exact H]. }
    change (strconv.maxUint64 / 10 + 1) with 1844674407370955162.
    change strconv.maxUint64 with 18446744073709551615 in *.
    destruct (Z.leb_spec 1844674407370955162 n); [lia|].
    destruct (Z.ltb_spec 18446744073709551615
                (n * 10 + strconv.digit_val c)); [lia|].
    apply IH; [lia|exact H|exact Hv].
Qed.

Lemma parseUintLoop_ok s : forall n v,
  0 <= n <= strconv.maxUint64 ->
  strconv.parseUintLoop n s = (v, None) ->
  strconv.digits n s = Some v /\ 0 <= v <= strconv.maxUint64.
Proof.
  induction s as [|c s IH]; simpl; intros n v Hn H.
  - injection H as <-. split; [reflexivity|exact Hn].
  - destruct (strconv.is_digit c) eqn:Hd; [|discriminate].
    pose proof (digit_val_range _ Hd) as Hc.
    destruct (strconv.maxUint64 / 10 + 1 <=? n); [discriminate|].
    destruct (Z.ltb_spec strconv.maxUint64 (n * 10 + strconv.digit_val c));
      [discriminate|].
    apply IH; [lia|exact H].
Qed.

Lemma parseUintLoop_range s : forall n un,
  strconv.parseUintLoop n s = (un, Some strconv.ErrRange) ->
  un = strconv.maxUint64.
Proof.
  induction s as [|c s IH]; simpl; intros n un H; [discriminate|].
  destruct (strconv.is_digit c); [|discriminate].
  destruct (strconv.maxUint64 / 10 + 1 <=? n); [now injection H as <-|].
  destruct (strconv.maxUint64 <? n * 10 + strconv.digit_val c);
    [now injection H as <-|].
  exact (IH _ _ H).
Qed.

(** The two views of Atoi agree: it returns no error exactly when
    ParseInt returns none, and then with the same value. *)
Lemma Atoi_ParseInt s v :
  strconv.Atoi s = Some v <-> strconv.ParseInt s = (v, None).
Proof.
  destruct s as [|c rest]; [split; discriminate|].
  unfold strconv.Atoi, strconv.ParseInt, strconv.ParseUint. cbv zeta.
  set (neg := Ascii.eqb c "-").
  set (body := if neg || Ascii.eqb c "+" then rest else String c rest).
  destruct body as [|d body']; [split; discriminate|].
  change (2 ^ 63) with 9223372036854775808.
  change strconv.minInt with (-9223372036854775808).
  change strconv.maxInt with 9223372036854775807.
  split.
  - destruct (strconv.digits 0 (String d body')) as [n|] eqn:Hd;
      [|discriminate].
    assert (Hn : 0 <= n) by (apply (digits_ge _ _ _ (Z.le_refl 0) Hd)).
    destruct ((-9223372036854775808 <=? (if neg then - n else n))
              && ((if neg then - n else n) <=? 9223372036854775807))
      eqn:Hrange; [|discriminate].
    intros H. injection H as <-.
    apply andb_true_iff in Hrange. rewrite !Z.leb_le in Hrange.
    rewrite (parseUintLoop_digits _ _ _ (Z.le_refl 0) Hd).
    2:{ change strconv.maxUint64 with 18446744073709551615.
        destruct neg; lia. }
    destruct neg; simpl.
    + destruct (Z.ltb_spec 9223372036854775808 n); [lia|reflexivity].
    + destruct (Z.leb_spec 9223372036854775808 n); [lia|reflexivity].
  - destruct (strconv.parseUintLoop 0 (String d body')) as [un [[]|]] eqn:Hp;
      try discriminate.
    + apply parseUintLoop_range in Hp. subst un. destruct neg; discriminate.
    + apply parseUintLoop_ok in Hp;
        [|change strconv.maxUint64 with 18446744073709551615; lia].
      destruct Hp as [Hd Hun]. rewrite Hd.
      destruct neg; simpl.
      * destruct (Z.ltb_spec 9223372036854775808 un); [discriminate|].
        intros Hres. injection Hres as <-.
        destruct (Z.leb_spec (-9223372036854775808) (- un)); [|lia].
        destruct (Z.leb_spec (- un) 9223372036854775807); [|lia].
        reflexivity.
      * destruct (Z.leb_spec 9223372036854775808 un); [discriminate|].
        intros Hres. injection Hres as <-.
        destruct (Z.leb_spec (-9223372036854775808) un); [|lia].
        destruct (Z.leb_spec un 9223372036854775807); [|lia].
        reflexivity.
Qed.

Lemma AtoiValue_Atoi s v :
  strconv.Atoi s = Some v -> strconv.AtoiValue s = v.
Proof.
  intros H. apply Atoi_ParseInt in H. unfold strconv.AtoiValue.
  now rewrite H.
Qed.

(** With a syntax error Atoi returns 0, with a range error the largest
    int, or the smallest where the text starts with a minus sign. *)
Lemma ParseInt_error s :
  (snd (strconv.ParseInt s) = Some strconv.ErrSyntax ->
   strconv.AtoiValue s = 0) /\
  (snd (strconv.ParseInt s) = Some strconv.ErrRange ->
   strconv.AtoiValue s = strconv.maxInt \/
   strconv.AtoiValue s = strconv.minInt).
Proof.
  unfold strconv.AtoiValue.
  destruct s as [|c rest]; [split; [reflexivity|discriminate]|].
  unfold strconv.ParseInt. cbv zeta.
  destruct (strconv.ParseUint _) as [un [[]|]];
    [split; [reflexivity|discriminate]| |];
    (destruct (negb (Ascii.eqb c "-") && (2 ^ 63 <=? un));
     [split; [discriminate|left; reflexivity]|]);
    (destruct (Ascii.eqb c "-" && (2 ^ 63 <? un));
     [split; [discriminate|right; reflexivity]|]);
    split; discriminate.
Qed.

(** C2, as it holds.  With live transcoding disabled (no stream manager),
    the MP4 and WebM stream handlers and the manifest and segment handlers
    answer 503 Service Unavailable, for every stream type, and return at
    once: the response is the error answer alone, with no call on the
    stream manager and so no encoder process.  The MKV stream route looks
    at the primary file and at its container before it reaches that check:
    it answers nothing for a story without primary file, 400 for a primary
    file that is not Matroska, and 503 only for a Matroska file; it makes
    no call on the stream manager either. *)
Theorem disabled_transcoding_is_service_unavailable
    (env : Env) (story : Story) (r : Request) :
  StreamManager env = None ->
  (forall streamType,
     streamTranscode env streamType story r = serviceUnavailable) /\
  StreamMp4 env story r = serviceUnavailable /\
  StreamWebM env story r = serviceUnavailable /\
  (forall streamType logName,
     streamManifest env streamType logName story r = serviceUnavailable) /\
  (forall streamType,
     streamSegment env streamType story r = serviceUnavailable) /\
  written_status serviceUnavailable = Some 503 /\
  no_stream_manager_call serviceUnavailable /\
  (Files_Primary story = None -> StreamMKV env story r = []) /\
  (forall pf,
     Files_Primary story = Some pf ->
     fst (GetVideoFileContainer env pf) <> Matroska env ->
     StreamMKV env story r = notAnMkvFile) /\
  (forall pf,
     Files_Primary story = Some pf ->
     fst (GetVideoFileContainer env pf) = Matroska env ->
     StreamMKV env story r = serviceUnavailable) /\
  no_stream_manager_call (StreamMKV env story r).
Proof.
  intros Hoff.
  assert (Htranscode : forall streamType,
            streamTranscode env streamType story r = serviceUnavailable).
  { intros streamType. unfold streamTranscode. now rewrite Hoff. }
  split; [exact Htranscode|].
  do 2 (split; [apply Htranscode|]).
  unfold streamManifest, streamSegment. rewrite Hoff.
  do 3 (split; [reflexivity|]).
  split; [apply Error_no_stream_manager_call|].
  unfold StreamMKV. split; [|split; [|split]].
  - intros ->. reflexivity.
  - intros pf -> Hne. cbv zeta.
    destruct (String.eqb_spec (fst (GetVideoFileContainer env pf))
                (Matroska env)) as [Heq|_]; [contradiction|reflexivity].
  - intros pf -> Hmkv. cbv zeta. rewrite Hmkv, String.eqb_refl.
    apply Htranscode.
  - destruct (Files_Primary story) as [pf|]; [|constructor]. cbv zeta.
    destruct (String.eqb _ _); simpl.
    + rewrite Htranscode. apply Error_no_stream_manager_call.
    + repeat constructor.
Qed.

Lemma disabled_transcoding_is_service_unavailable_witness :
  StreamManager (InMemory.env None []) = None /\
  streamSegment (InMemory.env None []) StreamTypeHLS InMemory.story1
    (InMemory.request [("segment", "3")] []) = serviceUnavailable /\
  StreamMKV (InMemory.env None []) InMemory.story_mkv
    (InMemory.request [] []) = serviceUnavailable.
Proof.
  split; [reflexivity|]. split.
  - apply (disabled_transcoding_is_service_unavailable
             (InMemory.env None []) InMemory.story1
             (InMemory.request [("segment", "3")] [])).
    reflexivity.
  - apply (proj1 (proj2 (proj2 (proj2 (proj2 (proj2 (proj2 (proj2 (proj2
             (proj2 (disabled_transcoding_is_service_unavailable
                       (InMemory.env None []) InMemory.story_mkv
                       (InMemory.request [] []) eq_refl))))))))))
             InMemory.file_mkv); reflexivity.
Defined.

(** C2, as worded, fails on the MKV stream route: live transcoding is
    disabled, and a request for the MKV stream of a story whose primary
    file is an MP4 is answered 400, and one for a story without primary
    file is answered with nothing; neither is the 503 answer. *)
Lemma disabled_mkv_stream_is_not_503 :
  let env := InMemory.env None [] in
  let r := InMemory.request [] [] in
  StreamManager env = None /\
  StreamMKV env InMemory.story1 r = notAnMkvFile /\
  written_status (StreamMKV env InMemory.story1 r) = Some 400 /\
  StreamMKV env InMemory.story1 r <> serviceUnavailable /\
  StreamMKV env InMemory.story_nofile r = [] /\
  written_status (StreamMKV env InMemory.story_nofile r) = None /\
  StreamMKV env InMemory.story_nofile r <> serviceUnavailable.
Proof.
  cbv zeta. repeat split; try reflexivity; discriminate.
Qed.

(** C3. An MKV stream request on a story whose primary file is not in a
    Matroska container is answered 400 with no call on the stream manager;
    and when the MKV route does reach the transcoder, the container of the
    primary file is Matroska and the stream type is MKV. *)
Theorem mkv_only_for_matroska (env : Env) (story : Story) (r : Request) :
  (forall pf,
     Files_Primary story = Some pf ->
     fst (GetVideoFileContainer env pf) <> Matroska env ->
     StreamMKV env story r = notAnMkvFile /\
     written_status (StreamMKV env story r) = Some 400 /\
     no_stream_manager_call (StreamMKV env story r)) /\
  (forall e,
     In e (StreamMKV env story r) -> is_stream_manager_call e = true ->
     exists pf,
       Files_Primary story = Some pf /\
       fst (GetVideoFileContainer env pf) = Matroska env /\
       e = ServeTranscode
             {| to_StreamType := StreamTypeMKV; to_VideoFile := pf;
                to_Resolution := Form_Get r "resolution";
                to_StartTime := fst (ParseFloat env (Form_Get r "start")) |}).
Proof.
  split.
  - intros pf Hpf Hne. unfold StreamMKV. rewrite Hpf. cbv zeta.
    destruct (String.eqb_spec (fst (GetVideoFileContainer env pf)) (Matroska env))
      as [Heq|_]; [contradiction|].
    simpl. repeat split; repeat constructor.
  - intros e Hin Hcall. unfold StreamMKV in Hin.
    destruct (Files_Primary story) as [pf|] eqn:Hpf; [|destruct Hin].
    cbv zeta in Hin.
    destruct (String.eqb_spec (fst (GetVideoFileContainer env pf)) (Matroska env))
      as [Heq|Hne]; simpl in Hin.
    + exists pf. split; [reflexivity|]. split; [exact Heq|].
      unfold streamTranscode in Hin. rewrite Hpf in Hin.
      destruct (StreamManager env).
      * destruct Hin as [<-|[]]. reflexivity.
      * destruct Hin as [<-|[<-|[<-|[<-|[]]]]]; discriminate.
    + destruct Hin as [<-|[<-|[]]]; discriminate.
Qed.

Lemma mkv_only_for_matroska_witness :
  StreamMKV (InMemory.env (Some TheStreamManager) []) InMemory.story1
    (InMemory.request [] []) = notAnMkvFile.
Proof.
  apply (proj1 (mkv_only_for_matroska
                  (InMemory.env (Some TheStreamManager) []) InMemory.story1
                  (InMemory.request [] [])) InMemory.file_mp4).
  - reflexivity.
  - discriminate.
Defined.

(** C5, as it holds.  On a story that has no primary file the MKV stream
    route returns without writing anything, whether live transcoding is
    enabled or not.  The transcode, manifest and segment handlers return
    without writing a status, a header or a body and without calling the
    stream manager when live transcoding is enabled: the response is
    empty, and it is no 500.  When live transcoding is disabled their 503
    check comes first, and the answer is the 503 error, which is not
    empty. *)
Theorem no_primary_file_is_empty_response
    (env : Env) (story : Story) (r : Request) :
  Files_Primary story = None ->
  empty_response (StreamMKV env story r) /\
  (forall sm,
     StreamManager env = Some sm ->
     (forall streamType,
        empty_response (streamTranscode env streamType story r)) /\
     (forall streamType logName,
        empty_response (streamManifest env streamType logName story r)) /\
     (forall streamType,
        empty_response (streamSegment env streamType story r))) /\
  (StreamManager env = None ->
   (forall streamType,
      streamTranscode env streamType story r = serviceUnavailable) /\
   (forall streamType logName,
      streamManifest env streamType logName story r = serviceUnavailable) /\
   (forall streamType,
      streamSegment env streamType story r = serviceUnavailable) /\
   written_status serviceUnavailable = Some 503 /\
   ~ empty_response serviceUnavailable).
Proof.
  intros Hnone.
  unfold empty_response, StreamMKV, streamTranscode, streamManifest,
    streamSegment.
  rewrite Hnone. split; [reflexivity|]. split.
  - intros sm ->. repeat split.
  - intros ->. repeat split. discriminate.
Qed.

Lemma no_primary_file_is_empty_response_witness :
  empty_response
    (streamManifest (InMemory.env (Some TheStreamManager) []) StreamTypeHLS
       "HLS" InMemory.story_nofile (InMemory.request [] [])) /\
  empty_response
    (StreamMKV (InMemory.env None []) InMemory.story_nofile
       (InMemory.request [] [])) /\
  streamSegment (InMemory.env None []) StreamTypeDASHAudio
    InMemory.story_nofile (InMemory.request [] []) = serviceUnavailable.
Proof.
  split; [|split].
  - apply (proj1 (proj2 (proj1 (proj2
             (no_primary_file_is_empty_response
                (InMemory.env (Some TheStreamManager) [])
                InMemory.story_nofile (InMemory.request [] []) eq_refl))
             TheStreamManager eq_refl))).
  - apply (proj1 (no_primary_file_is_empty_response
                    (InMemory.env None []) InMemory.story_nofile
                    (InMemory.request [] []) eq_refl)).
  - apply (proj1 (proj2 (proj2 (proj2 (proj2
             (no_primary_file_is_empty_response
                (InMemory.env None []) InMemory.story_nofile
                (InMemory.request [] []) eq_refl)) eq_refl)))).
Defined.

(** C5, as worded, fails: the story has no primary file, live transcoding
    is disabled, and the answer is the 503 error with its body, not an
    empty response. *)
Lemma no_primary_file_disabled_is_503 :
  Files_Primary InMemory.story_nofile = None /\
  streamTranscode (InMemory.env None []) StreamTypeMP4 InMemory.story_nofile
    (InMemory.request [] []) = serviceUnavailable /\
  written_status
    (streamTranscode (InMemory.env None []) StreamTypeMP4
       InMemory.story_nofile (InMemory.request [] [])) = Some 503 /\
  ~ empty_response
      (streamTranscode (InMemory.env None []) StreamTypeMP4
         InMemory.story_nofile (InMemory.request [] [])).
Proof.
  repeat split; try reflexivity. unfold empty_response. discriminate.
Qed.

(** C7. A story id that is not a decimal integer (digits, with or
    without a sign before them), and any other story id that Atoi rejects,
    is answered 400 whatever the next handler is, which is not run; a
    story id that finds no story is answered 404;
    on the three marker routes a marker id that finds no marker is
    answered 404, where the marker looked up is the one the id names when
    the id is a number (and the value Atoi returned when it is not); in
    each case the status is written before any body. *)
Theorem bad_ids_are_400_and_404
    (rs : storyRoutes) (env : Env) (r : Request) :
  (forall next,
     decimal_integer (URLParam r "storyId") = false ->
     StoryCtx rs next r = http.Error "Bad Request" 400) /\
  (forall next,
     strconv.Atoi (URLParam r "storyId") = None ->
     StoryCtx rs next r = http.Error "Bad Request" 400) /\
  (forall next storyID,
     strconv.Atoi (URLParam r "storyId") = Some storyID ->
     storyFinder_Find rs storyID = None ->
     StoryCtx rs next r = http.Error "Not Found" 404) /\
  (forall story,
     storyMarkerFinder_Find rs (storyMarkerIdParam r) = Ok None ->
     StoryMarkerStream rs env story r = http.Error "Not Found" 404 /\
     StoryMarkerPreview rs env story r = http.Error "Not Found" 404 /\
     StoryMarkerScreenshot rs env story r = http.Error "Not Found" 404) /\
  (forall story storyMarkerID,
     strconv.Atoi (URLParam r "storyMarkerId") = Some storyMarkerID ->
     storyMarkerFinder_Find rs storyMarkerID = Ok None ->
     StoryMarkerStream rs env story r = http.Error "Not Found" 404 /\
     StoryMarkerPreview rs env story r = http.Error "Not Found" 404 /\
     StoryMarkerScreenshot rs env story r = http.Error "Not Found" 404) /\
  written_status (http.Error "Bad Request" 400) = Some 400 /\
  written_status (http.Error "Not Found" 404) = Some 404.
Proof.
  assert (Hmarker : forall story,
            storyMarkerFinder_Find rs (storyMarkerIdParam r) = Ok None ->
            StoryMarkerStream rs env story r = http.Error "Not Found" 404 /\
            StoryMarkerPreview rs env story r = http.Error "Not Found" 404 /\
            StoryMarkerScreenshot rs env story r
            = http.Error "Not Found" 404).
  { intros story Hnone.
    unfold StoryMarkerStream, StoryMarkerPreview, StoryMarkerScreenshot,
      withStoryMarker.
    rewrite Hnone. repeat split. }
  split; [|split; [|split; [|split; [|split; [|split]]]]]; try reflexivity.
  - intros next Hbad. unfold StoryCtx.
    rewrite (Atoi_not_decimal _ Hbad). reflexivity.
  - intros next Hbad. unfold StoryCtx. rewrite Hbad. reflexivity.
  - intros next storyID Hid Hnone. unfold StoryCtx.
    rewrite Hid, Hnone. reflexivity.
  - exact Hmarker.
  - intros story storyMarkerID Hid Hnone. apply Hmarker.
    unfold storyMarkerIdParam. rewrite (AtoiValue_Atoi _ _ Hid).
    exact Hnone.
Qed.

Lemma bad_ids_are_400_and_404_witness :
  Routes InMemory.rs (InMemory.env None []) vtt_chapter
    (InMemory.request [("storyId", "12a")] [])
  = http.Error "Bad Request" 400 /\
  StoryMarkerScreenshot InMemory.rs (InMemory.env None []) InMemory.story1
    (InMemory.request [("storyId", "1"); ("storyMarkerId", "99")] [])
  = http.Error "Not Found" 404.
Proof.
  split.
  - apply (proj1 (bad_ids_are_400_and_404 InMemory.rs (InMemory.env None [])
                    (InMemory.request [("storyId", "12a")] []))).
    reflexivity.
  - apply (proj1 (proj2 (proj2 (proj2 (proj2
             (bad_ids_are_400_and_404 InMemory.rs (InMemory.env None [])
                (InMemory.request
                   [("storyId", "1"); ("storyMarkerId", "99")] []))))))
             InMemory.story1 99); reflexivity.
Defined.

(** C8, as it holds.  With live transcoding enabled and a primary file,
    a transcode request is served whatever the start parameter holds: when
    the parameter is absent, or is not written as a number (a syntax error
    of ParseFloat), the options carry a start time of 0; when it is a
    number too large for a float64 (a range error of ParseFloat) they
    carry the +Inf or -Inf that ParseFloat returned, not 0; in every case
    the options carry the value ParseFloat returned and the resolution
    parameter as given. *)
Theorem transcode_start_defaults_to_zero
    (env : Env) (story : Story) (r : Request) (streamType : StreamFormat)
    (sm : StreamManagerT) (f : VideoFile) :
  StreamManager env = Some sm ->
  Files_Primary story = Some f ->
  ParseFloat_syntax_contract env ->
  (Form r !! "start" = None ->
   streamTranscode env streamType story r
   = servesTranscode streamType f (Form_Get r "resolution") 0%float) /\
  (snd (ParseFloat env (Form_Get r "start")) = Some strconv.ErrSyntax ->
   streamTranscode env streamType story r
   = servesTranscode streamType f (Form_Get r "resolution") 0%float) /\
  (ParseFloat_range_contract env ->
   snd (ParseFloat env (Form_Get r "start")) = Some strconv.ErrRange ->
   streamTranscode env streamType story r
   = servesTranscode streamType f (Form_Get r "resolution")
       PrimFloat.infinity \/
   streamTranscode env streamType story r
   = servesTranscode streamType f (Form_Get r "resolution")
       PrimFloat.neg_infinity) /\
  streamTranscode env streamType story r
  = servesTranscode streamType f (Form_Get r "resolution")
      (fst (ParseFloat env (Form_Get r "start"))).
Proof.
  intros Hon Hf [Hempty Hsyntax].
  assert (Hgen : streamTranscode env streamType story r
                 = servesTranscode streamType f (Form_Get r "resolution")
                     (fst (ParseFloat env (Form_Get r "start")))).
  { unfold streamTranscode. rewrite Hon, Hf. reflexivity. }
  split; [|split; [|split]].
  - intros Habsent. rewrite Hgen.
    assert (Hget : Form_Get r "start" = "").
    { unfold Form_Get. rewrite Habsent. reflexivity. }
    rewrite Hget, (Hsyntax "" Hempty). reflexivity.
  - intros Hbad. rewrite Hgen, (Hsyntax _ Hbad). reflexivity.
  - intros Hrange Hbad. rewrite Hgen.
    destruct (Hrange _ Hbad) as [->| ->]; [left|right]; reflexivity.
  - exact Hgen.
Qed.

Lemma in_memory_ParseFloat_contract :
  ParseFloat_syntax_contract (InMemory.env (Some TheStreamManager) []).
Proof.
  split; [reflexivity|].
  intros s. simpl. unfold InMemory.parseIntegerFloat.
  destruct (strconv.Atoi s); [discriminate|reflexivity].
Defined.

Lemma in_memory_ParseFloat_range_contract :
  ParseFloat_syntax_contract InMemoryMore.envRange /\
  ParseFloat_range_contract InMemoryMore.envRange.
Proof.
  split; [split; [reflexivity|]|]; intros s; simpl;
    unfold InMemoryMore.parseFloatRange, InMemory.parseIntegerFloat;
    destruct (String.eqb s "1e999"); simpl.
  - discriminate.
  - destruct (strconv.Atoi s); [discriminate|reflexivity].
  - left. reflexivity.
  - destruct (strconv.Atoi s); discriminate.
Defined.

Lemma transcode_start_defaults_to_zero_witness :
  streamTranscode (InMemory.env (Some TheStreamManager) []) StreamTypeMP4
    InMemory.story1
    (InMemory.request [] [("start", ["soon"]); ("resolution", ["720"])])
  = servesTranscode StreamTypeMP4 InMemory.file_mp4 "720" 0%float /\
  (streamTranscode InMemoryMore.envRange StreamTypeWEBM InMemory.story1
     (InMemory.request [] [("start", ["1e999"])])
   = servesTranscode StreamTypeWEBM InMemory.file_mp4 "" PrimFloat.infinity \/
   streamTranscode InMemoryMore.envRange StreamTypeWEBM InMemory.story1
     (InMemory.request [] [("start", ["1e999"])])
   = servesTranscode StreamTypeWEBM InMemory.file_mp4 ""
       PrimFloat.neg_infinity).
Proof.
  split.
  - apply (proj1 (proj2 (transcode_start_defaults_to_zero
             (InMemory.env (Some TheStreamManager) []) InMemory.story1
             (InMemory.request [] [("start", ["soon"]); ("resolution", ["720"])])
             StreamTypeMP4 TheStreamManager InMemory.file_mp4
             eq_refl eq_refl in_memory_ParseFloat_contract))).
    reflexivity.
  - apply (proj1 (proj2 (proj2 (transcode_start_defaults_to_zero
             InMemoryMore.envRange InMemory.story1
             (InMemory.request [] [("start", ["1e999"])])
             StreamTypeWEBM TheStreamManager InMemory.file_mp4
             eq_refl eq_refl (proj1 in_memory_ParseFloat_range_contract))))).
    + exact (proj2 in_memory_ParseFloat_range_contract).
    + reflexivity.
Defined.

(** C8, as worded, fails.  The start parameter is 1e999, which ParseFloat
    does not parse: it returns a range error, and +Inf with it.  The
    request is served with a start time of +Inf, not of 0. *)
Lemma out_of_range_start_is_not_zero :
  let env := InMemoryMore.envRange in
  let r := InMemory.request [] [("start", ["1e999"])] in
  snd (ParseFloat env (Form_Get r "start")) = Some strconv.ErrRange /\
  streamTranscode env StreamTypeMP4 InMemory.story1 r
  = servesTranscode StreamTypeMP4 InMemory.file_mp4 "" PrimFloat.infinity /\
  streamTranscode env StreamTypeMP4 InMemory.story1 r
  <> servesTranscode StreamTypeMP4 InMemory.file_mp4 "" 0%float.
Proof.
  cbv zeta. split; [reflexivity|]. split; [reflexivity|].
  intros H.
  apply (f_equal (fun es =>
                    match es with
                    | ServeTranscode options :: _ =>
                        PrimFloat.classify (to_StartTime options)
                    | _ => PrimFloat.classify 0%float
                    end)) in H.
  vm_compute in H. discriminate H.
Qed.

(** *** Captions *)

Lemma caption_test_false lang type c :
  caption_matches lang type c ->
  negb (String.eqb lang (LanguageCode c))
  || negb (String.eqb type (CaptionType c)) = false.
Proof.
  intros [-> ->]. rewrite !String.eqb_refl. reflexivity.
Qed.

Lemma caption_test_true lang type c :
  ~ caption_matches lang type c ->
  negb (String.eqb lang (LanguageCode c))
  || negb (String.eqb type (CaptionType c)) = true.
Proof.
  intros Hno. unfold caption_matches in Hno.
  destruct (String.eqb_spec lang (LanguageCode c));
    destruct (String.eqb_spec type (CaptionType c)); simpl; try reflexivity.
  exfalso. apply Hno. split; assumption.
Qed.

Lemma captionLoop_skip env s lang type before rest :
  Forall (fun c => ~ caption_matches lang type c) before ->
  captionLoop env s lang type (before ++ rest)
  = captionLoop env s lang type rest.
Proof.
  induction 1 as [|c before Hc _ IH]; [reflexivity|].
  simpl. rewrite (caption_test_true _ _ _ Hc). exact IH.
Qed.

(** C6. Where the captions of the primary file were read, a caption
    request with parameters lang and type is answered with the WebVTT form
    of the first stored caption that has this language and this type,
    under Content-Type text/vtt; and when no stored caption has both, the
    response is empty: no status, no body. *)
Theorem caption_serves_first_match
    (rs : storyRoutes) (env : Env) (s : Story) (r : Request)
    (captions : list VideoCaption) :
  storedCaptions rs s = Ok captions ->
  (forall before c after sub vtt,
     captions = before ++ c :: after ->
     Forall (fun c' => ~ caption_matches (Form_Get r "lang")
                          (Form_Get r "type") c') before ->
     caption_matches (Form_Get r "lang") (Form_Get r "type") c ->
     ReadSubs env (caption_Path env c (Path s)) = Ok sub ->
     WriteToWebVTT env sub = Ok vtt ->
     CaptionLang rs env s r = servesVtt vtt) /\
  (Forall (fun c => ~ caption_matches (Form_Get r "lang")
                      (Form_Get r "type") c) captions ->
   empty_response (CaptionLang rs env s r) /\
   written_status (CaptionLang rs env s r) = None).
Proof.
  intros Hstored. unfold CaptionLang, Caption. rewrite Hstored. split.
  - intros before c after sub vtt -> Hbefore Hc Hread Hwrite.
    rewrite (captionLoop_skip _ _ _ _ _ _ Hbefore). simpl.
    rewrite (caption_test_false _ _ _ Hc), Hread, Hwrite. reflexivity.
  - intros Hnone.
    rewrite <- (app_nil_r captions), (captionLoop_skip _ _ _ _ _ _ Hnone).
    split; reflexivity.
Qed.

Lemma caption_serves_first_match_witness :
  CaptionLang InMemory.rs (InMemory.env None []) InMemory.story1
    (InMemory.request [] [("lang", ["en"]); ("type", ["srt"])])
  = servesVtt ("WEBVTT" +:+ LF +:+ LF +:+ "/media/a.mp4.a.en.srt").
Proof.
  apply (proj1 (caption_serves_first_match InMemory.rs (InMemory.env None [])
                  InMemory.story1
                  (InMemory.request [] [("lang", ["en"]); ("type", ["srt"])])
                  [InMemory.caption_de; InMemory.caption_en] eq_refl)
           [InMemory.caption_de] InMemory.caption_en []
           "/media/a.mp4.a.en.srt").
  - reflexivity.
  - constructor; [|constructor]. intros [H _]. discriminate H.
  - split; reflexivity.
  - reflexivity.
  - reflexivity.
Defined.

(** *** The chapter file *)

Lemma append_assoc (s1 s2 s3 : string) :
  (s1 +:+ s2) +:+ s3 = s1 +:+ s2 +:+ s3.
Proof.
  induction s1 as [|c s1 IH]; [reflexivity|].
  change (String c ((s1 +:+ s2) +:+ s3) = String c (s1 +:+ s2 +:+ s3)).
  f_equal. exact IH.
Qed.

Lemma Join_cons_cons (a b : string) (l : list string) (sep : string) :
  strings.Join (a :: b :: l) sep = a +:+ sep +:+ strings.Join (b :: l) sep.
Proof. reflexivity. Qed.

(** The loop over the tags writes what joining the names writes. *)
Lemma append_tag_names_Join tags : forall prefix name,
  append_tag_names (prefix +:+ name) tags
  = prefix +:+ strings.Join (name :: map tag_Name tags) ", ".
Proof.
  induction tags as [|t tags IH]; intros prefix name; [reflexivity|].
  cbn [append_tag_names map]. rewrite Join_cons_cons.
  rewrite <- (append_assoc (prefix +:+ name) ", " (tag_Name t)).
  rewrite (append_assoc prefix name ", ").
  rewrite IH. now rewrite !append_assoc.
Qed.

Lemma getChapterVttTitle_text rs marker text :
  chapter_text rs marker text ->
  getChapterVttTitle rs marker = TitleOk text.
Proof.
  unfold getChapterVttTitle.
  intros [[Hne ->]|[Hempty (primaryTag & tags & Hfind & Htags & ->)]].
  - destruct (String.eqb_spec (sm_Title marker) ""); [contradiction|reflexivity].
  - rewrite Hempty, Hfind, Htags. simpl. f_equal.
    exact (append_tag_names_Join tags "" (tag_Name primaryTag)).
Qed.

Lemma chapterLoop_cues rs env markers texts :
  Forall2 (chapter_text rs) markers texts ->
  forall i vttLines,
    chapterLoop rs env i markers vttLines
    = inr (vttLines ++ concat (map cue_lines (chapter_cues env (i + 1) markers texts))).
Proof.
  induction 1 as [|marker text markers texts Htext _ IH]; intros i vttLines.
  - simpl. now rewrite app_nil_r.
  - cbn [chapterLoop]. rewrite (getChapterVttTitle_text _ _ _ Htext).
    rewrite IH. cbn [chapter_cues map concat cue_lines cue_number cue_start
                     cue_end cue_text].
    f_equal. rewrite <- !app_assoc. reflexivity.
Qed.

Lemma chapter_cues_length env markers texts :
  Forall2 (fun _ _ => True) markers texts ->
  forall first, length (chapter_cues env first markers texts) = length markers.
Proof.
  induction 1 as [|m t ms ts _ _ IH]; intros first; simpl; [reflexivity|].
  now rewrite IH.
Qed.

Lemma chapter_cues_lookup rs env markers texts :
  Forall2 (chapter_text rs) markers texts ->
  forall first (k : nat) marker,
    markers !! k = Some marker ->
    exists c,
      chapter_cues env first markers texts !! k = Some c /\
      cue_number c = first + Z.of_nat k /\
      cue_start c = GetVTTTime env (sm_Seconds marker) /\
      cue_end c = cue_start c /\
      chapter_text rs marker (cue_text c).
Proof.
  induction 1 as [|m t ms ts Ht _ IH]; intros first k marker Hk.
  - destruct k; discriminate.
  - destruct k as [|k]; simpl in Hk.
    + injection Hk as <-. eexists. split; [reflexivity|]. simpl.
      repeat split; [lia|exact Ht].
    + destruct (IH (first + 1) k marker Hk) as (c & Hc & Hn & Hs & He & Htxt).
      exists c. split; [exact Hc|]. repeat split; try assumption. lia.
Qed.

(** C10. Where the markers of the story and the tags of its untitled
    markers were read, the chapter VTT response for n markers begins with
    the line WEBVTT and holds exactly n cues in marker order, the k-th
    numbered k (from 1), its start equal to its end and both the VTT time
    of the marker's seconds, its text the marker's title when that is not
    empty and otherwise the primary tag's name followed by the names of
    the marker's other tags, joined with a comma and a space. *)
Theorem chapter_vtt_lists_markers
    (rs : storyRoutes) (env : Env) (story : Story) (r : Request)
    (markers : list StoryMarker) (texts : list string) :
  storyMarkerFinder_FindByStoryID rs (ID story) = Ok markers ->
  Forall2 (chapter_text rs) markers texts ->
  exists cues,
    VttChapter rs env story r = servesVtt (webvtt cues) /\
    (exists rest, webvtt cues = "WEBVTT" +:+ LF +:+ rest) /\
    length cues = length markers /\
    forall (k : nat) marker,
      markers !! k = Some marker ->
      exists c,
        cues !! k = Some c /\
        cue_number c = Z.of_nat k + 1 /\
        cue_start c = GetVTTTime env (sm_Seconds marker) /\
        cue_end c = cue_start c /\
        chapter_text rs marker (cue_text c).
Proof.
  intros Hfind Htexts.
  exists (chapter_cues env 1 markers texts). repeat split.
  - unfold VttChapter. rewrite Hfind.
    rewrite (chapterLoop_cues _ _ _ _ Htexts 0 ["WEBVTT"; ""]). reflexivity.
  - eexists. unfold webvtt. cbn [strings.Join]. reflexivity.
  - apply chapter_cues_length.
    eapply Forall2_impl; [exact Htexts|]. intros; exact I.
  - intros k marker Hk.
    destruct (chapter_cues_lookup _ env _ _ Htexts 1 k marker Hk)
      as (c & Hc & Hn & Hrest).
    exists c. split; [exact Hc|]. split; [lia|exact Hrest].
Qed.

Lemma chapter_vtt_lists_markers_witness :
  VttChapter InMemory.rs (InMemory.env None []) InMemory.story1
    (InMemory.request [] [])
  = servesVtt
      (strings.Join
         ["WEBVTT"; ""; "1"; "12s --> 12s"; "Intro"; "";
          "2"; "60s --> 60s"; "alpha, beta, gamma"; ""] LF).
Proof.
  destruct (chapter_vtt_lists_markers InMemory.rs (InMemory.env None [])
              InMemory.story1 (InMemory.request [] [])
              [InMemory.marker1; InMemory.marker2]
              ["Intro"; "alpha, beta, gamma"] eq_refl) as (cues & _ & _).
  - constructor; [|constructor; [|constructor]].
    + left. split; [discriminate|reflexivity].
    + right. split; [reflexivity|].
      exists InMemory.tag_a, [InMemory.tag_b; InMemory.tag_c].
      repeat split.
  - reflexivity.
Defined.

(** *** Sidecar artifacts *)

(** The marker loop reads [GetVTTTime] from the manager and nothing of the
    file system. *)
Lemma chapterLoop_disk rs env fileExists markers i vttLines :
  chapterLoop rs (with_FileExists fileExists env) i markers vttLines
  = chapterLoop rs env i markers vttLines.
Proof. reflexivity. Qed.

(** C4, as it holds.  The thumbs and sprite handlers pass the path of the
    generated artifact to the static file server, whether or not the file
    is there, and have no placeholder branch; the chapter file is built
    from the markers of the story on every request and does not depend on
    what is on disk; the placeholder image is the answer of the marker
    preview and marker screenshot handlers when their file is missing,
    and they serve the file when it is there. *)
Theorem sidecar_artifacts_as_served
    (rs : storyRoutes) (env : Env) (r : Request) :
  (forall story,
     VttThumbs env story r
     = [SetHeader "Content-Type" "text/vtt";
        ServeStaticFile
          (Story_GetSpriteVttFilePath env (spriteHash env story r))]) /\
  (forall story,
     VttSprite env story r
     = [ServeStaticFile
          (Story_GetSpriteImageFilePath env (spriteHash env story r))]) /\
  (forall story fileExists,
     VttChapter rs (with_FileExists fileExists env) story r
     = VttChapter rs env story r) /\
  (forall story storyMarker,
     storyMarkerFinder_Find rs (storyMarkerIdParam r) = Ok (Some storyMarker) ->
     let preview :=
       StoryMarkers_GetWebpPreviewPath env (GetHash env story)
         (int_of_float64 (sm_Seconds storyMarker)) in
     let shot :=
       StoryMarkers_GetScreenshotPath env (GetHash env story)
         (int_of_float64 (sm_Seconds storyMarker)) in
     StoryMarkerPreview rs env story r
     = (if FileExists env preview then [ServeStaticFile preview]
        else servePlaceholder env) /\
     StoryMarkerScreenshot rs env story r
     = (if FileExists env shot then [ServeStaticFile shot]
        else servePlaceholder env)).
Proof.
  split; [|split; [|split]].
  - intros [story|]; reflexivity.
  - intros [story|]; reflexivity.
  - intros story fileExists. unfold VttChapter.
    destruct (storyMarkerFinder_FindByStoryID rs (ID story)); [|reflexivity].
    now rewrite chapterLoop_disk.
  - intros story storyMarker Hfound. cbv zeta.
    unfold StoryMarkerPreview, StoryMarkerScreenshot, withStoryMarker.
    rewrite Hfound. cbv zeta.
    split; match goal with
           | |- context [FileExists env ?p] => destruct (FileExists env p)
           end; reflexivity.
Qed.

Lemma sidecar_artifacts_as_served_witness :
  StoryMarkerPreview InMemory.rs (InMemory.env None []) InMemory.story1
    (InMemory.request [("storyMarkerId", "7")] [])
  = servePlaceholder (InMemory.env None []).
Proof.
  apply (proj1 (proj2 (proj2 (proj2
           (sidecar_artifacts_as_served InMemory.rs (InMemory.env None [])
              (InMemory.request [("storyMarkerId", "7")] []))))
           InMemory.story1 InMemory.marker1 eq_refl)).
Defined.

(** C4, as worded, fails.  Nothing is on disk; the thumbs handler still
    hands the path of the missing file to the static file server, and the
    chapter handler answers with the VTT text it built; neither is the
    placeholder image. *)
Lemma vtt_routes_serve_no_placeholder :
  let env := InMemory.env None [] in
  let r := InMemory.request [("storyId", "3")] [] in
  FileExists env "/gen/o1_thumbs.vtt" = false /\
  VttThumbs env (Some InMemory.story1) r
  = [SetHeader "Content-Type" "text/vtt";
     ServeStaticFile "/gen/o1_thumbs.vtt"] /\
  VttThumbs env (Some InMemory.story1) r <> servePlaceholder env /\
  VttSprite env (Some InMemory.story1) r <> servePlaceholder env /\
  VttChapter InMemory.rs env InMemory.story_nofile r
  = servesVtt ("WEBVTT" +:+ LF) /\
  VttChapter InMemory.rs env InMemory.story_nofile r <> servePlaceholder env.
Proof.
  cbv zeta. repeat split; try reflexivity; discriminate.
Qed.

(** ** Properties of the mutations *)

(** *** Which events a resolver step can cause *)
Section TracesIn.

Context {Store : Type}.
Variable Q : event -> Prop.

Lemma traces_in_ret {A} (a : A) : traces_in Q (@ret Store A a).
Proof. intros st. constructor. Qed.

Lemma traces_in_fail {A} (e : error) : traces_in Q (@fail Store A e).
Proof. intros st. constructor. Qed.

Lemma traces_in_lift {A} (res : result A) : traces_in Q (@lift Store A res).
Proof. intros st. constructor. Qed.

Lemma traces_in_read {A} (f : Store -> result A) : traces_in Q (read f).
Proof. intros st. constructor. Qed.

Lemma traces_in_emit (ev : event) : Q ev -> traces_in Q (@emit Store ev).
Proof. intros Hev st. repeat constructor. exact Hev. Qed.

Lemma traces_in_write {A} (ev : event) (f : Store -> result A * Store) :
  Q ev -> traces_in Q (write ev f).
Proof.
  intros Hev st. unfold trace_of, write. destruct (f st).
  repeat constructor. exact Hev.
Qed.

Lemma traces_in_bind {A B} (m : M Store A) (k : A -> M Store B) :
  traces_in Q m -> (forall a, traces_in Q (k a)) -> traces_in Q (bind m k).
Proof.
  intros Hm Hk st. specialize (Hm st). unfold trace_of, bind in *.
  destruct (m st) as [[[a|e] st1] tr1]; simpl in *; [|exact Hm].
  specialize (Hk a st1). unfold trace_of in Hk.
  destruct (k a st1) as [[res st2] tr2]; simpl in *.
  apply Forall_app; split; assumption.
Qed.

Lemma traces_in_withTxn {A} (fn : M Store A) :
  Q TxnCommit -> Q TxnRollback -> traces_in Q fn -> traces_in Q (withTxn fn).
Proof.
  intros Hc Hr Hfn st. specialize (Hfn st). unfold trace_of, withTxn in *.
  destruct (fn st) as [[[a|e] st1] tr]; simpl in *;
    apply Forall_app; split; try assumption; repeat constructor; assumption.
Qed.

End TracesIn.

(** One step of a proof that a resolver stays inside a set of events. *)
Ltac traces_step :=
  match goal with
  | |- traces_in _ (bind _ _) => apply traces_in_bind; [|intros ?]
  | |- traces_in _ (ret _) => apply traces_in_ret
  | |- traces_in _ (fail _) => apply traces_in_fail
  | |- traces_in _ (lift _) => apply traces_in_lift
  | |- traces_in _ (read _) => apply traces_in_read
  | |- traces_in _ (emit _) => apply traces_in_emit
  | |- traces_in _ (write _ _) => apply traces_in_write
  | |- traces_in _ (withTxn _) => apply traces_in_withTxn
  | |- traces_in _ (match ?x with _ => _ end) => destruct x
  end.

Section UpdateTraces.

Context {Store : Type}.
Variable r : Resolver Store.
Variable Q : event -> Prop.
Hypothesis Q_update : forall id, Q (RepoUpdatePartial id).
Hypothesis Q_cover : forall id, Q (RepoUpdateCover id).
Hypothesis Q_commit : Q TxnCommit.
Hypothesis Q_rollback : Q TxnRollback.
Hypothesis Q_hook : forall id, Q (PostHook id).

Lemma storyUpdateCoverImage_traces s coverImageData :
  traces_in Q (storyUpdateCoverImage r s coverImageData).
Proof. unfold storyUpdateCoverImage. repeat traces_step. apply Q_cover. Qed.

Lemma storyUpdate_traces input translator :
  traces_in Q (storyUpdate r input translator).
Proof.
  unfold storyUpdate.
  repeat first [ apply storyUpdateCoverImage_traces
               | apply Q_update
               | traces_step ].
Qed.

Lemma getStory_traces id : traces_in Q (getStory r id).
Proof. unfold getStory. repeat traces_step; assumption. Qed.

Lemma StoryUpdate_traces input translator :
  traces_in Q (StoryUpdate r input translator).
Proof.
  unfold StoryUpdate.
  repeat first [ apply storyUpdate_traces | apply getStory_traces
               | apply Q_hook | assumption | traces_step ].
Qed.

End UpdateTraces.

Lemma serviceMerge_traces {Store} (r : Resolver Store) srcIDs destID options :
  traces_in (kill_only_from_merge r) (serviceMerge r srcIDs destID options).
Proof.
  intros st. unfold trace_of, serviceMerge.
  destruct (storyService_Merge r st srcIDs destID options)
    as [[res st1] tr] eqn:Hmerge; simpl.
  constructor; [discriminate|].
  apply List.Forall_forall. intros e He _.
  exists st, srcIDs, destID, options. rewrite Hmerge. exact He.
Qed.

Lemma StoryMerge_traces {Store} (r : Resolver Store) input translator :
  traces_in (kill_only_from_merge r) (StoryMerge r input translator).
Proof.
  unfold StoryMerge.
  repeat first [ apply serviceMerge_traces
               | apply storyUpdateCoverImage_traces
               | traces_step ];
    discriminate.
Qed.

(** *** The destroy mutations *)

Lemma kill_then_destroy_app ids1 ids2 :
  kill_then_destroy (ids1 ++ ids2)
  = kill_then_destroy ids1 ++ kill_then_destroy ids2.
Proof. unfold kill_then_destroy. apply flat_map_app. Qed.

Lemma in_kill_then_destroy e ids :
  In e (kill_then_destroy ids) ->
  exists id, In id ids /\ (e = KillRunningStreams id \/ e = ServiceDestroy id).
Proof.
  unfold kill_then_destroy. rewrite in_flat_map.
  intros (id & Hid & [<-|[<-|[]]]); exists id; auto.
Qed.

Lemma kill_in_kill_then_destroy id ids :
  In id ids -> In (KillRunningStreams id) (kill_then_destroy ids).
Proof.
  intros Hid. unfold kill_then_destroy. apply in_flat_map.
  exists id. split; [exact Hid|left; reflexivity].
Qed.

Lemma destroy_after_kill_pairs ids tail :
  Forall (fun e => is_kill e = false /\ is_write e = false) tail ->
  destroy_after_kill (kill_then_destroy ids ++ tail).
Proof.
  intros Htail. induction ids as [|a ids IH]; intros l1 l2 id Heq.
  - simpl in Heq. rewrite List.Forall_forall in Htail.
    destruct (Htail (ServiceDestroy id)) as [_ Hw]; [|discriminate].
    rewrite Heq. apply in_elt.
  - simpl in Heq. destruct l1 as [|x [|y l1]]; simpl in Heq.
    + discriminate.
    + injection Heq as Hx Hid _. subst x id. left. reflexivity.
    + injection Heq as Hx Hy Hrest. subst x y.
      right. right. exact (IH _ _ _ Hrest).
Qed.

Lemma kill_precedes_commit ids tail id :
  Forall (fun e => is_kill e = false /\ is_write e = false) tail ->
  In (ServiceDestroy id) (kill_then_destroy ids ++ tail) ->
  In TxnCommit (kill_then_destroy ids ++ tail) ->
  precedes (KillRunningStreams id) TxnCommit (kill_then_destroy ids ++ tail).
Proof.
  intros Htail Hdestroy Hcommit. rewrite List.Forall_forall in Htail.
  apply in_app_or in Hdestroy. destruct Hdestroy as [Hd|Hd].
  2:{ destruct (Htail _ Hd) as [_ Hw]. discriminate. }
  apply in_kill_then_destroy in Hd.
  destruct Hd as (id' & Hid & [Hk|Hk]); [discriminate|]. injection Hk as <-.
  apply in_app_or in Hcommit. destruct Hcommit as [Hc|Hc].
  { apply in_kill_then_destroy in Hc. destruct Hc as (? & _ & [?|?]); discriminate. }
  destruct (in_split _ _ (kill_in_kill_then_destroy _ _ Hid)) as (a & b & ->).
  destruct (in_split _ _ Hc) as (c & d & ->).
  exists a, (b ++ c), d.
  rewrite <- !List.app_assoc. reflexivity.
Qed.

Lemma storiesDestroyLoop_trace {Store} (r : Resolver Store)
    deleteGenerated deleteFile storyIDs : forall stories st,
  exists done,
    trace_of (storiesDestroyLoop r storyIDs deleteGenerated deleteFile stories) st
    = kill_then_destroy done.
Proof.
  induction storyIDs as [|id storyIDs IH]; intros stories st.
  - exists []. reflexivity.
  - unfold trace_of. cbn [storiesDestroyLoop]. unfold bind at 1, read.
    destruct (Story_Find r st id) as [[story|]|e]; try (exists []; reflexivity).
    unfold bind, emit, write.
    destruct (storyService_Destroy r st story deleteGenerated deleteFile)
      as [[[]|e] st1] eqn:Hdestroy.
    + destruct (IH (stories ++ [story]) st1) as [done Hdone].
      unfold trace_of in Hdone.
      destruct (storiesDestroyLoop r storyIDs deleteGenerated deleteFile
                  (stories ++ [story]) st1) as [[res st2] tr].
      simpl in *. subst tr. exists (ID story :: done). reflexivity.
    + exists [ID story]. reflexivity.
Qed.

Lemma StoriesDestroy_shaped {Store} (r : Resolver Store) input st :
  destroy_shaped (trace_of (StoriesDestroy r input) st).
Proof.
  unfold StoriesDestroy, trace_of.
  destruct (StringSliceToIntSlice (ssd_Ids input)) as [storyIDs|e].
  2:{ exists [], []. split; [reflexivity|constructor]. }
  unfold withTxn.
  destruct (storiesDestroyLoop_trace r (IsTrue (ssd_DeleteGenerated input))
              (IsTrue (ssd_DeleteFile input)) storyIDs [] st) as [done Hdone].
  unfold trace_of in Hdone.
  destruct (storiesDestroyLoop r storyIDs _ _ [] st) as [[[stories|e] st1] tr];
    simpl in *; subst tr.
  - exists done, (TxnCommit :: FileDeleterCommit
                    :: map (fun story => PostHook (ID story)) stories).
    split; [now rewrite <- app_assoc|].
    do 2 (constructor; [split; reflexivity|]).
    apply List.Forall_forall. intros e He. apply in_map_iff in He.
    destruct He as (story & <- & _). split; reflexivity.
  - exists done, [TxnRollback; FileDeleterRollback].
    split; [now rewrite <- app_assoc|]. repeat constructor.
Qed.

Lemma StoryDestroy_shaped {Store} (r : Resolver Store) input st :
  destroy_shaped (trace_of (StoryDestroy r input) st).
Proof.
  unfold StoryDestroy, trace_of.
  destruct (strconv.Atoi (sd_ID input)) as [storyID|].
  2:{ exists [], []. split; [reflexivity|constructor]. }
  unfold withTxn, bind, read, emit, write, fail, ret.
  destruct (Story_Find r st storyID) as [[s|]|e]; simpl.
  - destruct (storyService_Destroy r st s _ _) as [[[]|e] st1]; simpl.
    + exists [ID s], [TxnCommit; FileDeleterCommit; PostHook (ID s)].
      split; [reflexivity|repeat constructor].
    + exists [ID s], [TxnRollback; FileDeleterRollback].
      split; [reflexivity|repeat constructor].
  - exists [], [TxnRollback; FileDeleterRollback].
    split; [reflexivity|repeat constructor].
  - exists [], [TxnRollback; FileDeleterRollback].
    split; [reflexivity|repeat constructor].
Qed.

(** A successful destroy made the destroy call and committed. *)
Lemma StoryDestroy_ok {Store} (r : Resolver Store) input st :
  fst (fst (StoryDestroy r input st)) = Ok true ->
  exists id,
    In (ServiceDestroy id) (trace_of (StoryDestroy r input) st) /\
    In TxnCommit (trace_of (StoryDestroy r input) st).
Proof.
  unfold StoryDestroy, trace_of.
  destruct (strconv.Atoi (sd_ID input)) as [storyID|]; [|discriminate].
  unfold withTxn, bind, read, emit, write, fail, ret.
  destruct (Story_Find r st storyID) as [[s|]|e]; simpl; try discriminate.
  destruct (storyService_Destroy r st s _ _) as [[[]|e] st1]; simpl;
    try discriminate.
  intros _. exists (ID s). split; simpl; auto.
Qed.

(** C1, as it holds.  StoryDestroy and StoriesDestroy kill the running
    streams of every story they found before they call the destroy
    service for it, and so before the transaction commits.  StoryUpdate
    issues no kill for any input, a change of PrimaryFileID included.
    StoryMerge issues no kill of its own: a kill in its trace is one the
    merge of the story service returned. *)
Theorem kill_precedes_destroy_only
    {Store : Type} (r : Resolver Store) (st : Store) :
  (forall input,
     destroy_after_kill (trace_of (StoryDestroy r input) st) /\
     (forall id,
        In (ServiceDestroy id) (trace_of (StoryDestroy r input) st) ->
        In TxnCommit (trace_of (StoryDestroy r input) st) ->
        precedes (KillRunningStreams id) TxnCommit
          (trace_of (StoryDestroy r input) st)) /\
     (fst (fst (StoryDestroy r input st)) = Ok true ->
      exists id,
        In (ServiceDestroy id) (trace_of (StoryDestroy r input) st) /\
        In TxnCommit (trace_of (StoryDestroy r input) st))) /\
  (forall input,
     destroy_after_kill (trace_of (StoriesDestroy r input) st) /\
     (forall id,
        In (ServiceDestroy id) (trace_of (StoriesDestroy r input) st) ->
        In TxnCommit (trace_of (StoriesDestroy r input) st) ->
        precedes (KillRunningStreams id) TxnCommit
          (trace_of (StoriesDestroy r input) st))) /\
  (forall input translator,
     Forall not_kill (trace_of (StoryUpdate r input translator) st)) /\
  (forall input translator,
     Forall (kill_only_from_merge r)
       (trace_of (StoryMerge r input translator) st)).
Proof.
  split; [|split; [|split]].
  - intros input.
    destruct (StoryDestroy_shaped r input st) as (done & tail & Heq & Htail).
    split; [|split].
    + rewrite Heq. apply destroy_after_kill_pairs, Htail.
    + intros id. rewrite Heq. apply kill_precedes_commit, Htail.
    + exact (StoryDestroy_ok r input st).
  - intros input.
    destruct (StoriesDestroy_shaped r input st) as (done & tail & Heq & Htail).
    split.
    + rewrite Heq. apply destroy_after_kill_pairs, Htail.
    + intros id. rewrite Heq. apply kill_precedes_commit, Htail.
  - intros input translator.
    apply (StoryUpdate_traces r not_kill); intros; reflexivity.
  - intros input translator. apply StoryMerge_traces.
Qed.

Lemma kill_precedes_destroy_only_witness :
  precedes (KillRunningStreams 2) TxnCommit
    (trace_of
       (StoryDestroy InMemory.resolver
          {| sd_ID := "2"; sd_DeleteFile := None; sd_DeleteGenerated := None |})
       InMemory.store).
Proof.
  apply (proj1 (proj2 (proj1 (kill_precedes_destroy_only
           InMemory.resolver InMemory.store)
           {| sd_ID := "2"; sd_DeleteFile := None;
              sd_DeleteGenerated := None |}))).
  - vm_compute. right. left. reflexivity.
  - vm_compute. right. right. left. reflexivity.
Defined.

(** C1, as worded, fails.  The update moves the primary file of story 1
    from file 10 to file 12, a file of that story; the update is written
    and the transaction commits, and no kill was issued. *)
Lemma primary_file_change_commits_without_kill :
  let input := InMemory.setPrimaryFile "1" "12" in
  let outcome :=
    StoryUpdate InMemory.resolver input InMemory.translator InMemory.store in
  PrimaryFileID <$> (fst <$> InMemory.store !! 1) = Some (Some 10) /\
  PrimaryFileID <$> (fst <$> snd (fst outcome) !! 1) = Some (Some 12) /\
  snd outcome = [RepoUpdatePartial 1; TxnCommit; PostHook 1; TxnCommit] /\
  forall id, ~ In (KillRunningStreams id) (snd outcome).
Proof.
  cbv zeta.
  assert (Htrace :
    snd (StoryUpdate InMemory.resolver (InMemory.setPrimaryFile "1" "12")
           InMemory.translator InMemory.store)
    = [RepoUpdatePartial 1; TxnCommit; PostHook 1; TxnCommit])
    by (vm_compute; reflexivity).
  split; [vm_compute; reflexivity|].
  split; [vm_compute; reflexivity|].
  split; [exact Htrace|].
  intros id. rewrite Htrace. simpl. intros [H|[H|[H|[H|[]]]]]; discriminate H.
Qed.

(** *** Updating the primary file *)

Lemma storyPartialFromInput_primary input translator updatedStory :
  storyPartialFromInput input translator = Ok updatedStory ->
  fileIDPtrFromString translator (in_PrimaryFileID input)
  = Ok (sp_PrimaryFileID updatedStory).
Proof.
  unfold storyPartialFromInput.
  repeat match goal with
         | |- context [match ?x with Ok _ => _ | Err _ => _ end] =>
             destruct x; try discriminate
         end.
  intros Heq. injection Heq as <-. reflexivity.
Qed.

Lemma findFile_absent files newPrimaryFileID : forall f,
  Forall (fun ff => vf_ID ff <> newPrimaryFileID) files ->
  findFile files newPrimaryFileID f = f.
Proof.
  induction files as [|ff files IH]; intros f Hfiles; [reflexivity|].
  inversion Hfiles as [|? ? Hff Hrest]; subst. simpl.
  destruct (Z.eqb_spec (vf_ID ff) newPrimaryFileID); [contradiction|].
  apply IH, Hrest.
Qed.

(** C9. When the input of StoryUpdate sets PrimaryFileID to a file id
    that is not among the files of the story, the update returns an error,
    no write reaches the repository, and the store is as it was. *)
Theorem foreign_primary_file_is_rejected
    {Store : Type} (r : Resolver Store) (st : Store)
    (input : StoryUpdateInput) (translator : changesetTranslator)
    (newPrimaryFileID : Z) :
  fileIDPtrFromString translator (in_PrimaryFileID input)
  = Ok (Some newPrimaryFileID) ->
  (forall storyID originalStory files,
     strconv.Atoi (in_ID input) = Some storyID ->
     Story_Find r st storyID = Ok (Some originalStory) ->
     Story_LoadFiles r st originalStory = Ok files ->
     Forall (fun ff => vf_ID ff <> newPrimaryFileID) files) ->
  exists err,
    storyUpdate r input translator st = (Err err, st, []) /\
    StoryUpdate r input translator st = (Err err, st, [TxnRollback]).
Proof.
  intros Hprimary Hforeign.
  assert (Hinner : exists err,
            storyUpdate r input translator st = (Err err, st, [])).
  { unfold storyUpdate.
    destruct (strconv.Atoi (in_ID input)) as [storyID|] eqn:Hid;
      [|eexists; reflexivity].
    unfold bind at 1, read.
    destruct (Story_Find r st storyID) as [[originalStory|]|e] eqn:Hfind;
      try (eexists; reflexivity).
    unfold bind at 1, lift.
    destruct (storyPartialFromInput input translator) as [updatedStory|e]
      eqn:Hpartial; [|eexists; reflexivity].
    apply storyPartialFromInput_primary in Hpartial.
    rewrite Hprimary in Hpartial. injection Hpartial as Hpartial.
    rewrite <- Hpartial.
    specialize (Hforeign storyID originalStory).
    unfold bind, read, fail, ret.
    destruct (Set_ (sp_Title updatedStory)
              && String.eqb (Value (sp_Title updatedStory)) "");
      destruct (Story_LoadFiles r st originalStory) as [files|e] eqn:Hfiles;
      simpl; rewrite ?Hfiles; simpl; try (eexists; reflexivity).
    - pose proof (findFile_absent _ _ None
                    (Hforeign files eq_refl Hfind eq_refl)) as Hnone.
      destruct (length files =? 0)%nat; simpl; rewrite ?Hfiles; simpl;
        rewrite ?Hnone; eexists; reflexivity.
    - pose proof (findFile_absent _ _ None
                    (Hforeign files eq_refl Hfind eq_refl)) as Hnone.
      rewrite Hnone. eexists; reflexivity. }
  destruct Hinner as [err Hinner]. exists err. split; [exact Hinner|].
  unfold StoryUpdate, bind, withTxn. rewrite Hinner. reflexivity.
Qed.

Lemma foreign_primary_file_is_rejected_witness :
  exists err,
    storyUpdate InMemory.resolver (InMemory.setPrimaryFile "1" "11")
      InMemory.translator InMemory.store = (Err err, InMemory.store, []) /\
    StoryUpdate InMemory.resolver (InMemory.setPrimaryFile "1" "11")
      InMemory.translator InMemory.store
    = (Err err, InMemory.store, [TxnRollback]).
Proof.
  apply (foreign_primary_file_is_rejected InMemory.resolver InMemory.store
           (InMemory.setPrimaryFile "1" "11") InMemory.translator 11).
  - reflexivity.
  - intros storyID originalStory files Hid Hfind Hfiles.
    vm_compute in Hid. injection Hid as <-.
    vm_compute in Hfind. injection Hfind as <-.
    vm_compute in Hfiles. injection Hfiles as <-.
    repeat constructor; discriminate.
Defined.

(** ** Further properties of the routes *)

Lemma reply_readFailed env err : reply env (readFailed err).
Proof.
  unfold readFailed. destruct (is_canceled err); constructor.
  right. right. left. reflexivity.
Qed.

Lemma reply_static_file env filepath : reply env [ServeStaticFile filepath].
Proof. apply reply_serve; [reflexivity|discriminate]. Qed.

Lemma reply_placeholder env : reply env (servePlaceholder env).
Proof. apply reply_serve_typed; [reflexivity|discriminate]. Qed.

Lemma reply_serviceUnavailable env : reply env serviceUnavailable.
Proof. constructor. right. right. right. reflexivity. Qed.

Lemma streamTranscode_reply env streamType story r :
  reply env (streamTranscode env streamType story r).
Proof.
  unfold streamTranscode.
  destruct (StreamManager env) eqn:Hsm; [|apply reply_serviceUnavailable].
  destruct (Files_Primary story); [|constructor].
  apply reply_serve; [reflexivity|]. intros _. congruence.
Qed.

Lemma streamManifest_reply env streamType logName story r :
  reply env (streamManifest env streamType logName story r).
Proof.
  unfold streamManifest.
  destruct (StreamManager env) eqn:Hsm; [|apply reply_serviceUnavailable].
  destruct (Files_Primary story); [|constructor].
  apply reply_serve; [reflexivity|]. intros _. congruence.
Qed.

Lemma streamSegment_reply env streamType story r :
  reply env (streamSegment env streamType story r).
Proof.
  unfold streamSegment.
  destruct (StreamManager env) eqn:Hsm; [|apply reply_serviceUnavailable].
  destruct (Files_Primary story); [|constructor].
  apply reply_serve; [reflexivity|]. intros _. congruence.
Qed.

Lemma StreamMKV_reply env story r : reply env (StreamMKV env story r).
Proof.
  unfold StreamMKV. destruct (Files_Primary story); [|constructor].
  cbv zeta. destruct (negb _); [constructor|apply streamTranscode_reply].
Qed.

Lemma chapterLoop_reply rs env markers : forall i vttLines response,
  chapterLoop rs env i markers vttLines = inl response -> reply env response.
Proof.
  induction markers as [|marker markers IH]; intros i vttLines response;
    [discriminate|].
  cbn [chapterLoop]. destruct (getChapterVttTitle rs marker) as [title|err|].
  - apply IH.
  - pose proof (reply_readFailed env err) as Hfailed. unfold readFailed in Hfailed.
    destruct (is_canceled err); intros Heq; injection Heq as <-; exact Hfailed.
  - intros Heq. injection Heq as <-. constructor.
Qed.

Lemma VttChapter_reply rs env story r : reply env (VttChapter rs env story r).
Proof.
  unfold VttChapter.
  destruct (storyMarkerFinder_FindByStoryID rs (ID story)) as [markers|err];
    [|apply (reply_readFailed env err)].
  destruct (chapterLoop rs env 0 markers ["WEBVTT"; ""]) as [response|lines]
    eqn:Hloop.
  - exact (chapterLoop_reply _ _ _ _ _ _ Hloop).
  - apply reply_serve_typed; [reflexivity|discriminate].
Qed.

Lemma captionLoop_reply env s lang ext captions :
  reply env (captionLoop env s lang ext captions).
Proof.
  induction captions as [|c captions IH]; [constructor|].
  cbn [captionLoop]. destruct (_ || _); [exact IH|].
  destruct (ReadSubs env _) as [sub|err].
  - destruct (WriteToWebVTT env sub) as [buf|err].
    + apply reply_serve_typed; [reflexivity|discriminate].
    + constructor. right. right. left. reflexivity.
  - constructor. right. right. left. reflexivity.
Qed.

Lemma Caption_reply rs env lang ext s r :
  reply env (Caption rs env lang ext s r).
Proof.
  unfold Caption. destruct (storedCaptions rs s) as [captions|err].
  - apply captionLoop_reply.
  - apply (reply_readFailed env err).
Qed.

Lemma withStoryMarker_reply rs env r serve :
  (forall storyMarker, reply env (serve storyMarker)) ->
  reply env (withStoryMarker rs r serve).
Proof.
  intros Hserve. unfold withStoryMarker.
  destruct (storyMarkerFinder_Find rs (storyMarkerIdParam r))
    as [[storyMarker|]|err].
  - apply Hserve.
  - constructor. right. left. reflexivity.
  - apply (reply_readFailed env err).
Qed.

Lemma StoryCtx_reply rs env next r :
  (forall story, reply env (next story r)) ->
  reply env (StoryCtx rs next r).
Proof.
  intros Hnext. unfold StoryCtx.
  destruct (strconv.Atoi (URLParam r "storyId")) as [storyID|].
  2:{ constructor. left. reflexivity. }
  destruct (storyFinder_Find rs storyID) as [found|].
  2:{ constructor. right. left. reflexivity. }
  destruct (LoadPrimaryFile rs found) as [story|err].
  - apply Hnext.
  - constructor. right. left. reflexivity.
Qed.

(** Every route answers in one of the forms of [reply]. *)
Lemma Routes_reply rs env rt r : reply env (Routes rs env rt r).
Proof.
  destruct rt; cbn [Routes];
    try (apply StoryCtx_reply; intros story);
    try apply streamTranscode_reply;
    try apply streamManifest_reply;
    try apply streamSegment_reply;
    try apply StreamMKV_reply;
    try apply VttChapter_reply;
    try apply Caption_reply;
    try (apply withStoryMarker_reply; intros storyMarker; cbv zeta;
         try destruct (negb _);
         first [apply reply_placeholder | apply reply_static_file]);
    try apply reply_static_file;
    try (apply reply_serve; [reflexivity|discriminate]);
    try (apply reply_serve_typed; [reflexivity|discriminate]).
  unfold InteractiveCSV. cbv zeta.
  destruct (ConvertFunscriptToCSV env _) as [csv|err].
  - apply reply_serve; [reflexivity|discriminate].
  - constructor. right. right. left. reflexivity.
Qed.


(** X2. A request makes at most one call on the stream manager, on
    whatever route, and none at all while live transcoding is disabled. *)
Theorem routes_call_stream_manager_at_most_once
    (rs : storyRoutes) (env : Env) (rt : route) (r : Request) :
  (length (List.filter is_stream_manager_call (Routes rs env rt r)) <= 1)%nat /\
  (StreamManager env = None ->
   no_stream_manager_call (Routes rs env rt r)).
Proof.
  destruct (Routes_reply rs env rt r)
    as [msg code Hcode| | | |e He Hal|ct e He Hal].
  - split; [simpl; lia|]. intros _. apply Error_no_stream_manager_call.
  - split; [simpl; lia|]. intros _. repeat constructor.
  - split; [simpl; lia|]. intros _. constructor.
  - split; [simpl; lia|]. intros _. repeat constructor.
  - split.
    + cbn [List.filter]. destruct (is_stream_manager_call e); simpl; lia.
    + intros Hoff. constructor; [|constructor].
      destruct (is_stream_manager_call e) eqn:Hcall; [|reflexivity].
      exfalso. exact (Hal Hcall Hoff).
  - split.
    + cbn [List.filter is_stream_manager_call].
      destruct (is_stream_manager_call e); simpl; lia.
    + intros Hoff. constructor; [reflexivity|]. constructor; [|constructor].
      destruct (is_stream_manager_call e) eqn:Hcall; [|reflexivity].
      exfalso. exact (Hal Hcall Hoff).
Qed.

Lemma routes_call_stream_manager_at_most_once_witness :
  no_stream_manager_call
    (Routes InMemory.rs (InMemory.env None []) stream_mpd
       (InMemory.request [("storyId", "1")] [])).
Proof.
  apply (proj2 (routes_call_stream_manager_at_most_once InMemory.rs
                  (InMemory.env None []) stream_mpd
                  (InMemory.request [("storyId", "1")] []))).
  reflexivity.
Defined.

(** X3. The middleware runs the next handler only with a story whose
    primary file was loaded: a story that is found but whose primary file
    fails to load is answered 404 like a story that is not found, and in
    every other case the answer is 400, 404, or the answer of the next
    handler on the story as loaded. *)
Theorem story_ctx_runs_next_on_loaded_story
    (rs : storyRoutes) (next : Story -> Request -> list effect)
    (r : Request) :
  (forall storyID found err,
     strconv.Atoi (URLParam r "storyId") = Some storyID ->
     storyFinder_Find rs storyID = Some found ->
     LoadPrimaryFile rs found = Err err ->
     StoryCtx rs next r = http.Error "Not Found" 404) /\
  (StoryCtx rs next r = http.Error "Bad Request" 400 \/
   StoryCtx rs next r = http.Error "Not Found" 404 \/
   exists storyID found story,
     strconv.Atoi (URLParam r "storyId") = Some storyID /\
     storyFinder_Find rs storyID = Some found /\
     LoadPrimaryFile rs found = Ok story /\
     StoryCtx rs next r = next story r).
Proof.
  unfold StoryCtx. split.
  - intros storyID found err -> -> ->. reflexivity.
  - destruct (strconv.Atoi (URLParam r "storyId")) as [storyID|] eqn:Hid;
      [|left; reflexivity].
    destruct (storyFinder_Find rs storyID) as [found|] eqn:Hfind;
      [|right; left; reflexivity].
    destruct (LoadPrimaryFile rs found) as [story|err] eqn:Hload;
      [|right; left; reflexivity].
    right. right. exists storyID, found, story.
    repeat split; try assumption; reflexivity.
Qed.

Lemma story_ctx_runs_next_on_loaded_story_witness :
  StoryCtx InMemoryMore.rsUnloadable (fun story r => [Panic])
    (InMemory.request [("storyId", "1")] [])
  = http.Error "Not Found" 404.
Proof.
  apply (proj1 (story_ctx_runs_next_on_loaded_story
                  InMemoryMore.rsUnloadable (fun story r => [Panic])
                  (InMemory.request [("storyId", "1")] []))
           1 InMemory.story1 (Failure "file missing"));
    reflexivity.
Defined.

(** X4. A failed read of the markers, of the captions or of a marker is
    answered alike by the five handlers that read: nothing at all when
    the error is a canceled context, also when it is wrapped, and
    otherwise 500 with the text of the error. *)
Theorem failed_reads_are_500_unless_canceled
    (rs : storyRoutes) (env : Env) (story : Story) (r : Request)
    (err : error) :
  (storyMarkerFinder_FindByStoryID rs (ID story) = Err err ->
   VttChapter rs env story r = readFailed err) /\
  (storedCaptions rs story = Err err ->
   CaptionLang rs env story r = readFailed err) /\
  (storyMarkerFinder_Find rs (storyMarkerIdParam r) = Err err ->
   StoryMarkerStream rs env story r = readFailed err /\
   StoryMarkerPreview rs env story r = readFailed err /\
   StoryMarkerScreenshot rs env story r = readFailed err) /\
  (is_canceled err = true -> forall msg,
     empty_response (readFailed err) /\
     empty_response (readFailed (Wrap msg err))) /\
  (is_canceled err = false ->
   readFailed err = http.Error (error_msg err) 500).
Proof.
  split; [|split; [|split; [|split]]].
  - intros Hread. unfold VttChapter. rewrite Hread. reflexivity.
  - intros Hread. unfold CaptionLang, Caption. rewrite Hread. reflexivity.
  - intros Hread.
    unfold StoryMarkerStream, StoryMarkerPreview, StoryMarkerScreenshot,
      withStoryMarker.
    rewrite Hread. repeat split.
  - intros Hc msg. unfold empty_response, readFailed. simpl.
    rewrite Hc. split; reflexivity.
  - intros Hc. unfold readFailed. rewrite Hc. reflexivity.
Qed.

Lemma failed_reads_are_500_unless_canceled_witness :
  VttChapter InMemoryMore.rsLocked (InMemory.env None []) InMemory.story1
    (InMemory.request [("storyMarkerId", "7")] [])
  = http.Error "database is locked" 500 /\
  CaptionLang InMemoryMore.rsLocked (InMemory.env None []) InMemory.story1
    (InMemory.request [("storyMarkerId", "7")] [])
  = http.Error "database is locked" 500 /\
  StoryMarkerPreview InMemoryMore.rsLocked (InMemory.env None [])
    InMemory.story1 (InMemory.request [("storyMarkerId", "7")] [])
  = http.Error "database is locked" 500.
Proof.
  destruct (failed_reads_are_500_unless_canceled InMemoryMore.rsLocked
              (InMemory.env None []) InMemory.story1
              (InMemory.request [("storyMarkerId", "7")] [])
              (Failure "database is locked"))
    as (Hchapter & Hcaption & Hmarker & _ & Hplain).
  destruct (Hmarker eq_refl) as (_ & Hpreview & _).
  rewrite (Hchapter eq_refl), (Hcaption eq_refl), Hpreview,
    (Hplain eq_refl).
  repeat split.
Defined.

(** X5. The caption that decides a caption request is the first one with
    the language and type asked for: when its subtitle file cannot be
    read, or cannot be written as WebVTT, the answer is 500 with the text
    of the error, whatever captions come after it. *)
Theorem caption_first_match_failure_is_500
    (rs : storyRoutes) (env : Env) (s : Story) (r : Request)
    (before after : list VideoCaption) (c : VideoCaption) (err : error) :
  storedCaptions rs s = Ok (before ++ c :: after) ->
  Forall (fun c' => ~ caption_matches (Form_Get r "lang")
                       (Form_Get r "type") c') before ->
  caption_matches (Form_Get r "lang") (Form_Get r "type") c ->
  (ReadSubs env (caption_Path env c (Path s)) = Err err ->
   CaptionLang rs env s r = http.Error (error_msg err) 500) /\
  (forall sub,
     ReadSubs env (caption_Path env c (Path s)) = Ok sub ->
     WriteToWebVTT env sub = Err err ->
     CaptionLang rs env s r = http.Error (error_msg err) 500).
Proof.
  intros Hstored Hbefore Hc. unfold CaptionLang, Caption. rewrite Hstored.
  rewrite (captionLoop_skip _ _ _ _ _ _ Hbefore). cbn [captionLoop].
  rewrite (caption_test_false _ _ _ Hc). split.
  - intros ->. reflexivity.
  - intros sub -> ->. reflexivity.
Qed.

Lemma caption_first_match_failure_is_500_witness :
  CaptionLang InMemory.rs InMemoryMore.envNoSubs InMemory.story1
    (InMemory.request [] [("lang", ["de"]); ("type", ["vtt"])])
  = http.Error "open: no such file" 500.
Proof.
  apply (proj1 (caption_first_match_failure_is_500 InMemory.rs
                  InMemoryMore.envNoSubs InMemory.story1
                  (InMemory.request [] [("lang", ["de"]); ("type", ["vtt"])])
                  [] [InMemory.caption_en] InMemory.caption_de
                  (Failure "open: no such file")
                  eq_refl (List.Forall_nil _) (conj eq_refl eq_refl))).
  reflexivity.
Defined.


(** The marker loop over markers whose titles are found goes on with the
    next index and the lines of their cues. *)
Lemma chapterLoop_app rs env before texts :
  Forall2 (chapter_text rs) before texts ->
  forall rest i vttLines,
    chapterLoop rs env i (before ++ rest) vttLines
    = chapterLoop rs env (i + Z.of_nat (length before)) rest
        (vttLines
           ++ concat (map cue_lines (chapter_cues env (i + 1) before texts))).
Proof.
  induction 1 as [|marker text before texts Htext _ IH]; intros rest i vttLines.
  - simpl. rewrite app_nil_r. f_equal. lia.
  - cbn [app chapterLoop]. rewrite (getChapterVttTitle_text _ _ _ Htext).
    rewrite IH. cbn [chapter_cues map concat cue_lines cue_number cue_start
                     cue_end cue_text length].
    f_equal; [lia|]. rewrite <- !List.app_assoc. reflexivity.
Qed.

(** X6. The chapter file is written whole or not at all.  When the tags
    of an untitled marker cannot be read, the answer is that of a failed
    read (500, or nothing on a canceled context), and when its primary
    tag does not exist the handler panics; in each case none of the cues
    of the markers before it is written. *)
Theorem chapter_file_is_all_or_nothing
    (rs : storyRoutes) (env : Env) (story : Story) (r : Request)
    (before after : list StoryMarker) (marker : StoryMarker)
    (texts : list string) :
  storyMarkerFinder_FindByStoryID rs (ID story)
  = Ok (before ++ marker :: after) ->
  Forall2 (chapter_text rs) before texts ->
  sm_Title marker = "" ->
  (forall err,
     tagFinder_Find rs (sm_PrimaryTagID marker) = Err err ->
     VttChapter rs env story r = readFailed err) /\
  (forall primaryTag err,
     tagFinder_Find rs (sm_PrimaryTagID marker) = Ok (Some primaryTag) ->
     tagFinder_FindByStoryMarkerID rs (sm_ID marker) = Err err ->
     VttChapter rs env story r = readFailed err) /\
  (tagFinder_Find rs (sm_PrimaryTagID marker) = Ok None ->
   VttChapter rs env story r = [Panic]).
Proof.
  intros Hfind Hbefore Huntitled. unfold VttChapter. rewrite Hfind.
  rewrite (chapterLoop_app _ _ _ _ Hbefore). cbn [chapterLoop].
  unfold getChapterVttTitle, readFailed. rewrite Huntitled. cbn [String.eqb negb].
  split; [|split].
  - intros err ->. destruct (is_canceled err); reflexivity.
  - intros primaryTag err -> ->. destruct (is_canceled err); reflexivity.
  - intros ->. reflexivity.
Qed.

Lemma chapter_file_is_all_or_nothing_witness :
  VttChapter (InMemoryMore.rsTags (fun id => Ok None)) (InMemory.env None [])
    InMemory.story1 (InMemory.request [] [])
  = [Panic].
Proof.
  assert (Hbefore : Forall2 (chapter_text (InMemoryMore.rsTags (fun id => Ok None)))
                      [InMemory.marker1] ["Intro"]).
  { constructor; [|constructor]. left. split; [discriminate|reflexivity]. }
  apply (proj2 (proj2 (chapter_file_is_all_or_nothing
                  (InMemoryMore.rsTags (fun id => Ok None))
                  (InMemory.env None []) InMemory.story1
                  (InMemory.request [] [])
                  [InMemory.marker1] [] InMemory.marker2 ["Intro"]
                  eq_refl Hbefore eq_refl))).
  reflexivity.
Defined.

(** X7. The marker routes do not reject a marker id that Atoi rejects:
    the error of the conversion is dropped and the marker looked up is the
    value Atoi returned with it.  After a syntax error that is marker 0,
    so the answer is that of the same request for marker 0; after a range
    error it is the marker of the largest or of the smallest int. *)
Theorem malformed_marker_id_reads_marker_zero
    (rs : storyRoutes) (env : Env) (story : Story) (r : Request) :
  (snd (strconv.ParseInt (URLParam r "storyMarkerId"))
   = Some strconv.ErrSyntax ->
   StoryMarkerStream rs env story r
   = StoryMarkerStream rs env story (withURLParam "storyMarkerId" "0" r) /\
   StoryMarkerPreview rs env story r
   = StoryMarkerPreview rs env story (withURLParam "storyMarkerId" "0" r) /\
   StoryMarkerScreenshot rs env story r
   = StoryMarkerScreenshot rs env story
       (withURLParam "storyMarkerId" "0" r)) /\
  (snd (strconv.ParseInt (URLParam r "storyMarkerId"))
   = Some strconv.ErrRange ->
   answers_as_marker rs env story r "9223372036854775807" \/
   answers_as_marker rs env story r "-9223372036854775808").
Proof.
  assert (Hsame : forall id,
            storyMarkerIdParam r = strconv.AtoiValue id ->
            answers_as_marker rs env story r id).
  { intros id Hid.
    assert (Hparam : storyMarkerIdParam r
                     = storyMarkerIdParam (withURLParam "storyMarkerId" id r)).
    { rewrite Hid. unfold storyMarkerIdParam, URLParam, withURLParam. simpl.
      rewrite lookup_insert_eq. reflexivity. }
    unfold answers_as_marker, StoryMarkerStream, StoryMarkerPreview,
      StoryMarkerScreenshot, withStoryMarker.
    rewrite <- Hparam. repeat split. }
  destruct (ParseInt_error (URLParam r "storyMarkerId")) as [Hsyntax Hrange].
  split.
  - intros Hbad. apply (Hsame "0"). exact (Hsyntax Hbad).
  - intros Hbad. destruct (Hrange Hbad) as [Hmax|Hmin].
    + left. apply Hsame. exact Hmax.
    + right. apply Hsame. exact Hmin.
Qed.

Lemma malformed_marker_id_reads_marker_zero_witness :
  StoryMarkerStream InMemory.rs (InMemory.env None []) InMemory.story1
    (InMemory.request [("storyMarkerId", "seven")] [])
  = StoryMarkerStream InMemory.rs (InMemory.env None []) InMemory.story1
      (withURLParam "storyMarkerId" "0"
         (InMemory.request [("storyMarkerId", "seven")] [])) /\
  (answers_as_marker InMemory.rs (InMemory.env None []) InMemory.story1
     (InMemory.request [("storyMarkerId", "9223372036854775808")] [])
     "9223372036854775807" \/
   answers_as_marker InMemory.rs (InMemory.env None []) InMemory.story1
     (InMemory.request [("storyMarkerId", "9223372036854775808")] [])
     "-9223372036854775808").
Proof.
  split.
  - apply (proj1 (malformed_marker_id_reads_marker_zero InMemory.rs
                    (InMemory.env None []) InMemory.story1
                    (InMemory.request [("storyMarkerId", "seven")] []))).
    reflexivity.
  - apply (proj2 (malformed_marker_id_reads_marker_zero InMemory.rs
                    (InMemory.env None []) InMemory.story1
                    (InMemory.request
                       [("storyMarkerId", "9223372036854775808")] []))).
    reflexivity.
Defined.

(** ** Further properties of the mutations *)

(** X8. An update that sets the title to the empty string on a story
    without files is refused: the error says that the title must be set,
    and nothing is written. *)
Theorem empty_title_needs_files
    {Store : Type} (r : Resolver Store) (st : Store)
    (input : StoryUpdateInput) (translator : changesetTranslator)
    (storyID : Z) (originalStory : Story) (updatedStory : StoryPartial) :
  strconv.Atoi (in_ID input) = Some storyID ->
  Story_Find r st storyID = Ok (Some originalStory) ->
  storyPartialFromInput input translator = Ok updatedStory ->
  Set_ (sp_Title updatedStory) = true ->
  Value (sp_Title updatedStory) = "" ->
  Story_LoadFiles r st originalStory = Ok [] ->
  storyUpdate r input translator st
  = (Err (Failure "title must be set if story has no files"), st, []) /\
  StoryUpdate r input translator st
  = (Err (Failure "title must be set if story has no files"), st,
     [TxnRollback]).
Proof.
  intros Hid Hfind Hpartial Hset Hvalue Hfiles.
  assert (Hinner : storyUpdate r input translator st
                   = (Err (Failure "title must be set if story has no files"),
                      st, [])).
  { unfold storyUpdate. rewrite Hid. unfold bind at 1, read. rewrite Hfind.
    unfold bind at 1, lift. rewrite Hpartial.
    rewrite Hset, Hvalue. unfold bind, read, fail. simpl.
    rewrite Hfiles. reflexivity. }
  split; [exact Hinner|].
  unfold StoryUpdate, bind, withTxn. rewrite Hinner. reflexivity.
Qed.

Lemma empty_title_needs_files_witness :
  storyUpdate InMemory.resolver (InMemoryMore.setTitle "3" "")
    InMemory.translator InMemory.store
  = (Err (Failure "title must be set if story has no files"),
     InMemory.store, []).
Proof.
  apply (proj1 (empty_title_needs_files InMemory.resolver InMemory.store
                  (InMemoryMore.setTitle "3" "") InMemory.translator
                  3 InMemory.story_nofile
                  {| sp_Title := {| Value := ""; Null := false; Set_ := true |};
                     sp_Code := unset ""; sp_Details := unset "";
                     sp_Director := unset ""; sp_Rating := unset 0;
                     sp_PlayDuration := unset 0%float;
                     sp_Organized := unset false;
                     sp_StashIDs := None; sp_Date := unset "";
                     sp_StudioID := unset 0; sp_URLs := None;
                     sp_PrimaryFileID := None; sp_PerformerIDs := None;
                     sp_TagIDs := None; sp_GalleryIDs := None;
                     sp_MovieIDs := None |}
                  eq_refl eq_refl eq_refl eq_refl eq_refl eq_refl)).
Defined.

(** *** Post hooks and the file deleter *)

Lemma hooks_after_commit_prefix pre rest :
  Forall not_hook pre -> hooks_after_commit (pre ++ TxnCommit :: rest).
Proof.
  intros Hpre. induction Hpre as [|p pre Hp _ IH]; intros l1 l2 id Heq.
  - destruct l1 as [|x l1]; [discriminate|].
    injection Heq as <- _. left. reflexivity.
  - destruct l1 as [|x l1]; simpl in Heq.
    + injection Heq as -> _. discriminate Hp.
    + injection Heq as _ Hrest. right. exact (IH _ _ _ Hrest).
Qed.

Lemma hooks_after_commit_none tr :
  Forall not_hook tr -> hooks_after_commit tr.
Proof.
  intros Htr l1 l2 id ->. rewrite List.Forall_forall in Htr.
  specialize (Htr (PostHook id) (in_elt _ _ _)). discriminate Htr.
Qed.

Lemma storiesUpdateLoop_traces {Store} (r : Resolver Store) Q :
  (forall id, Q (RepoUpdatePartial id)) ->
  (forall id, Q (RepoUpdateCover id)) ->
  forall input acc, traces_in Q (storiesUpdateLoop r input acc).
Proof.
  intros Hu Hc input. induction input as [|[story translator] input IH];
    intros acc; cbn [storiesUpdateLoop].
  - apply traces_in_ret.
  - apply traces_in_bind; [apply storyUpdate_traces; assumption|].
    intros thisStory. apply IH.
Qed.

Lemma kill_then_destroy_not_hook done :
  Forall not_hook (kill_then_destroy done).
Proof.
  apply List.Forall_forall. intros e He.
  apply in_kill_then_destroy in He. destruct He as (id & _ & [->| ->]);
    reflexivity.
Qed.

Lemma storiesDestroyLoop_run {Store} (r : Resolver Store)
    deleteGenerated deleteFile storyIDs : forall stories st res st1 tr,
  storiesDestroyLoop r storyIDs deleteGenerated deleteFile stories st
  = (res, st1, tr) ->
  (exists found,
     res = Ok (stories ++ found) /\
     length found = length storyIDs /\
     tr = kill_then_destroy (map ID found)) \/
  (exists e done, res = Err e /\ tr = kill_then_destroy done).
Proof.
  induction storyIDs as [|id storyIDs IH]; intros stories st res st1 tr Hrun.
  - injection Hrun as <- _ <-. left. exists []. rewrite app_nil_r.
    repeat split.
  - cbn [storiesDestroyLoop] in Hrun. unfold bind, read, emit, write, fail in Hrun.
    destruct (Story_Find r st id) as [[story|]|e].
    + destruct (storyService_Destroy r st story deleteGenerated deleteFile)
        as [[[]|e] st2].
      * destruct (storiesDestroyLoop r storyIDs deleteGenerated deleteFile
                    (stories ++ [story]) st2) as [[res' st3] tr'] eqn:Hrest.
        apply IH in Hrest. injection Hrun as <- _ <-.
        destruct Hrest as [(found & -> & Hlen & ->)|(e & done & -> & ->)].
        -- left. exists (story :: found).
           split; [now rewrite <- List.app_assoc|].
           split; [simpl; now rewrite Hlen|reflexivity].
        -- right. exists e, (ID story :: done). split; reflexivity.
      * injection Hrun as <- _ <-. right. exists e, [ID story].
        split; reflexivity.
    + injection Hrun as <- _ <-. right. eexists. exists [].
      split; reflexivity.
    + injection Hrun as <- _ <-. right. exists e, []. split; reflexivity.
Qed.

Lemma StringSliceToIntSlice_length ss ns :
  StringSliceToIntSlice ss = Ok ns -> length ns = length ss.
Proof.
  revert ns. induction ss as [|s ss IH]; intros ns; simpl.
  - intros H. injection H as <-. reflexivity.
  - destruct (strconv.Atoi s); [|discriminate].
    destruct (StringSliceToIntSlice ss) as [ns'|]; [|discriminate].
    intros H. injection H as <-. simpl. now rewrite (IH ns').
Qed.

Lemma StoriesDestroy_run {Store} (r : Resolver Store) input st :
  (exists e, fst (fst (StoriesDestroy r input st)) = Err e /\
             trace_of (StoriesDestroy r input) st = []) \/
  (exists e done,
     fst (fst (StoriesDestroy r input st)) = Err e /\
     trace_of (StoriesDestroy r input) st
     = kill_then_destroy done ++ [TxnRollback; FileDeleterRollback]) \/
  (exists stories,
     length stories = length (ssd_Ids input) /\
     fst (fst (StoriesDestroy r input st)) = Ok true /\
     trace_of (StoriesDestroy r input) st
     = kill_then_destroy (map ID stories) ++ [TxnCommit; FileDeleterCommit]
       ++ map PostHook (map ID stories)).
Proof.
  unfold StoriesDestroy, trace_of.
  destruct (StringSliceToIntSlice (ssd_Ids input)) as [storyIDs|e] eqn:Hids.
  2:{ left. eexists. split; reflexivity. }
  apply StringSliceToIntSlice_length in Hids.
  unfold withTxn.
  destruct (storiesDestroyLoop r storyIDs (IsTrue (ssd_DeleteGenerated input))
              (IsTrue (ssd_DeleteFile input)) [] st) as [[res st1] tr] eqn:Hrun.
  apply storiesDestroyLoop_run in Hrun.
  destruct Hrun as [(found & -> & Hlen & ->)|(e & done & -> & ->)]; simpl.
  - right. right. exists found. split; [congruence|]. split; [reflexivity|].
    rewrite <- List.app_assoc. simpl. rewrite List.map_map. reflexivity.
  - right. left. exists e, done. split; [reflexivity|].
    now rewrite <- List.app_assoc.
Qed.

Lemma StoriesDestroy_outcome {Store} (r : Resolver Store) input st :
  destroy_outcome (fst (fst (StoriesDestroy r input st)))
    (trace_of (StoriesDestroy r input) st).
Proof.
  destruct (StoriesDestroy_run r input st)
    as [(e & -> & ->)|[(e & done & -> & ->)|(stories & _ & -> & ->)]].
  - left. exists e. split; reflexivity.
  - right. left. exists e, done. split; reflexivity.
  - right. right. exists (map ID stories). split; reflexivity.
Qed.

Lemma StoryDestroy_outcome {Store} (r : Resolver Store) input st :
  destroy_outcome (fst (fst (StoryDestroy r input st)))
    (trace_of (StoryDestroy r input) st).
Proof.
  unfold StoryDestroy, trace_of.
  destruct (strconv.Atoi (sd_ID input)) as [storyID|].
  2:{ left. eexists. split; reflexivity. }
  unfold withTxn, bind, read, emit, write, fail, ret.
  destruct (Story_Find r st storyID) as [[s|]|e]; simpl.
  - destruct (storyService_Destroy r st s _ _) as [[[]|e] st1]; simpl.
    + right. right. exists [ID s]. split; reflexivity.
    + right. left. exists e, [ID s]. split; reflexivity.
  - right. left. eexists. exists []. split; reflexivity.
  - right. left. exists e, []. split; reflexivity.
Qed.

Lemma destroy_outcome_hooks res tr :
  destroy_outcome res tr -> hooks_after_commit tr.
Proof.
  intros [(e & _ & ->)|[(e & done & _ & ->)|(done & _ & ->)]].
  - apply hooks_after_commit_none. constructor.
  - apply hooks_after_commit_none. apply Forall_app. split.
    + apply kill_then_destroy_not_hook.
    + repeat constructor.
  - apply hooks_after_commit_prefix, kill_then_destroy_not_hook.
Qed.

(** X9. Post hooks run outside of the transaction and only once it has
    committed: in the trace of StoryUpdate, StoriesUpdate, StoryDestroy
    and StoriesDestroy every post hook comes after a commit, so a
    mutation that is rolled back runs no hook. *)
Theorem post_hooks_follow_commit
    {Store : Type} (r : Resolver Store) (st : Store) :
  (forall input translator,
     hooks_after_commit (trace_of (StoryUpdate r input translator) st)) /\
  (forall input,
     hooks_after_commit (trace_of (StoriesUpdate r input) st)) /\
  (forall input,
     hooks_after_commit (trace_of (StoryDestroy r input) st)) /\
  (forall input,
     hooks_after_commit (trace_of (StoriesDestroy r input) st)).
Proof.
  split; [|split; [|split]].
  - intros input translator.
    pose proof (storyUpdate_traces r not_hook
                  (fun _ => eq_refl) (fun _ => eq_refl) input translator st)
      as Hinner.
    unfold trace_of, StoryUpdate, bind, withTxn in *.
    destruct (storyUpdate r input translator st) as [[[story|e] st1] tr];
      simpl in *.
    + destruct (getStory r (ID story) st1) as [[res st2] tr2]. simpl.
      rewrite <- List.app_assoc. apply hooks_after_commit_prefix, Hinner.
    + apply hooks_after_commit_none, Forall_app. split; [exact Hinner|].
      repeat constructor.
  - intros input.
    pose proof (storiesUpdateLoop_traces r not_hook
                  (fun _ => eq_refl) (fun _ => eq_refl) input [] st)
      as Hinner.
    unfold trace_of, StoriesUpdate, bind, withTxn in *.
    destruct (storiesUpdateLoop r input [] st) as [[[stories|e] st1] tr];
      simpl in *.
    + destruct (storiesRefetchLoop r stories [] st1) as [[res st2] tr2]. simpl.
      rewrite <- List.app_assoc. apply hooks_after_commit_prefix, Hinner.
    + apply hooks_after_commit_none, Forall_app. split; [exact Hinner|].
      repeat constructor.
  - intros input. exact (destroy_outcome_hooks _ _ (StoryDestroy_outcome r input st)).
  - intros input.
    exact (destroy_outcome_hooks _ _ (StoriesDestroy_outcome r input st)).
Qed.

Lemma post_hooks_follow_commit_witness :
  In TxnCommit
    [KillRunningStreams 2; ServiceDestroy 2; KillRunningStreams 3;
     ServiceDestroy 3; TxnCommit; FileDeleterCommit; PostHook 2].
Proof.
  apply (proj2 (proj2 (proj2 (post_hooks_follow_commit InMemory.resolver
                                InMemory.store)))
           {| ssd_Ids := ["2"; "3"]; ssd_DeleteFile := None;
              ssd_DeleteGenerated := None |}
           [KillRunningStreams 2; ServiceDestroy 2; KillRunningStreams 3;
            ServiceDestroy 3; TxnCommit; FileDeleterCommit; PostHook 2]
           [] 3).
  vm_compute. reflexivity.
Defined.

Lemma kill_then_destroy_only e done :
  In e (kill_then_destroy done) -> is_kill e = true \/ is_write e = true.
Proof.
  intros He. apply in_kill_then_destroy in He.
  destruct He as (id & _ & [->| ->]); [left|right]; reflexivity.
Qed.

Lemma in_destroy_trace e done tail hooks :
  is_kill e = false -> is_write e = false -> is_hook e = false ->
  In e (kill_then_destroy done ++ tail ++ map PostHook hooks) <-> In e tail.
Proof.
  intros Hk Hw Hh. rewrite !in_app_iff. split; [|tauto].
  intros [H|[H|H]]; [|exact H|].
  - destruct (kill_then_destroy_only _ _ H); congruence.
  - apply in_map_iff in H. destruct H as (id & <- & _). discriminate.
Qed.

Lemma destroy_outcome_deleter res tr :
  destroy_outcome res tr ->
  (res = Ok true <-> In FileDeleterCommit tr) /\
  (In FileDeleterCommit tr <-> In TxnCommit tr) /\
  (In FileDeleterRollback tr <-> In TxnRollback tr) /\
  ~ (In FileDeleterCommit tr /\ In FileDeleterRollback tr).
Proof.
  intros [(e & -> & ->)|[(e & done & -> & ->)|(done & -> & ->)]].
  - simpl. intuition discriminate.
  - change [TxnRollback; FileDeleterRollback]
      with ([TxnRollback; FileDeleterRollback] ++ map PostHook []).
    rewrite !in_destroy_trace by reflexivity. simpl.
    intuition discriminate.
  - rewrite !in_destroy_trace by reflexivity. simpl.
    intuition discriminate.
Qed.

(** X10. In StoryDestroy and StoriesDestroy the file deleter follows the
    transaction: the deletions are committed exactly when the transaction
    committed, which is exactly when the mutation returns true, they are
    rolled back exactly when the transaction was rolled back, and never
    both. *)
Theorem file_deleter_follows_transaction
    {Store : Type} (r : Resolver Store) (st : Store) :
  (forall input,
     (fst (fst (StoryDestroy r input st)) = Ok true
      <-> In FileDeleterCommit (trace_of (StoryDestroy r input) st)) /\
     (In FileDeleterCommit (trace_of (StoryDestroy r input) st)
      <-> In TxnCommit (trace_of (StoryDestroy r input) st)) /\
     (In FileDeleterRollback (trace_of (StoryDestroy r input) st)
      <-> In TxnRollback (trace_of (StoryDestroy r input) st)) /\
     ~ (In FileDeleterCommit (trace_of (StoryDestroy r input) st) /\
        In FileDeleterRollback (trace_of (StoryDestroy r input) st))) /\
  (forall input,
     (fst (fst (StoriesDestroy r input st)) = Ok true
      <-> In FileDeleterCommit (trace_of (StoriesDestroy r input) st)) /\
     (In FileDeleterCommit (trace_of (StoriesDestroy r input) st)
      <-> In TxnCommit (trace_of (StoriesDestroy r input) st)) /\
     (In FileDeleterRollback (trace_of (StoriesDestroy r input) st)
      <-> In TxnRollback (trace_of (StoriesDestroy r input) st)) /\
     ~ (In FileDeleterCommit (trace_of (StoriesDestroy r input) st) /\
        In FileDeleterRollback (trace_of (StoriesDestroy r input) st))).
Proof.
  split; intros input.
  - exact (destroy_outcome_deleter _ _ (StoryDestroy_outcome r input st)).
  - exact (destroy_outcome_deleter _ _ (StoriesDestroy_outcome r input st)).
Qed.

Lemma file_deleter_follows_transaction_witness :
  In FileDeleterRollback
    (trace_of
       (StoriesDestroy InMemory.resolver
          {| ssd_Ids := ["2"; "9"]; ssd_DeleteFile := None;
             ssd_DeleteGenerated := None |})
       InMemory.store).
Proof.
  apply (proj2 (proj1 (proj2 (proj2 (proj2
           (file_deleter_follows_transaction InMemory.resolver InMemory.store)
           {| ssd_Ids := ["2"; "9"]; ssd_DeleteFile := None;
              ssd_DeleteGenerated := None |}))))).
  vm_compute. right. right. left. reflexivity.
Defined.

Lemma StringSliceToIntSlice_parsed ids : forall storyIDs,
  StringSliceToIntSlice ids = Ok storyIDs -> parsed_ids ids storyIDs.
Proof.
  induction ids as [|id ids IH]; intros storyIDs; simpl.
  - intros H. injection H as <-. constructor.
  - destruct (strconv.Atoi id) as [n|] eqn:Hid; [|discriminate].
    destruct (StringSliceToIntSlice ids) as [ns|]; [|discriminate].
    intros H. injection H as <-. constructor; [exact Hid|].
    apply IH. reflexivity.
Qed.

Lemma storiesDestroyLoop_in_turn {Store} (r : Resolver Store)
    deleteGenerated deleteFile storyIDs : forall stories st found st1 tr,
  storiesDestroyLoop r storyIDs deleteGenerated deleteFile stories st
  = (Ok found, st1, tr) ->
  exists new,
    found = stories ++ new /\
    destroyed_in_turn r deleteGenerated deleteFile st storyIDs new st1 /\
    tr = kill_then_destroy (map ID new).
Proof.
  induction storyIDs as [|id storyIDs IH]; intros stories st found st1 tr Hrun.
  - injection Hrun as <- <- <-. exists []. rewrite app_nil_r.
    repeat split.
  - cbn [storiesDestroyLoop] in Hrun.
    unfold bind, read, emit, write, fail in Hrun.
    destruct (Story_Find r st id) as [[story|]|e] eqn:Hfind;
      [|discriminate ..].
    destruct (storyService_Destroy r st story deleteGenerated deleteFile)
      as [[[]|e] st2] eqn:Hdestroy; [|discriminate].
    destruct (storiesDestroyLoop r storyIDs deleteGenerated deleteFile
                (stories ++ [story]) st2) as [[res' st3] tr'] eqn:Hrest.
    injection Hrun as -> -> <-.
    apply IH in Hrest. destruct Hrest as (new & -> & Hturn & ->).
    exists (story :: new).
    split; [now rewrite <- List.app_assoc|].
    split; [|reflexivity].
    simpl. split; [exact Hfind|]. exists st2. split; [exact Hdestroy|exact Hturn].
Qed.

Lemma destroyed_in_turn_length {Store} (r : Resolver Store)
    deleteGenerated deleteFile storyIDs : forall st stories st2,
  destroyed_in_turn r deleteGenerated deleteFile st storyIDs stories st2 ->
  length stories = length storyIDs.
Proof.
  induction storyIDs as [|id storyIDs IH]; intros st [|story stories] st2;
    simpl; try contradiction; [reflexivity|].
  intros (_ & st1 & _ & Hrest). f_equal. exact (IH _ _ _ Hrest).
Qed.

(** X11. When StoriesDestroy returns true it has, for every id of the
    input and in the order of the input, found the story of that id,
    killed the running streams of the story and then destroyed it, all
    before the one commit, and after the commit it has run one post hook
    per story, in the same order.  The k-th story is the one Find gives
    for the k-th id in the store left by the destroys before it, and the
    store returned is the one the last destroy left. *)
Theorem stories_destroy_covers_every_id
    {Store : Type} (r : Resolver Store) (st : Store)
    (input : StoriesDestroyInput) :
  fst (fst (StoriesDestroy r input st)) = Ok true ->
  exists storyIDs stories,
    parsed_ids (ssd_Ids input) storyIDs /\
    destroyed_in_turn r (IsTrue (ssd_DeleteGenerated input))
      (IsTrue (ssd_DeleteFile input)) st storyIDs stories
      (snd (fst (StoriesDestroy r input st))) /\
    length stories = length (ssd_Ids input) /\
    trace_of (StoriesDestroy r input) st
    = kill_then_destroy (map ID stories)
      ++ [TxnCommit; FileDeleterCommit]
      ++ map PostHook (map ID stories).
Proof.
  unfold StoriesDestroy, trace_of.
  destruct (StringSliceToIntSlice (ssd_Ids input)) as [storyIDs|e] eqn:Hids;
    [|discriminate].
  unfold withTxn.
  destruct (storiesDestroyLoop r storyIDs (IsTrue (ssd_DeleteGenerated input))
              (IsTrue (ssd_DeleteFile input)) [] st)
    as [[[found|e] st1] tr] eqn:Hrun; [|discriminate].
  intros _. simpl.
  apply storiesDestroyLoop_in_turn in Hrun.
  destruct Hrun as (new & -> & Hturn & ->). simpl.
  exists storyIDs, new.
  split; [exact (StringSliceToIntSlice_parsed _ _ Hids)|].
  split; [exact Hturn|]. split.
  - rewrite (destroyed_in_turn_length _ _ _ _ _ _ _ Hturn).
    exact (StringSliceToIntSlice_length _ _ Hids).
  - rewrite <- List.app_assoc. simpl. rewrite List.map_map. reflexivity.
Qed.

Lemma stories_destroy_covers_every_id_witness :
  exists storyIDs stories,
    parsed_ids ["2"; "3"] storyIDs /\
    destroyed_in_turn InMemory.resolver false false InMemory.store
      storyIDs stories
      (snd (fst (StoriesDestroy InMemory.resolver
                   {| ssd_Ids := ["2"; "3"]; ssd_DeleteFile := None;
                      ssd_DeleteGenerated := None |}
                   InMemory.store))) /\
    length stories = 2%nat /\
    trace_of
      (StoriesDestroy InMemory.resolver
         {| ssd_Ids := ["2"; "3"]; ssd_DeleteFile := None;
            ssd_DeleteGenerated := None |})
      InMemory.store
    = kill_then_destroy (map ID stories)
      ++ [TxnCommit; FileDeleterCommit]
      ++ map PostHook (map ID stories).
Proof.
  apply (stories_destroy_covers_every_id InMemory.resolver InMemory.store
           {| ssd_Ids := ["2"; "3"]; ssd_DeleteFile := None;
              ssd_DeleteGenerated := None |}).
  vm_compute. reflexivity.
Defined.

(** *** How an update runs *)

Lemma bind_inv {Store A B} (m : M Store A) (k : A -> M Store B)
    st res st1 tr :
  bind m k st = (res, st1, tr) ->
  (exists e, m st = (Err e, st1, tr) /\ res = Err e) \/
  (exists a st0 tr0 tr1,
     m st = (Ok a, st0, tr0) /\ k a st0 = (res, st1, tr1) /\
     tr = tr0 ++ tr1).
Proof.
  unfold bind. destruct (m st) as [[[a|e] st0] tr0].
  - destruct (k a st0) as [[res' st'] tr1] eqn:Hk.
    intros H. injection H as <- <- <-. right.
    exists a, st0, tr0, tr1. repeat split. exact Hk.
  - intros H. injection H as <- <- <-. left. exists e. split; reflexivity.
Qed.

Lemma pure_ret {Store A} (a : A) : pure_step (@ret Store A a).
Proof. intros st. eexists. reflexivity. Qed.

Lemma pure_fail {Store A} (e : error) : pure_step (@fail Store A e).
Proof. intros st. eexists. reflexivity. Qed.

Lemma pure_read {Store A} (f : Store -> result A) : pure_step (read f).
Proof. intros st. eexists. reflexivity. Qed.

Lemma pure_lift {Store A} (x : result A) : pure_step (@lift Store A x).
Proof. intros st. eexists. reflexivity. Qed.

Lemma pure_bind {Store A B} (m : M Store A) (k : A -> M Store B) :
  pure_step m -> (forall a, pure_step (k a)) -> pure_step (bind m k).
Proof.
  intros Hm Hk st. destruct (Hm st) as [[a|e] Hst]; unfold bind; rewrite Hst.
  - destruct (Hk a st) as [res ->]. eexists. reflexivity.
  - eexists. reflexivity.
Qed.

Lemma pure_inv {Store A} (m : M Store A) st res st1 tr :
  pure_step m -> m st = (res, st1, tr) -> st1 = st /\ tr = [].
Proof.
  intros Hm Hrun. destruct (Hm st) as [res' Hst]. rewrite Hst in Hrun.
  injection Hrun as _ <- <-. split; reflexivity.
Qed.

Lemma findFile_found files newPrimaryFileID : forall acc f,
  findFile files newPrimaryFileID acc = Some f ->
  acc = Some f \/ (In f files /\ vf_ID f = newPrimaryFileID).
Proof.
  induction files as [|ff files IH]; intros acc f; simpl.
  - intros ->. left. reflexivity.
  - destruct (Z.eqb_spec (vf_ID ff) newPrimaryFileID) as [Heq|_]; intros H.
    + destruct (IH _ _ H) as [Hacc|[Hin Hid]].
      * injection Hacc as ->. right. split; [left; reflexivity|exact Heq].
      * right. split; [right; exact Hin|exact Hid].
    + destruct (IH _ _ H) as [Hacc|[Hin Hid]]; [left; exact Hacc|].
      right. split; [right; exact Hin|exact Hid].
Qed.

Lemma storyUpdate_run {Store} (r : Resolver Store) input translator
    st res st1 tr :
  storyUpdate r input translator st = (res, st1, tr) ->
  storyUpdate_outcome r input translator st res st1 tr.
Proof.
  intros Hrun. unfold storyUpdate in Hrun.
  destruct (strconv.Atoi (in_ID input)) as [storyID|] eqn:Hid.
  2:{ injection Hrun as <- <- <-. left. eexists. repeat split. }
  apply bind_inv in Hrun.
  destruct Hrun as [(e & Hm & ->)|(found & st0 & tr0 & tr1 & Hm & Hrun & ->)];
    unfold read in Hm.
  { injection Hm as _ <- <-. left. exists e. repeat split. }
  injection Hm as Hfind <- <-.
  destruct found as [originalStory|].
  2:{ injection Hrun as <- <- <-. left. eexists. repeat split. }
  apply bind_inv in Hrun.
  destruct Hrun as [(e & Hm & ->)|(updatedStory & st0 & tr0 & tr2 & Hm & Hrun & ->)];
    unfold lift in Hm.
  { injection Hm as _ <- <-. left. exists e. repeat split. }
  injection Hm as Hpartial <- <-.
  (* the title check *)
  apply bind_inv in Hrun.
  destruct Hrun as [(e & Hm & ->)|(u & st0 & tr0 & tr3 & Hm & Hrun & ->)].
  { apply pure_inv in Hm.
    - destruct Hm as [-> ->]. left. exists e. repeat split.
    - destruct (_ && _); [|apply pure_ret].
      apply pure_bind; [apply pure_read|]. intros files.
      destruct (_ =? _)%nat; [apply pure_fail|apply pure_ret]. }
  apply pure_inv in Hm.
  2:{ destruct (_ && _); [|apply pure_ret].
      apply pure_bind; [apply pure_read|]. intros files.
      destruct (_ =? _)%nat; [apply pure_fail|apply pure_ret]. }
  destruct Hm as [-> ->].
  (* the primary file check *)
  apply bind_inv in Hrun.
  assert (Hpure : pure_step
            (match sp_PrimaryFileID updatedStory with
             | Some newPrimaryFileID =>
                 bind (read (fun st => Story_LoadFiles r st originalStory))
                   (fun files =>
                      match findFile files newPrimaryFileID None with
                      | Some _ => ret ()
                      | None =>
                          fail (Failure ("file with id "
                                         +:+ strconv.Itoa newPrimaryFileID
                                         +:+ " not associated with story"))
                      end)
             | None => @ret Store unit ()
             end)).
  { destruct (sp_PrimaryFileID updatedStory); [|apply pure_ret].
    apply pure_bind; [apply pure_read|]. intros files.
    destruct (findFile _ _ _); [apply pure_ret|apply pure_fail]. }
  destruct Hrun as [(e & Hm & ->)|(u' & st0 & tr0 & tr4 & Hm & Hrun & ->)].
  { apply (pure_inv _ _ _ _ _ Hpure) in Hm. destruct Hm as [-> ->].
    left. exists e. repeat split. }
  assert (Hprimary : forall newPrimaryFileID,
            sp_PrimaryFileID updatedStory = Some newPrimaryFileID ->
            exists files f,
              Story_LoadFiles r st originalStory = Ok files /\
              In f files /\ vf_ID f = newPrimaryFileID).
  { intros fid Hfid. rewrite Hfid in Hm. unfold bind, read in Hm.
    destruct (Story_LoadFiles r st originalStory) as [files|e];
      [|discriminate].
    destruct (findFile files fid None) as [f|] eqn:Hf; [|discriminate].
    apply findFile_found in Hf. destruct Hf as [Hf|Hf]; [discriminate|].
    exists files, f. split; [reflexivity|exact Hf]. }
  apply (pure_inv _ _ _ _ _ Hpure) in Hm. destruct Hm as [-> ->].
  clear Hpure.
  (* the cover image *)
  apply bind_inv in Hrun.
  assert (Hpure : pure_step
            (match in_CoverImage input with
             | Some image =>
                 match ProcessImageInput r image with
                 | Ok data => ret data
                 | Err err => fail (Wrap "processing cover image" err)
                 end
             | None => @ret Store string ""
             end)).
  { destruct (in_CoverImage input) as [image|]; [|apply pure_ret].
    destruct (ProcessImageInput r image); [apply pure_ret|apply pure_fail]. }
  destruct Hrun as [(e & Hm & ->)|(data & st0 & tr0 & tr5 & Hm & Hrun & ->)].
  { apply (pure_inv _ _ _ _ _ Hpure) in Hm. destruct Hm as [-> ->].
    left. exists e. repeat split. }
  assert (Hcover : data <> "" ->
            exists image,
              in_CoverImage input = Some image /\
              ProcessImageInput r image = Ok data).
  { intros Hdata. destruct (in_CoverImage input) as [image|].
    - exists image. split; [reflexivity|].
      destruct (ProcessImageInput r image) as [data'|]; [|discriminate].
      injection Hm as -> _ _. reflexivity.
    - injection Hm as <- _ _. contradiction. }
  apply (pure_inv _ _ _ _ _ Hpure) in Hm. destruct Hm as [-> ->].
  clear Hpure.
  (* the writes *)
  right. exists storyID, originalStory, updatedStory, data.
  do 5 (split; [assumption|]).
  unfold bind, write, storyUpdateCoverImage, ret in Hrun.
  destruct (Story_UpdatePartial r st storyID updatedStory) as [[story|e] ust].
  - destruct data as [|c data].
    + simpl in Hrun. injection Hrun as <- <- <-. repeat split.
    + change (String.eqb (String c data) "") with false. cbv iota.
      change (0 <? Z.of_nat (String.length (String c data)))
        with (0 <? Z.of_nat (S (String.length data))) in Hrun.
      replace (0 <? Z.of_nat (S (String.length data))) with true in Hrun
        by (symmetry; apply Z.ltb_lt; lia).
      unfold write in Hrun.
      destruct (Story_UpdateCover r ust (ID story) (String c data))
        as [[[]|e] cst]; injection Hrun as <- <- <-; repeat split.
  - injection Hrun as <- <- <-. repeat split.
Qed.

(** X12. An update writes the cover only from cover image data: when the
    trace of storyUpdate holds an UpdateCover call, the input carried a
    cover image and processing it gave data that is not empty. *)
Theorem cover_written_only_with_cover_image
    {Store : Type} (r : Resolver Store) (st : Store)
    (input : StoryUpdateInput) (translator : changesetTranslator) (id : Z) :
  In (RepoUpdateCover id) (trace_of (storyUpdate r input translator) st) ->
  exists image data,
    in_CoverImage input = Some image /\
    ProcessImageInput r image = Ok data /\
    data <> "".
Proof.
  unfold trace_of.
  destruct (storyUpdate r input translator st) as [[res st1] tr] eqn:Hrun.
  apply storyUpdate_run in Hrun. simpl. intros Hin.
  destruct Hrun as [(e & _ & _ & ->)|
                    (storyID & originalStory & updatedStory & data
                     & _ & _ & _ & _ & Hcover & Hwrite)];
    [destruct Hin|].
  destruct (Story_UpdatePartial r st storyID updatedStory) as [[story|e] ust].
  - destruct (String.eqb_spec data "") as [->|Hdata].
    + destruct Hwrite as (_ & _ & ->).
      destruct Hin as [H|[]]; discriminate H.
    + destruct (Hcover Hdata) as (image & Himage & Hprocess).
      exists image, data. repeat split; assumption.
  - destruct Hwrite as (_ & _ & ->). destruct Hin as [H|[]]; discriminate H.
Qed.

Lemma cover_written_only_with_cover_image_witness :
  exists image data,
    in_CoverImage
      {| in_ID := "1"; in_Title := None; in_Code := None; in_Details := None;
         in_Director := None; in_Rating100 := None; in_PlayDuration := None;
         in_Organized := None; in_StashIds := []; in_Date := None;
         in_StudioID := None; in_Urls := []; in_URL := None;
         in_PrimaryFileID := None; in_PerformerIds := []; in_TagIds := [];
         in_GalleryIds := []; in_Movies := [];
         in_CoverImage := Some "data:image/png;base64,AAAA" |} = Some image /\
    ProcessImageInput InMemory.resolver image = Ok data /\
    data <> "".
Proof.
  apply (cover_written_only_with_cover_image InMemory.resolver InMemory.store
           _ InMemory.translator 1).
  vm_compute. right. left. reflexivity.
Defined.

(** X13. When storyUpdate succeeds, the story it returns is the one
    UpdatePartial returned for the id and the partial of the input, that
    call is the first write, only a cover write may follow it, and a
    primary file id in the partial names one of the files of the story. *)
Theorem successful_update_names_own_file
    {Store : Type} (r : Resolver Store) (st st1 : Store)
    (input : StoryUpdateInput) (translator : changesetTranslator)
    (story : Story) (tr : list event) :
  storyUpdate r input translator st = (Ok story, st1, tr) ->
  exists storyID originalStory updatedStory,
    strconv.Atoi (in_ID input) = Some storyID /\
    Story_Find r st storyID = Ok (Some originalStory) /\
    storyPartialFromInput input translator = Ok updatedStory /\
    fst (Story_UpdatePartial r st storyID updatedStory) = Ok story /\
    (tr = [RepoUpdatePartial storyID] \/
     tr = [RepoUpdatePartial storyID; RepoUpdateCover (ID story)]) /\
    (forall newPrimaryFileID,
       sp_PrimaryFileID updatedStory = Some newPrimaryFileID ->
       exists files f,
         Story_LoadFiles r st originalStory = Ok files /\
         In f files /\ vf_ID f = newPrimaryFileID).
Proof.
  intros Hrun. apply storyUpdate_run in Hrun.
  destruct Hrun as [(e & He & _)|
                    (storyID & originalStory & updatedStory & data
                     & Hid & Hfind & Hpartial & Hprimary & _ & Hwrite)];
    [discriminate|].
  exists storyID, originalStory, updatedStory.
  do 3 (split; [assumption|]).
  destruct (Story_UpdatePartial r st storyID updatedStory) as [[story'|e] ust].
  - destruct (String.eqb data "").
    + destruct Hwrite as (Hres & _ & ->). injection Hres as ->.
      repeat split; [left; reflexivity|exact Hprimary].
    + destruct Hwrite as (-> & Hres).
      destruct (Story_UpdateCover r ust (ID story') data) as [[[]|e] cst];
        destruct Hres as [Hres _]; [|discriminate].
      injection Hres as ->.
      repeat split; [right; reflexivity|exact Hprimary].
  - destruct Hwrite as (Hres & _). discriminate.
Qed.

Lemma successful_update_names_own_file_witness :
  exists storyID originalStory updatedStory,
    strconv.Atoi "1" = Some storyID /\
    Story_Find InMemory.resolver InMemory.store storyID
    = Ok (Some originalStory) /\
    storyPartialFromInput (InMemory.setPrimaryFile "1" "12")
      InMemory.translator = Ok updatedStory /\
    sp_PrimaryFileID updatedStory = Some 12.
Proof.
  destruct (InMemory.resolver.(Story_UpdatePartial) InMemory.store 1
              {| sp_Title := unset ""; sp_Code := unset "";
                 sp_Details := unset ""; sp_Director := unset "";
                 sp_Rating := unset 0; sp_PlayDuration := unset 0%float;
                 sp_Organized := unset false; sp_StashIDs := None;
                 sp_Date := unset ""; sp_StudioID := unset 0;
                 sp_URLs := None; sp_PrimaryFileID := Some 12;
                 sp_PerformerIDs := None; sp_TagIDs := None;
                 sp_GalleryIDs := None; sp_MovieIDs := None |})
    as [[story|e] st1] eqn:Hupdate; [|vm_compute in Hupdate; discriminate].
  destruct (successful_update_names_own_file InMemory.resolver InMemory.store
              st1 (InMemory.setPrimaryFile "1" "12") InMemory.translator
              story [RepoUpdatePartial 1])
    as (storyID & originalStory & updatedStory & Hid & Hfind & Hpartial & _).
  - unfold storyUpdate, bind, read, lift, ret, write, storyUpdateCoverImage.
    change (strconv.Atoi (in_ID (InMemory.setPrimaryFile "1" "12")))
      with (Some 1).
    cbv beta iota. vm_compute in Hupdate. vm_compute.
    injection Hupdate as <- <-. reflexivity.
  - exists storyID, originalStory, updatedStory.
    repeat split; try assumption.
    vm_compute in Hpartial. injection Hpartial as <-. reflexivity.
Defined.

Lemma bind_pure_ok {Store A B} (m : M Store A) (k : A -> M Store B) st a :
  m st = (Ok a, st, []) -> bind m k st = k a st.
Proof.
  intros Hm. unfold bind. rewrite Hm.
  destruct (k a st) as [[res st1] tr]. reflexivity.
Qed.

(** X14. StoryMerge checks its input before it opens the transaction:
    with a source or destination id that is not a number, or values that
    do not convert, it fails with the store as it was and no event; and
    whenever its trace is not empty, the first thing in it is the call of
    the merge service with the parsed ids. *)
Theorem merge_checks_input_before_transaction
    {Store : Type} (r : Resolver Store) (st : Store)
    (input : StoryMergeInput) (translator : changesetTranslator) :
  ((exists err, StringSliceToIntSlice (mi_Source input) = Err err) \/
   strconv.Atoi (mi_Destination input) = None \/
   (exists values err,
      mi_Values input = Some values /\
      storyPartialFromInput values translator = Err err) ->
   exists err, StoryMerge r input translator st = (Err err, st, [])) /\
  (trace_of (StoryMerge r input translator) st = [] \/
   exists srcIDs destID rest,
     StringSliceToIntSlice (mi_Source input) = Ok srcIDs /\
     strconv.Atoi (mi_Destination input) = Some destID /\
     trace_of (StoryMerge r input translator) st
     = ServiceMerge srcIDs destID :: rest).
Proof.
  unfold trace_of, StoryMerge.
  destruct (StringSliceToIntSlice (mi_Source input)) as [srcIDs|e0].
  2:{ split; [intros _; eexists; reflexivity|left; reflexivity]. }
  destruct (strconv.Atoi (mi_Destination input)) as [destID|].
  2:{ split; [intros _; eexists; reflexivity|left; reflexivity]. }
  split.
  - intros [[err H]|[H|(values & err & Hv & Hp)]]; try discriminate.
    rewrite Hv. unfold bind, lift. rewrite Hp. eexists. reflexivity.
  - assert (Hdone : forall (values : StoryPartial) (data : string),
              exists rest,
                snd (withTxn
                       (bind
                          (serviceMerge r srcIDs destID
                             {| mo_StoryPartial := values;
                                IncludePlayHistory :=
                                  IsTrue (mi_PlayHistory input);
                                IncludeOHistory :=
                                  IsTrue (mi_OHistory input) |})
                          (fun _ =>
                             bind (read (fun st => Story_Find r st destID))
                               (fun found =>
                                  match found with
                                  | Some found =>
                                      bind (storyUpdateCoverImage r found data)
                                        (fun _ => ret found)
                                  | None => fail (notFound "story" destID)
                                  end))) st)
                = ServiceMerge srcIDs destID :: rest).
    { intros values data. unfold withTxn, bind, serviceMerge, read.
      destruct (storyService_Merge r st srcIDs destID _)
        as [[[[]|e] mst] mtr]; cbv beta iota; [|eexists; reflexivity].
      destruct (Story_Find r mst destID) as [[found|]|e]; cbv beta iota;
        try (eexists; reflexivity).
      destruct (storyUpdateCoverImage r found data mst)
        as [[[[]|e] st3] tr3]; cbv beta iota; eexists; reflexivity. }
    destruct (mi_Values input) as [values|].
    + destruct (storyPartialFromInput values translator) as [partial|e].
      2:{ left. reflexivity. }
      destruct (in_CoverImage values) as [image|].
      * destruct (ProcessImageInput r image) as [data|e];
          [|left; reflexivity].
        destruct (Hdone partial data) as [rest Hrest]. right.
        exists srcIDs, destID, rest. repeat split.
        rewrite (bind_pure_ok _ _ st (partial, data)) by reflexivity.
        exact Hrest.
      * destruct (Hdone partial "") as [rest Hrest]. right.
        exists srcIDs, destID, rest. repeat split.
        rewrite (bind_pure_ok _ _ st (partial, "")) by reflexivity.
        exact Hrest.
    + destruct (Hdone NewStoryPartial "") as [rest Hrest]. right.
      exists srcIDs, destID, rest. repeat split.
      rewrite (bind_pure_ok _ _ st (NewStoryPartial, "")) by reflexivity.
      exact Hrest.
Qed.

Lemma merge_checks_input_before_transaction_witness :
  exists err,
    StoryMerge InMemory.resolver
      {| mi_Source := ["2"; "two"]; mi_Destination := "1";
         mi_Values := None; mi_PlayHistory := None; mi_OHistory := None |}
      InMemory.translator InMemory.store
    = (Err err, InMemory.store, []).
Proof.
  apply (proj1 (merge_checks_input_before_transaction InMemory.resolver
                  InMemory.store
                  {| mi_Source := ["2"; "two"]; mi_Destination := "1";
                     mi_Values := None; mi_PlayHistory := None;
                     mi_OHistory := None |}
                  InMemory.translator)).
  left. eexists. vm_compute. reflexivity.
Defined.

(** *** Updates of several stories *)

Lemma storiesUpdateLoop_length {Store} (r : Resolver Store) input :
  forall acc st stories st1 tr,
    storiesUpdateLoop r input acc st = (Ok stories, st1, tr) ->
    length stories = (length acc + length input)%nat.
Proof.
  induction input as [|[story translator] input IH];
    intros acc st stories st1 tr Hrun; cbn [storiesUpdateLoop] in Hrun.
  - injection Hrun as <- _ _. simpl. lia.
  - apply bind_inv in Hrun.
    destruct Hrun as [(e & _ & He)|(s & st0 & tr0 & tr1 & _ & Hrest & _)];
      [discriminate|].
    apply IH in Hrest. rewrite Hrest, length_app. simpl. lia.
Qed.

Lemma storiesRefetchLoop_length {Store} (r : Resolver Store) stories :
  forall newRet st rets st1 tr,
    storiesRefetchLoop r stories newRet st = (Ok rets, st1, tr) ->
    length rets = (length newRet + length stories)%nat.
Proof.
  induction stories as [|story stories IH];
    intros newRet st rets st1 tr Hrun; cbn [storiesRefetchLoop] in Hrun.
  - injection Hrun as <- _ _. simpl. lia.
  - apply bind_inv in Hrun.
    destruct Hrun as [(e & _ & He)|(u & st0 & tr0 & tr1 & _ & Hrun & _)];
      [discriminate|].
    apply bind_inv in Hrun.
    destruct Hrun as [(e & _ & He)|(s & st2 & tr2 & tr3 & _ & Hrest & _)];
      [discriminate|].
    apply IH in Hrest. rewrite Hrest, length_app. simpl. lia.
Qed.

(** X15. When StoriesUpdate succeeds it returns one story per input, in
    a list as long as the list of inputs. *)
Theorem stories_update_returns_one_per_input
    {Store : Type} (r : Resolver Store) (st : Store)
    (input : list (StoryUpdateInput * changesetTranslator))
    (rets : list (option Story)) :
  fst (fst (StoriesUpdate r input st)) = Ok rets ->
  length rets = length input.
Proof.
  destruct (StoriesUpdate r input st) as [[res st1] tr] eqn:Hrun. simpl.
  intros ->. unfold StoriesUpdate in Hrun.
  apply bind_inv in Hrun.
  destruct Hrun as [(e & _ & He)|(stories & st0 & tr0 & tr1 & Hm & Hrun & _)];
    [discriminate|].
  unfold withTxn in Hm.
  destruct (storiesUpdateLoop r input [] st) as [[[stories'|e] st2] tr2]
    eqn:Hloop; [|discriminate].
  injection Hm as -> _ _.
  apply storiesUpdateLoop_length in Hloop.
  apply storiesRefetchLoop_length in Hrun. simpl in *. lia.
Qed.

Lemma stories_update_returns_one_per_input_witness :
  length
    match
      fst (fst (StoriesUpdate InMemory.resolver
                  [(InMemoryMore.setTitle "1" "One", InMemory.translator);
                   (InMemoryMore.setTitle "2" "Two", InMemory.translator)]
                  InMemory.store))
    with
    | Ok rets => rets
    | Err _ => []
    end
  = 2%nat.
Proof.
  apply (stories_update_returns_one_per_input InMemory.resolver
           InMemory.store
           [(InMemoryMore.setTitle "1" "One", InMemory.translator);
            (InMemoryMore.setTitle "2" "Two", InMemory.translator)]).
  vm_compute. reflexivity.
Defined.

Lemma bulkUpdateLoop_in_turn {Store} (r : Resolver Store) updatedStory
    storyIDs : forall acc st res st1 tr,
  bulkUpdateLoop r storyIDs updatedStory acc st = (res, st1, tr) ->
  (exists stories,
     res = Ok (acc ++ stories) /\
     updated_in_turn r updatedStory st storyIDs stories st1 /\
     tr = map RepoUpdatePartial storyIDs) \/
  (exists e done failed rest stories mid,
     res = Err e /\
     storyIDs = done ++ failed :: rest /\
     updated_in_turn r updatedStory st done stories mid /\
     fst (Story_UpdatePartial r mid failed updatedStory) = Err e /\
     tr = map RepoUpdatePartial (done ++ [failed])).
Proof.
  induction storyIDs as [|storyID storyIDs IH];
    intros acc st res st1 tr Hrun; cbn [bulkUpdateLoop] in Hrun.
  - injection Hrun as <- <- <-. left. exists []. rewrite app_nil_r.
    repeat split.
  - apply bind_inv in Hrun.
    destruct Hrun as [(e & Hm & ->)|(s & st0 & tr0 & tr1 & Hm & Hrest & ->)];
      unfold write in Hm;
      destruct (Story_UpdatePartial r st storyID updatedStory)
        as [ures ust] eqn:Hupdate.
    + injection Hm as -> _ <-. right.
      exists e, [], storyID, storyIDs, [], st.
      split; [reflexivity|]. split; [reflexivity|].
      split; [reflexivity|]. rewrite Hupdate. split; reflexivity.
    + injection Hm as -> -> <-. apply IH in Hrest.
      destruct Hrest as [(stories & -> & Hturn & ->)
                        |(e & done & failed & rest & stories & mid
                          & -> & -> & Hturn & Hfail & ->)].
      * left. exists (s :: stories).
        split; [now rewrite <- List.app_assoc|]. split; [|reflexivity].
        simpl. exists st0. split; [exact Hupdate|exact Hturn].
      * right. exists e, (storyID :: done), failed, rest, (s :: stories), mid.
        split; [reflexivity|]. split; [reflexivity|]. split.
        -- simpl. exists st0. split; [exact Hupdate|exact Hturn].
        -- split; [exact Hfail|reflexivity].
Qed.

Lemma updated_in_turn_length {Store} (r : Resolver Store) updatedStory
    storyIDs : forall st stories st2,
  updated_in_turn r updatedStory st storyIDs stories st2 ->
  length stories = length storyIDs.
Proof.
  induction storyIDs as [|id storyIDs IH]; intros st [|story stories] st2;
    simpl; try contradiction; [reflexivity|].
  intros (st1 & _ & Hrest). f_equal. exact (IH _ _ _ Hrest).
Qed.

Lemma bulkStoryPartial_primary input translator bulk updatedStory :
  bulkStoryPartial input translator bulk = Ok updatedStory ->
  sp_PrimaryFileID updatedStory = None.
Proof.
  unfold bulkStoryPartial.
  repeat match goal with
         | |- context [match ?x with Ok _ => _ | Err _ => _ end] =>
             destruct x; try discriminate
         end.
  intros H. injection H as <-. reflexivity.
Qed.

(** X16. BulkStoryUpdate calls UpdatePartial once per id, in the order of
    the input and inside the transaction, every time with the one partial
    it built from the input, which never sets the primary file.  It stops
    at the first call that fails and rolls back.  When it succeeds it has
    updated every id before the commit, each in the store the updates
    before it have left, and returns one story per id. *)
Theorem bulk_update_updates_every_id
    {Store : Type} (r : Resolver Store) (st : Store)
    (input : BulkStoryUpdateInput) (translator : changesetTranslator)
    (bulk : bulkTranslator) :
  (trace_of (BulkStoryUpdate r input translator bulk) st = [] \/
   exists storyIDs updatedStory,
     parsed_ids (bi_Ids input) storyIDs /\
     bulkStoryPartial input translator bulk = Ok updatedStory /\
     sp_PrimaryFileID updatedStory = None /\
     ((exists e done failed rest stories mid,
         storyIDs = done ++ failed :: rest /\
         updated_in_turn r updatedStory st done stories mid /\
         fst (Story_UpdatePartial r mid failed updatedStory) = Err e /\
         fst (fst (BulkStoryUpdate r input translator bulk st)) = Err e /\
         trace_of (BulkStoryUpdate r input translator bulk) st
         = map RepoUpdatePartial (done ++ [failed]) ++ [TxnRollback]) \/
      (exists stories committed hooks,
         updated_in_turn r updatedStory st storyIDs stories committed /\
         trace_of (BulkStoryUpdate r input translator bulk) st
         = map RepoUpdatePartial storyIDs ++ TxnCommit :: hooks))) /\
  (forall rets,
     fst (fst (BulkStoryUpdate r input translator bulk st)) = Ok rets ->
     length rets = length (bi_Ids input) /\
     exists storyIDs updatedStory stories committed rest,
       parsed_ids (bi_Ids input) storyIDs /\
       bulkStoryPartial input translator bulk = Ok updatedStory /\
       sp_PrimaryFileID updatedStory = None /\
       updated_in_turn r updatedStory st storyIDs stories committed /\
       trace_of (BulkStoryUpdate r input translator bulk) st
       = map RepoUpdatePartial storyIDs ++ TxnCommit :: rest).
Proof.
  split.
  - unfold trace_of, BulkStoryUpdate.
    destruct (StringSliceToIntSlice (bi_Ids input)) as [storyIDs|e] eqn:Hids;
      [|left; reflexivity].
    destruct (bulkStoryPartial input translator bulk) as [updatedStory|e]
      eqn:Hpartial; [|left; reflexivity].
    right. exists storyIDs, updatedStory.
    split; [exact (StringSliceToIntSlice_parsed _ _ Hids)|].
    split; [reflexivity|].
    split; [exact (bulkStoryPartial_primary _ _ _ _ Hpartial)|].
    unfold bind, withTxn.
    destruct (bulkUpdateLoop r storyIDs updatedStory [] st)
      as [[res st2] tr2] eqn:Hloop.
    apply bulkUpdateLoop_in_turn in Hloop.
    destruct Hloop as [(stories & -> & Hturn & ->)
                      |(e & done & failed & rest & stories & mid
                        & -> & -> & Hturn & Hfail & ->)].
    + right. simpl.
      destruct (storiesRefetchLoop r stories [] st2) as [[res' st3] tr3].
      exists stories, st2, tr3. split; [exact Hturn|].
      simpl. now rewrite <- List.app_assoc.
    + left. exists e, done, failed, rest, stories, mid.
      repeat split; try assumption; reflexivity.
  - intros rets. unfold trace_of.
    destruct (BulkStoryUpdate r input translator bulk st)
      as [[res st1] tr] eqn:Hrun. simpl. intros ->.
    unfold BulkStoryUpdate in Hrun.
    destruct (StringSliceToIntSlice (bi_Ids input)) as [storyIDs|e] eqn:Hids;
      [|discriminate].
    destruct (bulkStoryPartial input translator bulk) as [updatedStory|e]
      eqn:Hpartial; [|discriminate].
    apply bind_inv in Hrun.
    destruct Hrun as [(e & _ & He)|(stories & st0 & tr0 & tr1 & Hm & Hrun & ->)];
      [discriminate|].
    unfold withTxn in Hm.
    destruct (bulkUpdateLoop r storyIDs updatedStory [] st)
      as [[[stories'|e] st2] tr2] eqn:Hloop; [|discriminate].
    injection Hm as -> -> <-.
    apply bulkUpdateLoop_in_turn in Hloop.
    destruct Hloop as [(found & Hfound & Hturn & ->)
                      |(e & done & failed & rest & found & mid & He & _)];
      [|discriminate].
    injection Hfound as ->. simpl in Hrun.
    apply storiesRefetchLoop_length in Hrun.
    pose proof (updated_in_turn_length _ _ _ _ _ _ Hturn) as Hlen.
    pose proof (StringSliceToIntSlice_length _ _ Hids) as Hparsed.
    split; [simpl in *; lia|].
    exists storyIDs, updatedStory, found, st0, tr1.
    split; [exact (StringSliceToIntSlice_parsed _ _ Hids)|].
    split; [reflexivity|].
    split; [exact (bulkStoryPartial_primary _ _ _ _ Hpartial)|].
    split; [exact Hturn|]. now rewrite <- List.app_assoc.
Qed.

Lemma bulk_update_updates_every_id_witness :
  length
    match
      fst (fst (BulkStoryUpdate InMemory.resolver (InMemoryMore.rate ["1"; "2"] 80)
                  InMemory.translator InMemoryMore.bulk InMemory.store))
    with
    | Ok rets => rets
    | Err _ => []
    end
  = 2%nat /\
  exists storyIDs updatedStory stories committed rest,
    parsed_ids ["1"; "2"] storyIDs /\
    bulkStoryPartial (InMemoryMore.rate ["1"; "2"] 80) InMemory.translator
      InMemoryMore.bulk = Ok updatedStory /\
    sp_PrimaryFileID updatedStory = None /\
    updated_in_turn InMemory.resolver updatedStory InMemory.store storyIDs
      stories committed /\
    trace_of
      (BulkStoryUpdate InMemory.resolver (InMemoryMore.rate ["1"; "2"] 80)
         InMemory.translator InMemoryMore.bulk)
      InMemory.store
    = map RepoUpdatePartial storyIDs ++ TxnCommit :: rest.
Proof.
  apply (proj2 (bulk_update_updates_every_id InMemory.resolver
                  InMemory.store (InMemoryMore.rate ["1"; "2"] 80)
                  InMemory.translator InMemoryMore.bulk)).
  vm_compute. reflexivity.
Defined.

(** ** Properties of the queries *)

(** X17. FindStory looks a story up by id whenever an id is given: the
    checksum is then not looked at, and an id that is not a number is an
    error even where the checksum would find a story.  Without an id the
    answer is the first story with the checksum, and without either it is
    no story and no error. *)
Theorem find_story_prefers_id (q : queryResolver) :
  (forall id idInt checksum,
     strconv.Atoi id = Some idInt ->
     FindStory q (Some id) checksum = q_Find q idInt) /\
  (forall id checksum checksum',
     FindStory q (Some id) checksum = FindStory q (Some id) checksum') /\
  (forall id checksum,
     decimal_integer id = false ->
     FindStory q (Some id) checksum = Err (strconv.AtoiError id)) /\
  (forall id checksum,
     strconv.Atoi id = None ->
     FindStory q (Some id) checksum = Err (strconv.AtoiError id)) /\
  (forall checksum stories,
     q_FindByChecksum q checksum = Ok stories ->
     FindStory q None (Some checksum) = Ok (firstStory stories)) /\
  (forall checksum err,
     q_FindByChecksum q checksum = Err err ->
     FindStory q None (Some checksum) = Err err) /\
  FindStory q None None = Ok None.
Proof.
  split; [|split; [|split; [|split; [|split; [|split]]]]]; try reflexivity.
  - intros id idInt checksum Hid. unfold FindStory. now rewrite Hid.
  - intros id checksum Hbad. unfold FindStory.
    now rewrite (Atoi_not_decimal _ Hbad).
  - intros id checksum Hbad. unfold FindStory. now rewrite Hbad.
  - intros checksum stories Hfind. unfold FindStory. now rewrite Hfind.
  - intros checksum err Hfind. unfold FindStory. now rewrite Hfind.
Qed.

Lemma find_story_prefers_id_witness :
  FindStory InMemoryMore.queries (Some "1x") (Some "c1")
  = Err (strconv.AtoiError "1x") /\
  FindStory InMemoryMore.queries (Some "2") (Some "c1")
  = q_Find InMemoryMore.queries 2.
Proof.
  split.
  - apply (proj1 (proj2 (proj2 (find_story_prefers_id InMemoryMore.queries)))).
    reflexivity.
  - apply (proj1 (find_story_prefers_id InMemoryMore.queries)).
    reflexivity.
Defined.

(** X18. FindStoryByHash tries the checksum first: when the checksum
    finds a story, that first match is the answer and the oshash is not
    consulted, so not even a failing oshash lookup changes it; only when
    the checksum is absent or finds nothing does the oshash decide. *)
Theorem find_story_by_hash_prefers_checksum
    (q : queryResolver) (input : StoryHashInput) :
  (forall checksum story rest,
     hi_Checksum input = Some checksum ->
     q_FindByChecksum q checksum = Ok (story :: rest) ->
     FindStoryByHash q input = Ok (Some story)) /\
  (forall checksum err,
     hi_Checksum input = Some checksum ->
     q_FindByChecksum q checksum = Err err ->
     FindStoryByHash q input = Err err) /\
  ((hi_Checksum input = None \/
    exists checksum,
      hi_Checksum input = Some checksum /\
      q_FindByChecksum q checksum = Ok []) ->
   FindStoryByHash q input
   = match hi_Oshash input with
     | Some oshash =>
         match q_FindByOSHash q oshash with
         | Ok stories => Ok (firstStory stories)
         | Err err => Err err
         end
     | None => Ok None
     end).
Proof.
  unfold FindStoryByHash. split; [|split].
  - intros checksum story rest -> ->. reflexivity.
  - intros checksum err -> ->. reflexivity.
  - intros [->|(checksum & -> & ->)]; cbv zeta; cbn [firstStory];
      destruct (hi_Oshash input) as [oshash|]; try reflexivity;
      destruct (q_FindByOSHash q oshash); reflexivity.
Qed.

Lemma find_story_by_hash_prefers_checksum_witness :
  FindStoryByHash InMemoryMore.queries
    {| hi_Checksum := Some "c2"; hi_Oshash := Some "o1" |}
  = Ok (Some InMemory.story_mkv).
Proof.
  apply (proj1 (find_story_by_hash_prefers_checksum InMemoryMore.queries
                  {| hi_Checksum := Some "c2"; hi_Oshash := Some "o1" |})
           "c2" InMemory.story_mkv []);
    reflexivity.
Defined.

Lemma primaryFiles_cons (l : Story) (loaded : list Story) :
  primaryFiles (l :: loaded)
  = match Files_Primary l with
    | Some f => f :: primaryFiles loaded
    | None => primaryFiles loaded
    end.
Proof. reflexivity. Qed.

Lemma totalsLoop_sums (q : queryResolver) stories loaded :
  Forall2 (fun s l => q_LoadPrimaryFile q s = Ok l) stories loaded ->
  forall acc totalDuration totalSize,
    totalsLoop q stories acc totalDuration totalSize
    = Ok (acc ++ loaded,
          fold_left PrimFloat.add
            (map (vf_Duration q) (primaryFiles loaded)) totalDuration,
          fold_left PrimFloat.add
            (map (vf_SizeFloat q) (primaryFiles loaded)) totalSize).
Proof.
  induction 1 as [|s l stories loaded Hload _ IH];
    intros acc totalDuration totalSize.
  - simpl. now rewrite app_nil_r.
  - cbn [totalsLoop]. rewrite Hload, primaryFiles_cons.
    destruct (Files_Primary l) as [f|]; rewrite IH, <- List.app_assoc;
      reflexivity.
Qed.

(** X19. When FindStories is given ids, it looks up the stories of those
    ids whatever the storyIDs argument holds.  Where every primary file
    loads, the count is the number of stories found, and the duration and
    the file size are the sums, in the order of the stories, over the
    stories that have a primary file; a story without one counts but adds
    nothing. *)
Theorem find_stories_by_id_totals
    (q : queryResolver) (storyFilter : option StoryFilterType)
    (storyIDs parsed : list Z) (ids : list string)
    (filter : option FindFilterType) (fields : list string)
    (stories loaded : list Story) :
  ids <> [] ->
  StringSliceToIntSlice ids = Ok parsed ->
  q_FindMany q parsed = Ok stories ->
  Forall2 (fun s l => q_LoadPrimaryFile q s = Ok l) stories loaded ->
  FindStories q storyFilter storyIDs ids filter fields
  = Ok {| fs_Count := Z.of_nat (length stories);
          fs_Stories := loaded;
          fs_Duration := sumFloat (map (vf_Duration q) (primaryFiles loaded));
          fs_Filesize :=
            sumFloat (map (vf_SizeFloat q) (primaryFiles loaded)) |}.
Proof.
  intros Hids Hparsed Hmany Hloaded. unfold FindStories.
  pose proof (StringSliceToIntSlice_length _ _ Hparsed) as Hlen.
  destruct ids as [|id ids]; [contradiction|].
  destruct parsed as [|p parsed]; [discriminate|].
  cbn [length Nat.ltb Nat.leb]. rewrite Hparsed. cbn [length Nat.ltb Nat.leb].
  rewrite Hmany, (totalsLoop_sums _ _ _ Hloaded). reflexivity.
Qed.

Lemma find_stories_by_id_totals_witness :
  FindStories InMemoryMore.queries None [99] ["1"; "3"] None []
  = Ok {| fs_Count := 2;
          fs_Stories := [InMemory.story1; InMemory.story_nofile];
          fs_Duration := 90%float;
          fs_Filesize := 1024%float |}.
Proof.
  assert (Hloaded :
    Forall2 (fun s l => q_LoadPrimaryFile InMemoryMore.queries s = Ok l)
      [InMemory.story1; InMemory.story_nofile]
      [InMemory.story1; InMemory.story_nofile]).
  { repeat constructor. }
  rewrite (find_stories_by_id_totals InMemoryMore.queries None [99] [1; 3]
             ["1"; "3"] None [] _ _ ltac:(discriminate) eq_refl eq_refl Hloaded).
  reflexivity.
Defined.

(** X20. FindStoriesByPathRegex is FindStories without ids over a path
    filter: the text query of the filter is taken out of the filter and
    becomes a case-insensitive regular expression on the path, and without
    a text query the filter is passed on as it is with an empty story
    filter. *)
Theorem path_regex_is_find_stories_by_path
    (q : queryResolver) (fields : list string) :
  FindStoriesByPathRegex q None fields
  = FindStories q (Some {| sf_Path := None |}) [] [] None fields /\
  (forall f,
     ff_Q f = None ->
     FindStoriesByPathRegex q (Some f) fields
     = FindStories q (Some {| sf_Path := None |}) [] [] (Some f) fields) /\
  (forall f text,
     ff_Q f = Some text ->
     FindStoriesByPathRegex q (Some f) fields
     = FindStories q
         (Some {| sf_Path :=
                    Some {| sc_Modifier := CriterionModifierMatchesRegex;
                            sc_Value := "(?i)" +:+ text |} |})
         [] []
         (Some {| ff_Q := None; ff_Page := ff_Page f;
                  ff_PerPage := ff_PerPage f; ff_Sort := ff_Sort f |})
         fields).
Proof.
  split; [reflexivity|]. split.
  - intros [text page perPage sort] Hq. simpl in Hq. subst text. reflexivity.
  - intros [text' page perPage sort] text Hq. simpl in Hq. subst text'.
    reflexivity.
Qed.

Lemma path_regex_is_find_stories_by_path_witness :
  FindStoriesByPathRegex InMemoryMore.queries
    (Some {| ff_Q := Some "intro"; ff_Page := Some 1; ff_PerPage := Some 25;
             ff_Sort := None |})
    ["count"]
  = FindStories InMemoryMore.queries
      (Some {| sf_Path :=
                 Some {| sc_Modifier := CriterionModifierMatchesRegex;
                         sc_Value := "(?i)intro" |} |})
      [] []
      (Some {| ff_Q := None; ff_Page := Some 1; ff_PerPage := Some 25;
               ff_Sort := None |})
      ["count"].
Proof.
  apply (proj2 (proj2 (path_regex_is_find_stories_by_path
                         InMemoryMore.queries ["count"]))
           {| ff_Q := Some "intro"; ff_Page := Some 1; ff_PerPage := Some 25;
              ff_Sort := None |} "intro").
  reflexivity.
Defined.

(** ** Properties of the marker mutations *)

Lemma Exclude_one {Store} (r : MarkerResolver Store) given primary t :
  Exclude_contract r ->
  In t (Exclude r given [primary]) <-> In t given /\ t <> primary.
Proof.
  intros Hex. rewrite (Hex given [primary] t). simpl. intuition congruence.
Qed.

(** X21. StoryMarkerCreate never saves the primary tag among the tags of
    the marker: given that Exclude removes what it is told to, the tags
    saved are the tag ids of the input without the primary tag of the
    marker created, and they are saved under the id the marker was given. *)
Theorem marker_create_saves_tags_without_primary
    {Store : Type} (r : MarkerResolver Store) (st : Store)
    (input : StoryMarkerCreateInput) (markerID : Z) (tags : list Z) :
  Exclude_contract r ->
  In (MarkerUpdateTags markerID tags)
    (marker_trace (StoryMarkerCreate r input) st) ->
  exists storyID primaryTagID given created,
    strconv.Atoi (mc_StoryID input) = Some storyID /\
    strconv.Atoi (mc_PrimaryTagID input) = Some primaryTagID /\
    StringSliceToIntSlice (mc_TagIds input) = Ok given /\
    fst (StoryMarker_Create r st
           {| sm_ID := 0; sm_Title := mc_Title input;
              sm_Seconds := mc_Seconds input;
              sm_PrimaryTagID := primaryTagID; sm_StoryID := storyID |})
    = Ok created /\
    markerID = sm_ID created /\
    ~ In (sm_PrimaryTagID created) tags /\
    forall t, In t tags <-> In t given /\ t <> sm_PrimaryTagID created.
Proof.
  intros Hex. unfold marker_trace, StoryMarkerCreate.
  destruct (strconv.Atoi (mc_StoryID input)) as [storyID|]; [|intros []].
  destruct (strconv.Atoi (mc_PrimaryTagID input)) as [primaryTagID|];
    [|intros []].
  destruct (StringSliceToIntSlice (mc_TagIds input)) as [given|e];
    [|intros []].
  unfold getStoryMarker, mbind, markerTxn, mwrite, mret, memit, mread.
  destruct (StoryMarker_Create r st _) as [[created|e] cst] eqn:Hcreate.
  2:{ simpl. intros [H|[H|[]]]; discriminate H. }
  intros Hin.
  assert (Htags : markerID = sm_ID created /\
                  tags = Exclude r given [sm_PrimaryTagID created]).
  { destruct (StoryMarker_UpdateTags r cst _ _) as [[[]|e] ust];
      [destruct (StoryMarker_Find r ust (sm_ID created)) as [found|e]|];
      simpl in Hin;
      repeat match type of Hin with
             | _ \/ _ => destruct Hin as [Hin|Hin]
             end;
      try discriminate Hin; try contradiction;
      injection Hin as <- <-; split; reflexivity. }
  destruct Htags as [-> ->].
  exists storyID, primaryTagID, given, created.
  do 3 (split; [reflexivity|]). rewrite Hcreate.
  do 2 (split; [reflexivity|]). split.
  - intros Hp. apply (Exclude_one r given _ _ Hex) in Hp. tauto.
  - intros t. apply (Exclude_one r given _ _ Hex).
Qed.

Lemma in_memory_Exclude_contract :
  Exclude_contract InMemoryMore.markerResolver.
Proof.
  intros values toExclude v. simpl. rewrite filter_In, negb_true_iff.
  split; intros [Hv Hex]; split; try assumption.
  - intros Hin. apply not_true_iff_false in Hex. apply Hex.
    apply existsb_exists. exists v. split; [exact Hin|apply Z.eqb_refl].
  - apply not_true_iff_false. intros Hsome. apply existsb_exists in Hsome.
    destruct Hsome as (x & Hx & Heq). apply Z.eqb_eq in Heq. subst x.
    contradiction.
Defined.

Lemma marker_create_saves_tags_without_primary_witness :
  exists storyID primaryTagID given created,
    strconv.Atoi "1" = Some storyID /\
    strconv.Atoi "100" = Some primaryTagID /\
    StringSliceToIntSlice ["100"; "101"] = Ok given /\
    fst (StoryMarker_Create InMemoryMore.markerResolver InMemoryMore.markers
           {| sm_ID := 0; sm_Title := "Outro"; sm_Seconds := 99%float;
              sm_PrimaryTagID := primaryTagID; sm_StoryID := storyID |})
    = Ok created /\
    9 = sm_ID created /\
    ~ In (sm_PrimaryTagID created) [101] /\
    forall t, In t [101] <-> In t given /\ t <> sm_PrimaryTagID created.
Proof.
  apply (marker_create_saves_tags_without_primary InMemoryMore.markerResolver
           InMemoryMore.markers
           {| mc_Title := "Outro"; mc_Seconds := 99%float; mc_StoryID := "1";
              mc_PrimaryTagID := "100"; mc_TagIds := ["100"; "101"] |}
           9 [101] in_memory_Exclude_contract).
  vm_compute. right. left. reflexivity.
Defined.

Lemma storyMarkerUpdateTxn_run {Store} (r : MarkerResolver Store)
    markerID updatedMarker tagIdsIncluded tagIDs st res st1 tr :
  storyMarkerUpdateTxn r markerID updatedMarker tagIdsIncluded tagIDs st
  = (res, st1, tr) ->
  tr = [] \/
  exists existingMarker,
    StoryMarker_Find r st markerID = Ok (Some existingMarker) /\
    match StoryMarker_UpdatePartial r st markerID updatedMarker with
    | (Err _, _) => tr = [MarkerUpdatePartial markerID]
    | (Ok newMarker, _) =>
        marker_update_events r markerID tagIdsIncluded tagIDs
          existingMarker newMarker tr
    end.
Proof.
  unfold storyMarkerUpdateTxn, mbind, mread, mwrite, mfail, mret, mcall.
  destruct (StoryMarker_Find r st markerID) as [[existingMarker|]|e];
    [|intros H; injection H as _ _ <-; left; reflexivity ..].
  destruct (StoryMarker_UpdatePartial r st markerID updatedMarker)
    as [[newMarker|e] ust].
  2:{ intros H. injection H as _ _ <-. right. exists existingMarker.
      split; reflexivity. }
  intros H. right. exists existingMarker. split; [reflexivity|].
  unfold marker_update_events.
  destruct (mr_Story_Find r ust (sm_StoryID existingMarker))
    as [[existingStory|]|e].
  2,3: (injection H as _ _ <-; exists [], []; repeat split;
        left; reflexivity).
  destruct (negb (sm_StoryID existingMarker =? sm_StoryID newMarker)
            || negb (PrimFloat.eqb (sm_Seconds existingMarker)
                       (sm_Seconds newMarker))) eqn:Hmoved.
  - assert (Hm : marker_moved existingMarker newMarker).
    { unfold marker_moved. apply orb_true_iff in Hmoved.
      destruct Hmoved as [Hs|Hs]; apply negb_true_iff in Hs.
      - left. apply Z.eqb_neq. exact Hs.
      - right. exact Hs. }
    destruct (fileDeleter_MarkMarkerFiles r existingStory _) as [[]|e].
    + destruct tagIdsIncluded.
      * destruct (StoryMarker_UpdateTags r ust markerID _) as [ures st2].
        injection H as _ _ <-.
        exists [MarkMarkerFiles (ID existingStory)
                  (int_of_float64 (sm_Seconds existingMarker))],
               [MarkerUpdateTags markerID
                  (Exclude r tagIDs [sm_PrimaryTagID newMarker])].
        split; [reflexivity|]. split.
        -- right. exists (ID existingStory). split; [reflexivity|exact Hm].
        -- right. split; reflexivity.
      * injection H as _ _ <-.
        exists [MarkMarkerFiles (ID existingStory)
                  (int_of_float64 (sm_Seconds existingMarker))], [].
        split; [reflexivity|]. split; [|left; reflexivity].
        right. exists (ID existingStory). split; [reflexivity|exact Hm].
    + injection H as _ _ <-.
      exists [MarkMarkerFiles (ID existingStory)
                (int_of_float64 (sm_Seconds existingMarker))], [].
      split; [reflexivity|]. split; [|left; reflexivity].
      right. exists (ID existingStory). split; [reflexivity|exact Hm].
  - destruct tagIdsIncluded.
    + destruct (StoryMarker_UpdateTags r ust markerID _) as [ures st2].
      injection H as _ _ <-.
      exists [], [MarkerUpdateTags markerID
                    (Exclude r tagIDs [sm_PrimaryTagID newMarker])].
      split; [reflexivity|]. split; [left; reflexivity|].
      right. split; reflexivity.
    + injection H as _ _ <-. exists [], [].
      split; [reflexivity|]. split; left; reflexivity.
Qed.

(** Files are marked and tags are saved only inside the transaction of
    [StoryMarkerUpdate]. *)
Lemma StoryMarkerUpdate_body {Store} (r : MarkerResolver Store) st
    input translator hasField e :
  In e (marker_trace (StoryMarkerUpdate r input translator hasField) st) ->
  is_mark_files e = true \/ is_update_tags e = true ->
  exists markerID updatedMarker tagIDs res st1 body,
    strconv.Atoi (mu_ID input) = Some markerID /\
    match mu_TagIds input with
    | Some tagIds => StringSliceToIntSlice tagIds
    | None => Ok []
    end = Ok tagIDs /\
    storyMarkerUpdateTxn r markerID updatedMarker (hasField "tag_ids") tagIDs
      st = (res, st1, body) /\
    In e body.
Proof.
  unfold marker_trace, StoryMarkerUpdate.
  destruct (strconv.Atoi (mu_ID input)) as [markerID|];
    [|intros []].
  destruct (optionalIntFromString translator (mu_StoryID input) "story_id")
    as [storyID|err]; [|intros []].
  destruct (optionalIntFromString translator (mu_PrimaryTagID input)
              "primary_tag_id") as [primaryTagID|err]; [|intros []].
  destruct (match mu_TagIds input with
            | Some tagIds => StringSliceToIntSlice tagIds
            | None => Ok []
            end) as [tagIDs|err]; [|intros []].
  unfold markerTxn.
  destruct (storyMarkerUpdateTxn r markerID _ (hasField "tag_ids") tagIDs st)
    as [[res st1] body] eqn:Hbody.
  intros Hin Hkind.
  eexists markerID, _, tagIDs, res, st1, body.
  do 3 (split; [first [reflexivity|exact Hbody]|]).
  destruct res as [[]|err]; simpl in Hin.
  - unfold getStoryMarker, markerTxn, mread in Hin.
    destruct (StoryMarker_Find r st1 markerID); simpl in Hin;
      rewrite !in_app_iff in Hin; simpl in Hin;
      destruct Hin as [[Hin|[<-|[]]]|[<-|[<-|[<-|[]]]]];
      first [exact Hin | destruct Hkind; discriminate].
  - rewrite !in_app_iff in Hin; simpl in Hin.
    destruct Hin as [[Hin|[<-|[]]]|[<-|[]]];
      first [exact Hin | destruct Hkind; discriminate].
Qed.





(** X24. StoryMarkerDestroy destroys a marker only when it finds the marker
    under the parsed id and finds the story of that marker: then it destroys
    that marker, commits, commits the file deleter and runs the post hook,
    in this order, and answers true.  In every other case it answers an
    error, leaves the store as it was, commits no file deletion and runs no
    hook. *)
Theorem marker_destroy_needs_marker_and_story
    {Store : Type} (r : MarkerResolver Store) (st st1 : Store) (id : string)
    (res : result bool) (tr : list marker_event) :
  StoryMarkerDestroy r id st = (res, st1, tr) ->
  (exists e,
     res = Err e /\ st1 = st /\
     ~ In MarkerDeleterCommit tr /\
     forall markerID, ~ In (MarkerPostHook markerID) tr) \/
  (exists markerID marker s,
     res = Ok true /\
     strconv.Atoi id = Some markerID /\
     StoryMarker_Find r st markerID = Ok (Some marker) /\
     mr_Story_Find r st (sm_StoryID marker) = Ok (Some s) /\
     st1 = snd (story_DestroyMarker r st s marker) /\
     tr = [DestroyMarker (sm_ID marker); MarkerTxnCommit;
           MarkerDeleterCommit; MarkerPostHook markerID]).
Proof.
  unfold StoryMarkerDestroy.
  destruct (strconv.Atoi id) as [markerID|].
  2:{ intros H. injection H as <- <- <-. left. eexists.
      repeat split; try reflexivity; intros; intros []. }
  unfold markerTxn, mbind, mread, mwrite, mfail.
  destruct (StoryMarker_Find r st markerID) as [[marker|]|e] eqn:Hfind.
  2,3: (intros H; injection H as <- <- <-; left; eexists;
        split; [reflexivity|]; split; [reflexivity|];
        split; [|intros mid]; simpl; intuition discriminate).
  destruct (mr_Story_Find r st (sm_StoryID marker)) as [[s|]|e] eqn:Hstory.
  2,3: (intros H; injection H as <- <- <-; left; eexists;
        split; [reflexivity|]; split; [reflexivity|];
        split; [|intros mid]; simpl; intuition discriminate).
  destruct (story_DestroyMarker r st s marker) as [[[]|e] dst] eqn:Hdestroy.
  - intros H. injection H as <- <- <-. right.
    exists markerID, marker, s. rewrite Hdestroy.
    repeat split; try assumption; reflexivity.
  - intros H. injection H as <- <- <-. left. eexists.
    split; [reflexivity|]; split; [reflexivity|].
    split; [|intros mid]; simpl; intuition discriminate.
Qed.

Lemma marker_destroy_needs_marker_and_story_witness :
  (exists e,
     Ok true = Err e /\ delete 8 InMemoryMore.markers = InMemoryMore.markers /\
     ~ In MarkerDeleterCommit
         [DestroyMarker 8; MarkerTxnCommit; MarkerDeleterCommit;
          MarkerPostHook 8] /\
     forall markerID,
       ~ In (MarkerPostHook markerID)
           [DestroyMarker 8; MarkerTxnCommit; MarkerDeleterCommit;
            MarkerPostHook 8]) \/
  (exists markerID marker s,
     Ok true = Ok true /\
     strconv.Atoi "8" = Some markerID /\
     StoryMarker_Find InMemoryMore.markerResolver InMemoryMore.markers
       markerID = Ok (Some marker) /\
     mr_Story_Find InMemoryMore.markerResolver InMemoryMore.markers
       (sm_StoryID marker) = Ok (Some s) /\
     delete 8 InMemoryMore.markers
     = snd (story_DestroyMarker InMemoryMore.markerResolver
              InMemoryMore.markers s marker) /\
     [DestroyMarker 8; MarkerTxnCommit; MarkerDeleterCommit; MarkerPostHook 8]
     = [DestroyMarker (sm_ID marker); MarkerTxnCommit;
        MarkerDeleterCommit; MarkerPostHook markerID]).
Proof.
  apply (marker_destroy_needs_marker_and_story InMemoryMore.markerResolver
           InMemoryMore.markers (delete 8 InMemoryMore.markers) "8"
           (Ok true)
           [DestroyMarker 8; MarkerTxnCommit; MarkerDeleterCommit;
            MarkerPostHook 8]).
  reflexivity.
Defined.
